(** * Fee-aware cross-exchange arbitrage scanner: a shallow embedding

    The development follows the package layout of the scanner:
    - [Fees]    : [arbitrage/fees.py], the VWAP fill and the fee-aware profit;
    - [Py]      : exceptions, strings and sorting as the Python code uses them;
    - [Cache]   : [arbitrage/cache.py], the key/value store with time-to-live;
    - [Json]    : [json.dumps] and [json.loads] of the standard library, as
                  the store calls them;
    - [Client]  : [arbitrage/exchanges/ccxt_client.py], order-book fetch with
                  fallback depths, taker fees, common symbols, cheapest
                  shared withdrawal network;
    - [Scanner] : [arbitrage/scanner.py], the two-exchange scan;
    - [Spec]    : the notions in which the properties are stated;
    - [Example] : a small scan on which the statements are exercised;
    - [Utils]   : [arbitrage/utils.py], the chunking of a list;
    - [Markets] : the market cache of [arbitrage/cache.py], and the loading
                  of the markets and the extraction of the withdrawal fees
                  of [arbitrage/exchanges/ccxt_client.py];
    - [Config]  : [arbitrage/config.py], the lists read from the environment;
    - [Cli]     : [arbitrage/cli.py], the choice of the two exchanges;
    - [Props]   : further notions for the properties of the scan;
    - [Cases]   : further data on which the statements are exercised.

    Conventions.  Python floats are modelled as exact rationals ([Q]), so
    equalities between computed prices and amounts are stated up to [Qeq]
    ([==]) where the order of the operations differs.  A call that may
    raise returns a [Py.result].  Dictionaries and sets are [gmap] and
    [gset]; no statement depends on their iteration order.  The clock is
    read in whole seconds, as [int(time.time())].  What the exchange
    library answers (order books, published fees) is an input of the
    functions that use it. *)

From Stdlib Require Import QArith Qminmax Lqa Lia Ascii.
From Stdlib Require DecimalFacts DecimalPos DecimalN.
From stdpp Require Import gmap strings list sorting.

Local Open Scope Q_scope.

(* ===================================================================== *)
(** ** arbitrage/fees.py *)
(* ===================================================================== *)

Module Fees.

(** An entry of an order-book level as the exchange library hands it over:
    either something [float()] converts, or something it raises on. *)
Inductive cell : Type :=
| Num (q : Q)
| NotNum.

Definition to_float (c : cell) : option Q :=
  match c with
  | Num q => Some q
  | NotNum => None
  end.

(** [levels: List[List[float]]], each level [[price, amount, ...]]. *)
Definition level : Type := list cell.

(** The three accumulators of the loop of [compute_vwap_for_amount]. *)
Record fill : Type := mkFill
  { remaining : Q;
    total_quote : Q;
    filled : Q }.

(** The fill tolerance [1e-12]. *)
Definition fill_tol : Q := 1 # 1000000000000.

(** Body of [for level in levels: ...], with [continue] as the recursive
    call on the unchanged accumulators and [break] as returning them. *)
Fixpoint vwap_loop (levels : list level) (st : fill) : fill :=
  match levels with
  | [] => st
  | lv :: rest =>
      match lv with
      | c0 :: c1 :: _ =>
          match to_float c0 with
          | None => vwap_loop rest st
          | Some price =>
              match to_float c1 with
              | None => vwap_loop rest st
              | Some amount =>
                  if Qle_bool amount 0 || Qle_bool price 0
                  then vwap_loop rest st
                  else
                    let take := Qmin (remaining st) amount in
                    let st' :=
                      {| remaining := remaining st - take;
                         total_quote := total_quote st + take * price;
                         filled := filled st + take |} in
                    if Qle_bool (remaining st') fill_tol
                    then st'
                    else vwap_loop rest st'
              end
          end
      | _ => vwap_loop rest st
      end
  end.

Definition compute_vwap_for_amount
    (side : string) (levels : list level) (amount_base : Q) : option (Q * Q) :=
  if Qle_bool amount_base 0 then None
  else
    let st := vwap_loop levels
                {| remaining := amount_base; total_quote := 0; filled := 0 |} in
    if Qle_bool (filled st) 0 then None
    else Some (total_quote st / filled st, filled st).

(** Python's [max(0.0, x)]: the second argument only when it is strictly
    larger than the first. *)
Definition max0 (x : Q) : Q := if Qlt_le_dec 0 x then x else 0.

Definition estimate_fee_aware_profit_pct
    (buy_price sell_price base_amount
     taker_fee_buy taker_fee_sell withdraw_fee_base : Q) : Q :=
  let cost_quote := base_amount * buy_price in
  let cost_quote_with_fee := cost_quote * (1 + taker_fee_buy) in
  let base_after_withdraw := max0 (base_amount - withdraw_fee_base) in
  let revenue_quote := base_after_withdraw * sell_price in
  let revenue_quote_after_fee := revenue_quote * (1 - taker_fee_sell) in
  if Qle_bool cost_quote_with_fee 0 then - (100)
  else (revenue_quote_after_fee - cost_quote_with_fee)
         / cost_quote_with_fee * 100.

End Fees.

(* ===================================================================== *)
(** ** Python values shared by the modules *)
(* ===================================================================== *)

Module Py.

(** A raised exception (an instance of [Exception], which is what the
    [except Exception] clauses of the program catch): its class name and
    [str(exc)]. *)
Record exn : Type := Exn { exn_kind : string; exn_msg : string }.

(** The outcome of a call that may raise. *)
Inductive result (A : Type) : Type :=
| Ok (a : A)
| Raise (e : exn).
Arguments Ok {A} a.
Arguments Raise {A} e.

Definition bind {A B : Type} (r : result A) (k : A -> result B) : result B :=
  match r with
  | Ok a => k a
  | Raise e => Raise e
  end.

Definition KeyError (k : string) : exn := Exn "KeyError" k.
Definition IndexError : exn := Exn "IndexError" "list index out of range".
Definition ValueError (m : string) : exn := Exn "ValueError" m.
Definition TypeError (m : string) : exn := Exn "TypeError" m.
Definition ZeroDivisionError : exn :=
  Exn "ZeroDivisionError" "float division by zero".

(** [str.upper()] on the ASCII letters; other bytes are left as they are. *)
Definition upper_ascii (c : ascii) : ascii :=
  let n := Ascii.nat_of_ascii c in
  if (97 <=? n)%nat && (n <=? 122)%nat then Ascii.ascii_of_nat (n - 32) else c.

Fixpoint upper (s : string) : string :=
  match s with
  | EmptyString => EmptyString
  | String c s' => String (upper_ascii c) (upper s')
  end.

(** [s.split(sep)] for a one-character separator. *)
Fixpoint split (sep : ascii) (s : string) : list string :=
  match s with
  | EmptyString => [EmptyString]
  | String c s' =>
      if Ascii.eqb c sep then EmptyString :: split sep s'
      else match split sep s' with
           | [] => [String c EmptyString]
           | h :: t => String c h :: t
           end
  end.

(** [needle in hay] on strings. *)
Fixpoint contains (needle hay : string) : bool :=
  String.prefix needle hay ||
  match hay with
  | EmptyString => false
  | String _ hay' => contains needle hay'
  end.

(** [list.sort()], a stable sort, as a stable insertion sort for the
    order [leb]. *)
Section Sort.
Context {A : Type} (leb : A -> A -> bool).

Fixpoint insert_sorted (x : A) (l : list A) : list A :=
  match l with
  | [] => [x]
  | y :: l' => if leb x y then x :: y :: l' else y :: insert_sorted x l'
  end.

Definition sort (l : list A) : list A := foldr insert_sorted [] l.
End Sort.

End Py.

Declare Scope py_scope.
Delimit Scope py_scope with py.
Notation "x <- e ;; k" := (Py.bind e (fun x => k))
  (at level 100, e at next level, right associativity) : py_scope.

(* ===================================================================== *)
(** ** arbitrage/cache.py *)
(* ===================================================================== *)

Module Cache.
Import Py.

(** The table [kv_store(k TEXT PRIMARY KEY, v TEXT, updated_at INTEGER)]:
    one row per key. *)
Record row : Type := Row { v : string; updated_at : Z }.

Section KV.
(** The stored values and [json.dumps] / [json.loads] of the standard
    library, which the cache only calls. *)
Context {value : Type}.
Variable dumps : value -> string.
Variable loads : string -> result value.

(** [set_json]; [now] is the reading [int(time.time())] of the clock,
    in whole seconds.  [INSERT OR REPLACE] on the primary key. *)
Definition set_json (db : gmap string row) (now : Z)
    (key : string) (val : value) : gmap string row :=
  let payload := dumps val in
  <[key := Row payload now]> db.

(** [get_json]; [ttl_seconds = None] when the caller passes no ttl. *)
Definition get_json (db : gmap string row) (now : Z)
    (key : string) (ttl_seconds : option Z) : result (option value) :=
  match db !! key with
  | None => Ok None
  | Some r =>
      let expired :=
        match ttl_seconds with
        | Some ttl => (ttl <? now - updated_at r)%Z
        | None => false
        end in
      if expired then Ok None
      else bind (loads (v r)) (fun x => Ok (Some x))
  end.
End KV.

End Cache.

(* ===================================================================== *)
(** ** [json.dumps] and [json.loads] as the cache calls them *)
(* ===================================================================== *)

(** The two functions of the standard library that [set_json] and
    [get_json] call, on the values [json.dumps] accepts.  A string is
    held as its UTF-8 bytes, which is also how the text is written: with
    [ensure_ascii=False] only the quote, the backslash and the control
    characters are escaped.  A finite float is held as the literal that
    [repr] gives for it and that [float()] reads back to the same float;
    the decoder turns every number with a fraction or an exponent into
    such a literal.  Not modelled: the limits of the interpreter (depth
    of recursion, number of digits of an integer) and [\u] escapes of
    surrogates. *)

Module Json.
Import Py.
Local Open Scope py_scope.
Local Open Scope list_scope.

(** The characters of a string. *)
Definition chars (s : string) : list ascii := String.list_ascii_of_string s.

(** The double quote and the backslash. *)
Definition dquote : ascii := "034"%char.
Definition backslash : ascii := "092"%char.

(** *** The values [json.dumps] accepts *)

(** A float: a finite one is held as the decimal literal that [repr]
    gives for it and [float()] reads back to it (sign, whole part, digits
    after the point, exponent with its sign character if it has one). *)
Inductive pyfloat : Type :=
| Finite (negative : bool) (whole : N) (fraction : option Decimal.uint)
    (exponent : option (option bool * Decimal.uint))
| Infinity (negative : bool)
| NaN.

(** The keys of a dictionary that [json.dumps] converts to strings; keys
    of any other type make it raise. *)
Inductive key : Type :=
| KStr (s : string)
| KInt (n : Z)
| KFloat (f : pyfloat)
| KBool (b : bool)
| KNone.

(** A string is held as its UTF-8 bytes; a dictionary as its entries in
    insertion order. *)
#[warnings="-register-all"]
Inductive value : Type :=
| PyNone
| PyBool (b : bool)
| PyInt (n : Z)
| PyFloat (f : pyfloat)
| PyStr (s : string)
| PyList (items : list value)
| PyTuple (items : list value)
| PyDict (entries : list (key * value)).

(** *** [json.dumps(value, ensure_ascii=False, separators=(",", ":"))] *)

Fixpoint uint_chars (u : Decimal.uint) : list ascii :=
  match u with
  | Decimal.Nil => []
  | Decimal.D0 u => "0"%char :: uint_chars u
  | Decimal.D1 u => "1"%char :: uint_chars u
  | Decimal.D2 u => "2"%char :: uint_chars u
  | Decimal.D3 u => "3"%char :: uint_chars u
  | Decimal.D4 u => "4"%char :: uint_chars u
  | Decimal.D5 u => "5"%char :: uint_chars u
  | Decimal.D6 u => "6"%char :: uint_chars u
  | Decimal.D7 u => "7"%char :: uint_chars u
  | Decimal.D8 u => "8"%char :: uint_chars u
  | Decimal.D9 u => "9"%char :: uint_chars u
  end.

(** [int.__repr__] *)
Definition encode_int (n : Z) : list ascii :=
  match n with
  | Z0 => ["0"%char]
  | Zpos p => uint_chars (Pos.to_uint p)
  | Zneg p => "-"%char :: uint_chars (Pos.to_uint p)
  end.

(** [float.__repr__], and the names the encoder gives to the other
    floats. *)
Definition encode_float (f : pyfloat) : list ascii :=
  match f with
  | Finite negative whole fraction exponent =>
      (if negative then ["-"%char] else []) ++
      uint_chars (N.to_uint whole) ++
      match fraction with
      | Some digits => "."%char :: uint_chars digits
      | None => []
      end ++
      match exponent with
      | Some (sign, digits) =>
          "e"%char ::
          match sign with
          | Some true => ["-"%char]
          | Some false => ["+"%char]
          | None => []
          end ++ uint_chars digits
      | None => []
      end
  | Infinity false => chars "Infinity"
  | Infinity true => chars "-Infinity"
  | NaN => chars "NaN"
  end.

Definition hex_char (n : N) : ascii :=
  nth (N.to_nat n) (chars "0123456789abcdef") "0"%char.

(** The escapes of the encoder when [ensure_ascii] is off: the quote, the
    backslash and the control characters. *)
Definition escape (c : ascii) : list ascii :=
  let n := N_of_ascii c in
  if (n =? 34)%N then [backslash; dquote]
  else if (n =? 92)%N then [backslash; backslash]
  else if (n =? 10)%N then [backslash; "n"%char]
  else if (n =? 13)%N then [backslash; "r"%char]
  else if (n =? 9)%N then [backslash; "t"%char]
  else if (n =? 8)%N then [backslash; "b"%char]
  else if (n =? 12)%N then [backslash; "f"%char]
  else if (n <? 32)%N then
    [backslash; "u"%char; "0"%char; "0"%char;
     hex_char (n / 16); hex_char (n mod 16)]
  else [c].

Definition encode_chars (s : list ascii) : list ascii :=
  dquote :: concat (escape <$> s) ++ [dquote].

Definition encode_str (s : string) : list ascii := encode_chars (chars s).

(** The string a key is converted to. *)
Definition key_text (k : key) : string :=
  match k with
  | KStr s => s
  | KInt n => String.string_of_list_ascii (encode_int n)
  | KFloat f => String.string_of_list_ascii (encode_float f)
  | KBool true => "true"
  | KBool false => "false"
  | KNone => "null"
  end.

(** The item separator. *)
Fixpoint join (parts : list (list ascii)) : list ascii :=
  match parts with
  | [] => []
  | [part] => part
  | part :: rest => part ++ ","%char :: join rest
  end.

Fixpoint encode (val : value) : list ascii :=
  match val with
  | PyNone => chars "null"
  | PyBool true => chars "true"
  | PyBool false => chars "false"
  | PyInt n => encode_int n
  | PyFloat f => encode_float f
  | PyStr s => encode_str s
  | PyList items | PyTuple items =>
      "["%char :: join (encode <$> items) ++ ["]"%char]
  | PyDict entries =>
      "{"%char ::
      join ((fun kv => encode_str (key_text kv.1) ++ ":"%char :: encode kv.2)
              <$> entries) ++ ["}"%char]
  end.

(** A member of an object as [encode] writes it. *)
Definition encode_member (kv : key * value) : list ascii :=
  encode_str (key_text kv.1) ++ ":"%char :: encode kv.2.

Definition dumps (val : value) : string := String.string_of_list_ascii (encode val).

(** *** [json.loads] *)

Definition JSONDecodeError (msg : string) : exn := Exn "JSONDecodeError" msg.
Definition RecursionError : exn :=
  Exn "RecursionError" "maximum recursion depth exceeded".
(** What the decoder would accept but this model has no value for: a
    [\u] escape of a surrogate. *)
Definition NotModelled (what : string) : exn := Exn "NotModelled" what.

Definition is_ws (c : ascii) : bool :=
  let n := N_of_ascii c in
  (n =? 32)%N || (n =? 9)%N || (n =? 10)%N || (n =? 13)%N.

Fixpoint skip_ws (s : list ascii) : list ascii :=
  match s with
  | c :: rest => if is_ws c then skip_ws rest else s
  | [] => []
  end.

Definition starts_with (c : ascii) (s : list ascii) : bool :=
  match s with
  | c' :: _ => Ascii.eqb c' c
  | [] => false
  end.

Fixpoint has_prefix (p s : list ascii) : bool :=
  match p, s with
  | [], _ => true
  | c :: p', c' :: s' => Ascii.eqb c c' && has_prefix p' s'
  | _ :: _, [] => false
  end.

Definition digit_of (c : ascii) : option (Decimal.uint -> Decimal.uint) :=
  let n := N_of_ascii c in
  if (n =? 48)%N then Some Decimal.D0
  else if (n =? 49)%N then Some Decimal.D1
  else if (n =? 50)%N then Some Decimal.D2
  else if (n =? 51)%N then Some Decimal.D3
  else if (n =? 52)%N then Some Decimal.D4
  else if (n =? 53)%N then Some Decimal.D5
  else if (n =? 54)%N then Some Decimal.D6
  else if (n =? 55)%N then Some Decimal.D7
  else if (n =? 56)%N then Some Decimal.D8
  else if (n =? 57)%N then Some Decimal.D9
  else None.

Definition is_digit (c : ascii) : bool :=
  match digit_of c with Some _ => true | None => false end.

(** The longest run of digits at the start. *)
Fixpoint read_uint (s : list ascii) : Decimal.uint * list ascii :=
  match s with
  | c :: rest =>
      match digit_of c with
      | Some d => let '(u, rest') := read_uint rest in (d u, rest')
      | None => (Decimal.Nil, s)
      end
  | [] => (Decimal.Nil, [])
  end.

(** A point followed by at least one digit, if there is one. *)
Definition read_fraction (s : list ascii)
    : option Decimal.uint * list ascii :=
  match s with
  | c :: d :: _ =>
      if Ascii.eqb c "."%char && is_digit d
      then let '(u, rest) := read_uint (tail s) in (Some u, rest)
      else (None, s)
  | _ => (None, s)
  end.

(** An [e] or [E], an optional sign and at least one digit, if there
    is one. *)
Definition read_exponent (s : list ascii)
    : option (option bool * Decimal.uint) * list ascii :=
  match s with
  | c :: rest =>
      if Ascii.eqb c "e"%char || Ascii.eqb c "E"%char then
        match rest with
        | d :: rest' =>
            if is_digit d
            then let '(u, r) := read_uint rest in (Some (None, u), r)
            else if (Ascii.eqb d "-"%char || Ascii.eqb d "+"%char)
                    && match rest' with d' :: _ => is_digit d' | [] => false end
            then let '(u, r) := read_uint rest' in
                 (Some (Some (Ascii.eqb d "-"%char), u), r)
            else (None, s)
        | [] => (None, s)
        end
      else (None, s)
  | [] => (None, s)
  end.

(** A number: an optional minus, then a zero or a run of digits that
    does not start with a zero, then an optional fraction and an optional
    exponent.  It is an integer when it has neither fraction nor
    exponent, else a float. *)
Definition read_whole (s : list ascii) : Decimal.uint * list ascii :=
  if starts_with "0"%char s then (Decimal.D0 Decimal.Nil, tail s)
  else read_uint s.

Definition parse_number (s : list ascii) : result (value * list ascii) :=
  let negative := starts_with "-"%char s in
  let s1 := if negative then tail s else s in
  if match s1 with d :: _ => is_digit d | [] => false end then
    let '(digits, r1) := read_whole s1 in
    let whole := N.of_uint digits in
    let '(fraction, r2) := read_fraction r1 in
    let '(exponent, r3) := read_exponent r2 in
    match fraction, exponent with
    | None, None =>
        Ok (PyInt (if negative then - Z.of_N whole else Z.of_N whole)%Z, r3)
    | _, _ => Ok (PyFloat (Finite negative whole fraction exponent), r3)
    end
  else Raise (JSONDecodeError "Expecting value").

Definition hex_value (c : ascii) : option N :=
  let n := N_of_ascii c in
  if (48 <=? n)%N && (n <=? 57)%N then Some (n - 48)%N
  else if (97 <=? n)%N && (n <=? 102)%N then Some (n - 87)%N
  else if (65 <=? n)%N && (n <=? 70)%N then Some (n - 55)%N
  else None.

(** The UTF-8 bytes of a code point below 0x10000. *)
Definition utf8 (cp : N) : list ascii :=
  if (cp <? 128)%N then [ascii_of_N cp]
  else if (cp <? 2048)%N then
    [ascii_of_N (192 + cp / 64); ascii_of_N (128 + cp mod 64)]
  else
    [ascii_of_N (224 + cp / 4096); ascii_of_N (128 + (cp / 64) mod 64);
     ascii_of_N (128 + cp mod 64)].

(** The character of a one-letter escape. *)
Definition unescape (c : ascii) : option ascii :=
  let n := N_of_ascii c in
  if (n =? 34)%N then Some dquote
  else if (n =? 92)%N then Some backslash
  else if (n =? 47)%N then Some "/"%char
  else if (n =? 98)%N then Some "008"%char
  else if (n =? 102)%N then Some "012"%char
  else if (n =? 110)%N then Some "010"%char
  else if (n =? 114)%N then Some "013"%char
  else if (n =? 116)%N then Some "009"%char
  else None.

(** The rest of a string after its opening quote: the characters up to
    the closing quote, with the escapes undone, and what follows. *)
Fixpoint read_str (s : list ascii) : result (list ascii * list ascii) :=
  match s with
  | [] => Raise (JSONDecodeError "Unterminated string starting at")
  | c :: rest =>
      if Ascii.eqb c dquote then Ok ([], rest)
      else if Ascii.eqb c backslash then
        match rest with
        | [] => Raise (JSONDecodeError "Unterminated string starting at")
        | e :: rest' =>
            if Ascii.eqb e "u"%char then
              match rest' with
              | h1 :: h2 :: h3 :: h4 :: rest'' =>
                  match hex_value h1, hex_value h2, hex_value h3, hex_value h4 with
                  | Some n1, Some n2, Some n3, Some n4 =>
                      let cp := (((n1 * 16 + n2) * 16 + n3) * 16 + n4)%N in
                      if (55296 <=? cp)%N && (cp <=? 57343)%N
                      then Raise (NotModelled "surrogate escape")
                      else
                        more <- read_str rest'' ;;
                        Ok (utf8 cp ++ more.1, more.2)
                  | _, _, _, _ => Raise (JSONDecodeError "Invalid \uXXXX escape")
                  end
              | _ => Raise (JSONDecodeError "Invalid \uXXXX escape")
              end
            else
              match unescape e with
              | Some ch => more <- read_str rest' ;; Ok (ch :: more.1, more.2)
              | None => Raise (JSONDecodeError "Invalid \escape")
              end
        end
      else if (N_of_ascii c <? 32)%N
      then Raise (JSONDecodeError "Invalid control character at")
      else more <- read_str rest ;; Ok (c :: more.1, more.2)
  end.

(** [dict(pairs)]: a key that comes again keeps its place and takes the
    later value. *)
Fixpoint dict_set (k : string) (val : value) (entries : list (string * value))
    : list (string * value) :=
  match entries with
  | [] => [(k, val)]
  | (k', val') :: rest =>
      if String.eqb k' k then (k', val) :: rest
      else (k', val') :: dict_set k val rest
  end.

(** The scanner.  [fuel] bounds the calls; [loads] gives it enough for
    every text.  [parse_items] and [parse_members] read what follows the
    opening bracket or brace of a non-empty array or object. *)
Fixpoint parse_value (fuel : nat) (s : list ascii) {struct fuel}
    : result (value * list ascii) :=
  match fuel with
  | O => Raise RecursionError
  | S fuel =>
      if starts_with dquote s then
        str <- read_str (tail s) ;;
        Ok (PyStr (String.string_of_list_ascii str.1), str.2)
      else if starts_with "{"%char s then
        let rest := skip_ws (tail s) in
        if starts_with "}"%char rest then Ok (PyDict [], tail rest)
        else parse_members fuel rest []
      else if starts_with "["%char s then
        let rest := skip_ws (tail s) in
        if starts_with "]"%char rest then Ok (PyList [], tail rest)
        else parse_items fuel rest []
      else if has_prefix (chars "null") s then Ok (PyNone, drop 4 s)
      else if has_prefix (chars "true") s then Ok (PyBool true, drop 4 s)
      else if has_prefix (chars "false") s then Ok (PyBool false, drop 5 s)
      else if starts_with "-"%char s || match s with
                                        | c :: _ => is_digit c
                                        | [] => false
                                        end
      then
        if has_prefix (chars "-Infinity") s
        then Ok (PyFloat (Infinity true), drop 9 s)
        else parse_number s
      else if has_prefix (chars "NaN") s then Ok (PyFloat NaN, drop 3 s)
      else if has_prefix (chars "Infinity") s
      then Ok (PyFloat (Infinity false), drop 8 s)
      else Raise (JSONDecodeError "Expecting value")
  end
with parse_items (fuel : nat) (s : list ascii) (acc : list value)
    {struct fuel} : result (value * list ascii) :=
  match fuel with
  | O => Raise RecursionError
  | S fuel =>
      item <- parse_value fuel s ;;
      let acc := acc ++ [item.1] in
      let rest := skip_ws item.2 in
      if starts_with "]"%char rest then Ok (PyList acc, tail rest)
      else if starts_with ","%char rest
      then parse_items fuel (skip_ws (tail rest)) acc
      else Raise (JSONDecodeError "Expecting ',' delimiter")
  end
with parse_members (fuel : nat) (s : list ascii)
    (acc : list (string * value)) {struct fuel}
    : result (value * list ascii) :=
  match fuel with
  | O => Raise RecursionError
  | S fuel =>
      if starts_with dquote s then
        name <- read_str (tail s) ;;
        let rest := skip_ws name.2 in
        if starts_with ":"%char rest then
          member <- parse_value fuel (skip_ws (tail rest)) ;;
          let acc := dict_set (String.string_of_list_ascii name.1) member.1 acc in
          let rest := skip_ws member.2 in
          if starts_with "}"%char rest
          then Ok (PyDict (prod_map KStr id <$> acc), tail rest)
          else if starts_with ","%char rest
          then parse_members fuel (skip_ws (tail rest)) acc
          else Raise (JSONDecodeError "Expecting ',' delimiter")
        else Raise (JSONDecodeError "Expecting ':' delimiter")
      else Raise (JSONDecodeError
                    "Expecting property name enclosed in double quotes")
  end.

Definition decode (s : list ascii) : result value :=
  parsed <- parse_value (2 * length s + 2) (skip_ws s) ;;
  match skip_ws parsed.2 with
  | [] => Ok parsed.1
  | _ :: _ => Raise (JSONDecodeError "Extra data")
  end.

Definition loads (s : string) : result value := decode (chars s).

(** *** Values that read back as they were written *)

(** What can follow a value inside a text: nothing, a comma, or a closing
    bracket or brace. *)
Definition ends_value (s : list ascii) : bool :=
  match s with
  | [] => true
  | c :: _ =>
      Ascii.eqb c ","%char || Ascii.eqb c "]"%char || Ascii.eqb c "}"%char
  end.

(** The scanner reads the encoded value back, whatever follows it. *)
Definition reads_back (val : value) : Prop :=
  forall fuel rest, (length (encode val) <= fuel)%nat ->
    ends_value rest = true ->
    parse_value fuel (encode val ++ rest) = Ok (val, rest).

Definition float_round_trips (f : pyfloat) : bool :=
  match f with
  | Finite _ _ fraction exponent =>
      match fraction with
      | Some Decimal.Nil => false
      | _ => true
      end &&
      match exponent with
      | Some (_, Decimal.Nil) => false
      | _ => true
      end &&
      (bool_decide (is_Some fraction) || bool_decide (is_Some exponent))
  | Infinity _ => true
  | NaN => false
  end.

Definition is_str_key (k : key) : bool :=
  match k with
  | KStr _ => true
  | _ => false
  end.

(** No tuple, no NaN (which is not equal to itself), and dictionaries
    keyed by strings. *)
Fixpoint native (val : value) : bool :=
  match val with
  | PyFloat f => float_round_trips f
  | PyList items => forallb native items
  | PyTuple _ => false
  | PyDict entries =>
      forallb (fun kv => is_str_key kv.1 && native kv.2) entries &&
      bool_decide (NoDup (key_text <$> entries.*1))
  | _ => true
  end.

End Json.

(* ===================================================================== *)
(** ** arbitrage/exchanges/ccxt_client.py *)
(* ===================================================================== *)

Module Client.
Import Py.
Local Open Scope py_scope.

(** A normalized market, as [load_all_markets] builds it and the cache
    returns it.  [taker] and [active] are read with [.get], so they may be
    missing. *)
Record market : Type := Market
  { symbol : string;
    base : string;
    quote : string;
    taker : option Q;
    active : option bool }.

(** [m.get("active", True)] as a condition. *)
Definition is_active (m : market) : bool := default true (active m).

(** An order book: the [asks] and [bids] sides, each a list of levels
    ([ob.get("asks") or []]: a missing side reads as the empty list). *)
Record order_book : Type := OrderBook
  { asks : list Fees.level;
    bids : list Fees.level }.

(** *** [fetch_order_book_safe] *)

(** The exchange object of the connectivity library, as far as this module
    uses it: its [id], and the answer of [fetch_order_book(symbol, limit)]
    to the [n]-th request sent to it ([limit = None]: no depth given). *)
Record exchange : Type := Exchange
  { id : string;
    fetch_order_book : nat -> string -> option Z -> result order_book;
    currency_fees : gmap string (gmap string Q) }.

Definition known_limits : list string := ["20"; "50"; "100"; "500"; "1000"].

(** The fallback ladder chosen from the exchange and the first error. *)
Definition candidates (ex : exchange) (msg : string) : list (option Z) :=
  if bool_decide (id ex ∈ ["kucoin"; "kucoinfutures"])
  then [Some 20; Some 100]%Z
  else if contains "limit" msg && existsb (fun x => contains x msg) known_limits
  then [Some 20; Some 50; Some 100]%Z
  else [None].

(** [for cand in candidates: try: return ... except Exception: continue];
    [n] counts the requests already sent.  Falling out of the loop logs a
    warning and returns [None]. *)
Fixpoint try_candidates (ex : exchange) (n : nat) (symbol : string)
    (cands : list (option Z)) : result (option order_book) :=
  match cands with
  | [] => Ok None
  | cand :: rest =>
      match fetch_order_book ex n symbol cand with
      | Ok ob => Ok (Some ob)
      | Raise _ => try_candidates ex (S n) symbol rest
      end
  end.

Definition fetch_order_book_safe (ex : exchange) (n : nat)
    (symbol : string) (limit : Z) : result (option order_book) :=
  match fetch_order_book ex n symbol (Some limit) with
  | Ok ob => Ok (Some ob)
  | Raise exc1 =>
      let msg := exn_msg exc1 in
      try_candidates ex (S n) symbol (candidates ex msg)
  end.

(** *** [get_taker_fee_for_market] *)

Definition get_taker_fee_for_market (exchange_id : string) (m : market) : Q :=
  let rate := default (1 # 1000) (taker m) in
  let rate := if Qlt_le_dec rate 0 then 0 else rate in
  let rate := if Qlt_le_dec (2 # 100) rate then 2 # 100 else rate in
  rate.

(** *** [find_common_symbols] *)

(** [f"{base}/{quote}"] *)
Definition render (bq : string * string) : string :=
  String.append bq.1 (String "/" bq.2).

Definition pairs_of (markets : list market) : gset (string * string) :=
  list_to_set ((fun m => (base m, quote m)) <$> filter (fun m => is_active m = true) markets).

(** [s.split("/")[1].upper() in quotes] *)
Definition quote_in (quotes : gset string) (s : string) : result bool :=
  match split "/" s !! 1%nat with
  | Some q => Ok (bool_decide (upper q ∈ quotes))
  | None => Raise IndexError
  end.

(** A list comprehension with a condition that may raise. *)
Fixpoint filter_result {A : Type} (f : A -> result bool) (l : list A)
    : result (list A) :=
  match l with
  | [] => Ok []
  | x :: l' =>
      b <- f x ;;
      r <- filter_result f l' ;;
      Ok (if b then x :: r else r)
  end.

(** A tuple is true as a condition when it is not empty. *)
Definition truthy (preferred_quotes : option (list string)) : bool :=
  match preferred_quotes with
  | Some (_ :: _) => true
  | _ => false
  end.

Definition find_common_symbols (markets_a markets_b : list market)
    (preferred_quotes : option (list string)) : result (list string) :=
  let set_a := pairs_of markets_a in
  let set_b := pairs_of markets_b in
  let common := set_a ∩ set_b in
  let symbols := render <$> elements common in
  symbols <-
    (if truthy preferred_quotes then
       let quotes : gset string :=
         list_to_set (upper <$> default [] preferred_quotes) in
       filter_result (quote_in quotes) symbols
     else Ok symbols) ;;
  Ok (sort String.leb symbols).

(** *** [find_cheapest_common_network_fee] *)

(** A float or [float("inf")]. *)
Inductive ext : Type :=
| Fin (q : Q)
| Inf.

Definition ext_ltb (x y : ext) : bool :=
  match x, y with
  | Fin a, Fin b => negb (Qle_bool b a)
  | Fin _, Inf => true
  | Inf, _ => false
  end.

(** [min(xs, key=key)]: the first element whose key no other one is
    strictly below. *)
Fixpoint min_by {A : Type} (key : A -> ext) (best : A) (l : list A) : A :=
  match l with
  | [] => best
  | x :: l' => if ext_ltb (key x) (key best) then min_by key x l'
               else min_by key best l'
  end.

(** [a.get(n, float("inf")) + b.get(n, 0.0)] *)
Definition fee_sum (a b : gmap string Q) (n : string) : ext :=
  match a !! n with
  | Some fa => Fin (fa + default 0 (b !! n))
  | None => Inf
  end.

(** [fees_a], [fees_b]: what [_extract_currency_network_fees] returned for
    the two exchanges. *)
Definition find_cheapest_common_network_fee
    (fees_a fees_b : gmap string (gmap string Q)) (currency_code : string)
    : result (option (string * Q)) :=
  let a := default ∅ (fees_a !! currency_code) in
  let b := default ∅ (fees_b !! currency_code) in
  if bool_decide (a = ∅) || bool_decide (b = ∅) then Ok None
  else
    let common_networks : gset string := dom a ∩ dom b in
    match elements common_networks with
    | [] => Ok None
    | n0 :: ns =>
        let best_network := min_by (fee_sum a b) n0 ns in
        match a !! best_network with
        | Some fee => Ok (Some (best_network, fee))
        | None => Raise (KeyError best_network)
        end
    end.

End Client.

(* ===================================================================== *)
(** ** arbitrage/scanner.py *)
(* ===================================================================== *)

Module Scanner.
Import Py.
Local Open Scope py_scope.

(** The fields of [Settings] the scan reads. *)
Record Settings : Type := MkSettings
  { min_profit_pct : Q;
    min_notional_usd : Q;
    preferred_quotes : list string }.

Record Opportunity : Type := MkOpportunity
  { symbol : string;
    buy_exchange : string;
    sell_exchange : string;
    profit_pct : Q;
    base_amount : Q;
    buy_price : Q;
    sell_price : Q;
    network : option string }.

(** Buy on A and sell on B, or buy on B and sell on A. *)
Inductive direction : Type := AtoB | BtoA.

(** One call of [estimate_fee_aware_profit_pct] during a scan, with its
    arguments and its result.  The scan itself never reads these records:
    they are kept so that statements can speak of every profit that was
    computed, recorded as an opportunity or not. *)
Record evaluation : Type := MkEvaluation
  { ev_symbol : string;
    ev_base : string;
    ev_direction : direction;
    ev_buy_price : Q;
    ev_sell_price : Q;
    ev_base_amount : Q;
    ev_taker_buy : Q;
    ev_taker_sell : Q;
    ev_withdraw_fee : Q;
    ev_network : option string;
    ev_profit : Q }.

(** The local variables of [scan_two_exchanges] that the loop updates,
    and two histories for the statements: the calls of
    [find_cheapest_common_network_fee] and the profit evaluations. *)
Record scan_state : Type := MkState
  { network_fee_cache : gmap string (option string * Q);
    opportunities : list Opportunity;
    lookups : list (direction * string);
    evaluations : list evaluation }.

Definition initial_state : scan_state := MkState ∅ [] [] [].

(** [{m["symbol"]: m for m in markets}]: a later market replaces an
    earlier one of the same symbol. *)
Definition index_markets (markets : list Client.market)
    : gmap string Client.market :=
  foldl (fun idx m => <[Client.symbol m := m]> idx) ∅ markets.

(** [top = side[0][0]; max(1e-6, target_quote / float(top))] *)
Definition estimate_base_amount (target_quote : Q) (side : list Fees.level)
    : result Q :=
  match side with
  | [] => Raise IndexError
  | [] :: _ => Raise IndexError
  | (top :: _) :: _ =>
      match Fees.to_float top with
      | None => Raise (TypeError "float() argument")
      | Some top_ask =>
          if Qeq_bool top_ask 0 then Raise ZeroDivisionError
          else Ok (Qmax (1 # 1000000) (target_quote / top_ask))
      end
  end.

(** The sizing and the two VWAP fills of one direction: [None] when a
    fill fails, else [(buy_avg, sell_avg, min(buy_filled, sell_filled))]. *)
Definition vwap_leg (target_quote : Q) (ask_side bid_side : list Fees.level)
    : result (option (Q * Q * Q)) :=
  est_base_amount <- estimate_base_amount target_quote ask_side ;;
  match Fees.compute_vwap_for_amount "buy" ask_side est_base_amount,
        Fees.compute_vwap_for_amount "sell" bid_side est_base_amount with
  | Some (buy_avg, buy_filled), Some (sell_avg, sell_filled) =>
      Ok (Some (buy_avg, sell_avg, Qmin buy_filled sell_filled))
  | _, _ => Ok None
  end.

Definition is_nil {A : Type} (l : list A) : bool :=
  match l with [] => true | _ => false end.

Section Scan.
Variable settings : Settings.
Variables ex_a ex_b : Client.exchange.
(** [idx_a], [idx_b]: the markets by symbol; [books_a], [books_b]: the
    dictionaries [_fetch_orderbooks_for_symbols] returned, [None] for a
    symbol whose fetch gave no value (or an empty book object). *)
Variables idx_a idx_b : gmap string Client.market.
Variables books_a books_b : gmap string (option Client.order_book).

(** [if base not in network_fee_cache: ...] followed by the read
    [network_fee_cache[base]]. *)
Definition cached_network_fee (dir : direction) (base : string)
    (st : scan_state) : result ((option string * Q) * scan_state) :=
  match network_fee_cache st !! base with
  | Some entry => Ok (entry, st)
  | None =>
      net <- match dir with
             | AtoB => Client.find_cheapest_common_network_fee
                         (Client.currency_fees ex_a)
                         (Client.currency_fees ex_b) base
             | BtoA => Client.find_cheapest_common_network_fee
                         (Client.currency_fees ex_b)
                         (Client.currency_fees ex_a) base
             end ;;
      let entry := match net with
                   | Some (name, fee) => (Some name, fee)
                   | None => (None, 0)
                   end in
      Ok (entry,
          MkState (<[base := entry]> (network_fee_cache st))
                  (opportunities st)
                  (lookups st ++ [(dir, base)])
                  (evaluations st))
  end.

(** The profit of one direction and [if profit >= min_profit_pct:
    opportunities.append(Opportunity(...))]. *)
Definition evaluate (sym base : string) (dir : direction)
    (buy_id sell_id : string) (buy_avg sell_avg amount : Q)
    (taker_buy taker_sell : Q) (entry : option string * Q)
    (st : scan_state) : scan_state :=
  let '(network_name, withdraw_fee_base) := entry in
  let profit :=
    Fees.estimate_fee_aware_profit_pct
      buy_avg sell_avg amount taker_buy taker_sell withdraw_fee_base in
  MkState (network_fee_cache st)
    (if Qle_bool (min_profit_pct settings) profit
     then opportunities st ++
            [MkOpportunity sym buy_id sell_id profit amount
               buy_avg sell_avg network_name]
     else opportunities st)
    (lookups st)
    (evaluations st ++
       [MkEvaluation sym base dir buy_avg sell_avg amount
          taker_buy taker_sell withdraw_fee_base network_name profit]).

(** The part of the loop body after the forward direction. *)
Definition scan_reverse (sym base : string) (taker_a taker_b : Q)
    (ob_a ob_b : Client.order_book) (st : scan_state) : result scan_state :=
  let target_quote := min_notional_usd settings in
  let best_ask_b := Client.asks ob_b in
  let best_bid_a := Client.bids ob_a in
  if is_nil best_ask_b || is_nil best_bid_a then Ok st
  else
    leg <- vwap_leg target_quote best_ask_b best_bid_a ;;
    match leg with
    | None => Ok st
    | Some (buy_avg_b, sell_avg_a, base_amount_b) =>
        hit <- cached_network_fee BtoA base st ;;
        let '(entry, st) := hit in
        Ok (evaluate sym base BtoA (Client.id ex_b) (Client.id ex_a)
              buy_avg_b sell_avg_a base_amount_b taker_b taker_a entry st)
    end.

(** The body of [for sym in symbols]; every [continue] hands back the
    state as it is. *)
Definition scan_symbol (sym : string) (st : scan_state) : result scan_state :=
  match mjoin (books_a !! sym), mjoin (books_b !! sym) with
  | Some ob_a, Some ob_b =>
      match split "/" sym with
      | [base; quote] =>
          let quotes : gset string :=
            list_to_set (upper <$> preferred_quotes settings) in
          if negb (bool_decide (upper quote ∈ quotes)) then Ok st
          else
            m_a <- match idx_a !! sym with
                   | Some m => Ok m
                   | None => Raise (KeyError sym)
                   end ;;
            let taker_a :=
              Client.get_taker_fee_for_market (Client.id ex_a) m_a in
            m_b <- match idx_b !! sym with
                   | Some m => Ok m
                   | None => Raise (KeyError sym)
                   end ;;
            let taker_b :=
              Client.get_taker_fee_for_market (Client.id ex_b) m_b in
            let best_ask := Client.asks ob_a in
            let best_bid := Client.bids ob_b in
            if is_nil best_ask || is_nil best_bid then Ok st
            else
              let target_quote := min_notional_usd settings in
              leg <- vwap_leg target_quote best_ask best_bid ;;
              match leg with
              | None => Ok st
              | Some (buy_avg, sell_avg, base_amount) =>
                  if Qle_bool base_amount 0 then Ok st
                  else
                    hit <- cached_network_fee AtoB base st ;;
                    let '(entry, st) := hit in
                    let st :=
                      evaluate sym base AtoB (Client.id ex_a) (Client.id ex_b)
                        buy_avg sell_avg base_amount taker_a taker_b entry st in
                    scan_reverse sym base taker_a taker_b ob_a ob_b st
              end
      | _ => Raise (ValueError "not enough or too many values to unpack")
      end
  | _, _ => Ok st
  end.

Fixpoint scan_loop (symbols : list string) (st : scan_state)
    : result scan_state :=
  match symbols with
  | [] => Ok st
  | sym :: rest =>
      st' <- scan_symbol sym st ;;
      scan_loop rest st'
  end.
End Scan.

(** [key=lambda o: o.profit_pct, reverse=True] *)
Definition by_profit_desc (o1 o2 : Opportunity) : bool :=
  Qle_bool (profit_pct o2) (profit_pct o1).

(** The scan from the loaded markets and fetched books on; the state it
    ends in, before the sort. *)
Definition scan_run (settings : Settings) (ex_a ex_b : Client.exchange)
    (markets_a markets_b : list Client.market)
    (books_a books_b : gmap string (option Client.order_book))
    : result scan_state :=
  symbols <- Client.find_common_symbols markets_a markets_b
               (Some (preferred_quotes settings)) ;;
  if is_nil symbols then Ok initial_state
  else
    let idx_a := index_markets markets_a in
    let idx_b := index_markets markets_b in
    scan_loop settings ex_a ex_b idx_a idx_b books_a books_b
      symbols initial_state.

(** [scan_two_exchanges]: the sorted opportunities.  The report table and
    the notifications that follow the sort do not change the list that is
    returned (failures of [notifier.send] are swallowed), and closing the
    clients happens in [finally]. *)
Definition scan_two_exchanges (settings : Settings)
    (ex_a ex_b : Client.exchange)
    (markets_a markets_b : list Client.market)
    (books_a books_b : gmap string (option Client.order_book))
    : result (list Opportunity) :=
  st <- scan_run settings ex_a ex_b markets_a markets_b books_a books_b ;;
  Ok (sort by_profit_desc (opportunities st)).

End Scanner.

(* ===================================================================== *)
(** ** Notions used to state the properties *)
(* ===================================================================== *)

Module Spec.
Import Py.

(** *** The VWAP walk as the specification words it *)

Section Vwap.
Import Fees.

(** A level counts when it has at least two numeric fields and both price
    and amount are positive. *)
Definition valid_level (lv : level) : option (Q * Q) :=
  match lv with
  | Num price :: Num amount :: _ =>
      if Qlt_le_dec 0 price then
        if Qlt_le_dec 0 amount then Some (price, amount) else None
      else None
  | _ => None
  end.

Definition valid_levels (levels : list level) : list (Q * Q) :=
  omap valid_level levels.

(** [take_i = min(remaining, level_amount_i)], level by level, stopping
    once the remainder is within the fill tolerance. *)
Fixpoint takes (rem : Q) (vl : list (Q * Q)) : list (Q * Q) :=
  match vl with
  | [] => []
  | (price, amount) :: rest =>
      let take := Qmin rem amount in
      (take, price) ::
        (if Qlt_le_dec fill_tol (rem - take) then takes (rem - take) rest else [])
  end.

Definition sum_quote (ts : list (Q * Q)) : Q :=
  fold_right (fun tp acc => fst tp * snd tp + acc) 0 ts.

Definition sum_filled (ts : list (Q * Q)) : Q :=
  fold_right (fun tp acc => fst tp + acc) 0 ts.

Definition depth (vl : list (Q * Q)) : Q :=
  fold_right (fun pa acc => snd pa + acc) 0 vl.

Definition vwap_spec (levels : list level) (amount_base : Q) : option (Q * Q) :=
  if Qlt_le_dec 0 amount_base then
    let ts := takes amount_base (valid_levels levels) in
    if Qlt_le_dec 0 (sum_filled ts)
    then Some (sum_quote ts / sum_filled ts, sum_filled ts)
    else None
  else None.

(** Results are compared up to the value of the rationals. *)
Definition vwap_equiv (r1 r2 : option (Q * Q)) : Prop :=
  match r1, r2 with
  | None, None => True
  | Some (p1, f1), Some (p2, f2) => p1 == p2 /\ f1 == f2
  | _, _ => False
  end.

End Vwap.

(** *** Order-book fetch *)

Section Fetch.
Import Client.

(** The first book among the answers to a sequence of attempts. *)
Fixpoint first_success (answers : list (result order_book)) : option order_book :=
  match answers with
  | [] => None
  | Ok ob :: _ => Some ob
  | Raise _ :: rest => first_success rest
  end.

(** The answers the exchange gives to the fallback attempts, sent as
    requests [n], [n+1], ... *)
Fixpoint fallback_answers (ex : exchange) (n : nat) (symbol : string)
    (cands : list (option Z)) : list (result order_book) :=
  match cands with
  | [] => []
  | cand :: rest =>
      fetch_order_book ex n symbol cand :: fallback_answers ex (S n) symbol rest
  end.

End Fetch.

(** *** Common symbols *)

Section Symbols.
Import Client.

(** Whether a string contains the separator ["/"]. *)
Fixpoint has_slash (s : string) : bool :=
  match s with
  | EmptyString => false
  | String c s' => Ascii.eqb c "/" || has_slash s'
  end.

(** The pairs the specification keeps: on an active market of both lists
    and, when preferred quotes are given, with a quote that is one of them
    up to case. *)
Definition qualifies (markets_a markets_b : list market)
    (preferred_quotes : option (list string)) (bq : string * string) : Prop :=
  (exists m, m ∈ markets_a /\ is_active m = true /\ (base m, quote m) = bq) /\
  (exists m, m ∈ markets_b /\ is_active m = true /\ (base m, quote m) = bq) /\
  (truthy preferred_quotes = true ->
   exists p, p ∈ default [] preferred_quotes /\ upper p = upper bq.2).

(** The result the specification describes: the renderings of exactly the
    qualifying pairs, in ascending order. *)
Definition common_symbols_spec (markets_a markets_b : list market)
    (preferred_quotes : option (list string)) (symbols : list string) : Prop :=
  (exists pairs : list (string * string),
     NoDup pairs /\
     (forall bq, bq ∈ pairs <-> qualifies markets_a markets_b preferred_quotes bq) /\
     symbols ≡ₚ render <$> pairs) /\
  Sorted (fun s1 s2 => String.leb s1 s2 = true) symbols.

End Symbols.

(** *** The scan *)

Section ScanNotions.
Import Scanner.
Variable settings : Settings.
Variables ex_a ex_b : Client.exchange.

(** What a cache entry is made of from the answer of the lookup. *)
Definition entry_of (net : option (string * Q)) : option string * Q :=
  match net with
  | Some (name, fee) => (Some name, fee)
  | None => (None, 0)
  end.

(** The lookup the scan performs for a direction. *)
Definition lookup_for (dir : direction) (base : string)
    : result (option (string * Q)) :=
  match dir with
  | AtoB => Client.find_cheapest_common_network_fee
              (Client.currency_fees ex_a) (Client.currency_fees ex_b) base
  | BtoA => Client.find_cheapest_common_network_fee
              (Client.currency_fees ex_b) (Client.currency_fees ex_a) base
  end.

(** The opportunity built from a profit evaluation. *)
Definition opportunity_of (e : evaluation) : Opportunity :=
  MkOpportunity (ev_symbol e)
    (match ev_direction e with
     | AtoB => Client.id ex_a | BtoA => Client.id ex_b end)
    (match ev_direction e with
     | AtoB => Client.id ex_b | BtoA => Client.id ex_a end)
    (ev_profit e) (ev_base_amount e) (ev_buy_price e) (ev_sell_price e)
    (ev_network e).

(** The evaluation reaches the configured minimum profit. *)
Definition clears (e : evaluation) : Prop :=
  min_profit_pct settings <= ev_profit e.

#[global] Instance clears_dec e : Decision (clears e) :=
  match Qlt_le_dec (ev_profit e) (min_profit_pct settings) with
  | left Hlt => right (Qlt_not_le _ _ Hlt)
  | right Hle => left Hle
  end.

(** What holds of the state of the scan between two symbols. *)
Record scan_inv (st : scan_state) : Prop := ScanInv
  { inv_opps :
      opportunities st = opportunity_of <$> filter clears (evaluations st);
    inv_profit :
      Forall (fun e =>
                ev_profit e =
                Fees.estimate_fee_aware_profit_pct
                  (ev_buy_price e) (ev_sell_price e) (ev_base_amount e)
                  (ev_taker_buy e) (ev_taker_sell e) (ev_withdraw_fee e))
        (evaluations st);
    inv_lookups_fwd : Forall (fun c => c.1 = AtoB) (lookups st);
    inv_lookups_nodup : NoDup (lookups st).*2;
    inv_lookups_dom :
      forall b, b ∈ (lookups st).*2 <-> is_Some (network_fee_cache st !! b);
    inv_cache_fwd :
      forall b entry, network_fee_cache st !! b = Some entry ->
        exists net, lookup_for AtoB b = Ok net /\ entry = entry_of net;
    inv_eval_cache :
      Forall (fun e =>
                network_fee_cache st !! ev_base e
                = Some (ev_network e, ev_withdraw_fee e))
        (evaluations st);
    inv_eval_base :
      Forall (fun e => exists quote,
                split "/" (ev_symbol e) = [ev_base e; quote])
        (evaluations st) }.

End ScanNotions.

Section Shape.
Import Scanner.

(** What was evaluated: symbol, direction, prices and amount. *)
Definition ev_key (e : evaluation) : string * direction * Q * Q * Q :=
  (ev_symbol e, ev_direction e, ev_buy_price e, ev_sell_price e,
   ev_base_amount e).

(** Two states of the scan with the same cached assets and the same
    evaluations, whatever the fees. *)
Definition same_shape (st st' : scan_state) : Prop :=
  dom (network_fee_cache st) = dom (network_fee_cache st') /\
  ev_key <$> evaluations st = ev_key <$> evaluations st'.

Definition same_outcome (r r' : result scan_state) : Prop :=
  match r, r' with
  | Ok st, Ok st' => same_shape st st'
  | Raise e, Raise e' => e = e'
  | _, _ => False
  end.

End Shape.

End Spec.

(* ===================================================================== *)
(** ** A small scan, used to exercise the statements *)
(* ===================================================================== *)

Module Example.
Import Py.

(** [json.dumps] and [json.loads] on booleans. *)
Definition dumps_bool (b : bool) : string := if b then "true" else "false".

Definition loads_bool (s : string) : result bool :=
  if String.eqb s "true" then Ok true
  else if String.eqb s "false" then Ok false
  else Raise (Exn "JSONDecodeError" s).

Definition unreachable : nat -> string -> option Z -> result Client.order_book :=
  fun _ _ _ => Raise (Exn "NetworkError" "unreachable").

(** Two exchanges that share the BTC networks at different fees and no
    ETH network. *)
Definition binance : Client.exchange :=
  Client.Exchange "binance" unreachable
    {[ "BTC" := {[ "ERC20" := 5 # 10000; "TRC20" := 1 # 10000 ]};
       "ETH" := {[ "ERC20" := 1 # 100 ]} ]}.

Definition kucoin : Client.exchange :=
  Client.Exchange "kucoin" unreachable
    {[ "BTC" := {[ "ERC20" := 1 # 10000; "TRC20" := 3 # 10000 ]};
       "ETH" := {[ "ARBITRUM" := 1 # 1000 ]} ]}.

Definition spot (b q : string) : Client.market :=
  Client.Market (String.append b (String "/" q)) b q (Some (1 # 1000)) (Some true).

Definition markets : list Client.market :=
  [spot "BTC" "USDT"; spot "ETH" "USDT"].

Definition settings : Scanner.Settings :=
  Scanner.MkSettings (1 # 2) 100 ["USDT"; "USDC"].

Definition book (ask bid : Q) : option Client.order_book :=
  Some (Client.OrderBook [[Fees.Num ask; Fees.Num 10]]
                         [[Fees.Num bid; Fees.Num 10]]).

Definition books_binance : gmap string (option Client.order_book) :=
  {[ "BTC/USDT" := book 100 99; "ETH/USDT" := book 50 49 ]}.

Definition books_kucoin : gmap string (option Client.order_book) :=
  {[ "BTC/USDT" := book 111 110; "ETH/USDT" := book 40 39 ]}.

Definition final_state : Scanner.scan_state :=
  Eval vm_compute in
    match Scanner.scan_run settings binance kucoin markets markets
            books_binance books_kucoin with
    | Ok st => st
    | Raise _ => Scanner.initial_state
    end.

(** The last profit evaluation of the scan: ETH/USDT, bought on the second
    exchange and sold on the first. *)
Definition last_evaluation : Scanner.evaluation :=
  Eval vm_compute in
    List.last (Scanner.evaluations final_state)
      (Scanner.MkEvaluation "" "" Scanner.AtoB 0 0 0 0 0 0 None 0).

Definition found : list Scanner.Opportunity :=
  Eval vm_compute in
    match Scanner.scan_two_exchanges settings binance kucoin markets markets
            books_binance books_kucoin with
    | Ok opps => opps
    | Raise _ => []
    end.

End Example.

(* ===================================================================== *)
(** ** arbitrage/utils.py *)
(* ===================================================================== *)

Module Utils.

(** The loop of [chunked]: [chunk] is the chunk being filled, [out] the
    chunks already closed.  [chunk_size] is any integer. *)
Fixpoint chunked_loop {A : Type} (items : list A) (chunk_size : Z)
    (chunk : list A) (out : list (list A)) : list (list A) :=
  match items with
  | [] => match chunk with
          | [] => out
          | _ :: _ => out ++ [chunk]
          end
  | item :: rest =>
      let chunk := chunk ++ [item] in
      if (chunk_size <=? Z.of_nat (length chunk))%Z
      then chunked_loop rest chunk_size [] (out ++ [chunk])
      else chunked_loop rest chunk_size chunk out
  end.

Definition chunked {A : Type} (items : list A) (chunk_size : Z)
    : list (list A) :=
  chunked_loop items chunk_size [] [].

End Utils.

(* ===================================================================== *)
(** ** Market loading and currency fees
       (arbitrage/cache.py, arbitrage/exchanges/ccxt_client.py) *)
(* ===================================================================== *)

Module Markets.
Import Py.
Local Open Scope py_scope.

(** *** [MarketCache] *)

Section MarketCache.
Variable dumps : list Client.market -> string.
Variable loads : string -> result (list Client.market).

(** [f"markets:{exchange_id}"] *)
Definition market_key (exchange_id : string) : string :=
  String.append "markets:" exchange_id.

Definition load_cached_markets (db : gmap string Cache.row) (now : Z)
    (exchange_id : string) (ttl_seconds : Z)
    : result (option (list Client.market)) :=
  Cache.get_json loads db now (market_key exchange_id) (Some ttl_seconds).

Definition save_markets (db : gmap string Cache.row) (now : Z)
    (exchange_id : string) (markets : list Client.market)
    : gmap string Cache.row :=
  Cache.set_json dumps db now (market_key exchange_id) markets.
End MarketCache.

(** *** [load_all_markets] *)

(** An entry of a dictionary of the exchange library read with [.get]:
    missing, present with [None], or present with a value. *)
Inductive field (A : Type) : Type :=
| Absent
| Null
| Val (a : A).
Arguments Absent {A}.
Arguments Null {A}.
Arguments Val {A} a.

(** A market as [exchange.markets] holds it. *)
Record raw_market : Type := RawMarket
  { raw_symbol : string;
    raw_base : string;
    raw_quote : string;
    raw_spot : field bool;
    raw_active : field bool;
    raw_taker : field Q }.

(** [market.get("spot", True)] as a condition. *)
Definition spot_or_unspecified (m : raw_market) : bool :=
  match raw_spot m with
  | Absent => true
  | Null => false
  | Val b => b
  end.

(** [market.get("active") is False] *)
Definition explicitly_inactive (m : raw_market) : bool :=
  match raw_active m with
  | Val false => true
  | _ => false
  end.

(** [bool(market.get("active", True))] *)
Definition active_flag (m : raw_market) : bool :=
  match raw_active m with
  | Absent => true
  | Null => false
  | Val b => b
  end.

(** [exchange.fees.get("trading", {}).get("taker", 0.001)] under
    [float(...)]: [fallback] is the exchange's own taker entry. *)
Definition exchange_taker (fallback : field Q) : result Q :=
  match fallback with
  | Absent => Ok (1 # 1000)
  | Null => Raise (TypeError "float() argument must be a string or a real number")
  | Val q => Ok q
  end.

(** [float(market.get("taker") or <exchange taker>)]: a missing, null or
    zero taker of the market gives way to the exchange's. *)
Definition market_taker (fallback : field Q) (m : raw_market) : result Q :=
  match raw_taker m with
  | Val q => if Qeq_bool q 0 then exchange_taker fallback else Ok q
  | _ => exchange_taker fallback
  end.

(** The loop over [exchange.markets.values()]. *)
Fixpoint normalize_markets (fallback : field Q) (raws : list raw_market)
    : result (list Client.market) :=
  match raws with
  | [] => Ok []
  | m :: rest =>
      if negb (spot_or_unspecified m) then normalize_markets fallback rest
      else if explicitly_inactive m then normalize_markets fallback rest
      else
        t <- market_taker fallback m ;;
        ms <- normalize_markets fallback rest ;;
        Ok (Client.Market (raw_symbol m) (raw_base m) (raw_quote m)
              (Some t) (Some (active_flag m)) :: ms)
  end.

Section Load.
Variable dumps : list Client.market -> string.
Variable loads : string -> result (list Client.market).

(** [load_all_markets]: [load_markets] is what [exchange.load_markets()]
    leaves in [exchange.markets] (or the exception it raises), [fallback]
    the exchange's taker entry, [t_read] and [t_write] the clock when the
    cache is read and when it is written.  Returns the markets and the
    store as it is afterwards. *)
Definition load_all_markets (ex : Client.exchange)
    (load_markets : result (list raw_market)) (fallback : field Q)
    (db : gmap string Cache.row) (t_read t_write : Z) (ttl_seconds : Z)
    : result (list Client.market * gmap string Cache.row) :=
  cached <- load_cached_markets loads db t_read (Client.id ex) ttl_seconds ;;
  match cached with
  | Some markets => Ok (markets, db)
  | None =>
      raws <- load_markets ;;
      markets <- normalize_markets fallback raws ;;
      Ok (markets, save_markets dumps db t_write (Client.id ex) markets)
  end.
End Load.

(** *** [_extract_currency_network_fees] *)

(** The data of one network of a currency: a dictionary with its
    [withdrawFee] and [fee] entries ([None] when missing or null), or
    something that is not a dictionary. *)
Inductive net_data : Type :=
| NetDict (withdrawFee fee : option Fees.cell)
| NetOther.

(** [data.get("networks")] of a currency, [None] when missing or null. *)
Record currency : Type := Currency
  { networks : option (list (string * net_data)) }.

(** The fee read for one network, [None] where the loop says [continue]. *)
Definition network_fee (nd : net_data) : option Q :=
  match nd with
  | NetDict w f =>
      let fee := match w with
                 | Some c => Some c
                 | None => f
                 end in
      match fee with
      | Some c => Fees.to_float c
      | None => None
      end
  | NetOther => None
  end.

Definition network_fees (nets : list (string * net_data)) : gmap string Q :=
  foldl (fun acc net =>
           match network_fee net.2 with
           | Some fee => <[net.1 := fee]> acc
           | None => acc
           end) ∅ nets.

(** [fetch_currencies]: what [exchange.fetch_currencies()] answers. *)
Definition _extract_currency_network_fees
    (fetch_currencies : result (option (list (string * currency))))
    : gmap string (gmap string Q) :=
  match fetch_currencies with
  | Raise _ => ∅
  | Ok currencies =>
      foldl (fun result cur =>
               let fees := network_fees (default [] (networks cur.2)) in
               if bool_decide (fees = ∅) then result
               else <[cur.1 := fees]> result)
        ∅ (default [] currencies)
  end.

End Markets.

(* ===================================================================== *)
(** ** arbitrage/config.py, arbitrage/cli.py *)
(* ===================================================================== *)

Module Config.
Import Py.

(** [s.replace(" ", "")] *)
Fixpoint remove_spaces (s : string) : string :=
  match s with
  | EmptyString => EmptyString
  | String c s' =>
      if Ascii.eqb c " " then remove_spaces s'
      else String c (remove_spaces s')
  end.

(** [os.getenv(name, fallback).replace(" ", "").split(",")]: [env] is the
    value of the variable, [None] when it is not set. *)
Definition name_list (env : option string) (fallback : string) : list string :=
  split "," (remove_spaces (default fallback env)).

End Config.

Module Cli.
Import Py.
Local Open Scope py_scope.

(** What [cmd_scan_simple] goes on to do: [sys.exit(code)], or the scan of
    the two exchanges. *)
Inductive outcome : Type :=
| Exit (code : Z)
| Scan (a b : string).

(** The truth value of an optional string: [None] and [""] are false. *)
Definition truthy (s : option string) : bool :=
  match s with
  | Some (String _ _) => true
  | _ => false
  end.

(** [cmd_scan_simple]: [arg_a], [arg_b] are [args.a], [args.b], and
    [exchanges] is [cfg.exchanges]. *)
Definition cmd_scan_simple (arg_a arg_b : option string)
    (exchanges : list string) : result outcome :=
  a <- (if truthy arg_a then Ok arg_a
        else match exchanges !! 0%nat with
             | Some e => Ok (Some e)
             | None => Raise IndexError
             end) ;;
  let b := if truthy arg_b then arg_b
           else if (1 <? length exchanges)%nat then exchanges !! 1%nat
           else None in
  if negb (truthy b) then Ok (Exit 1)
  else Ok (Scan (default "" a) (default "" b)).

End Cli.

(* ===================================================================== *)
(** ** Further notions for the properties *)
(* ===================================================================== *)

Module Props.
Import Py.

(** The size the chunks of [chunked] really have: [chunk_size], or 1 when
    it is smaller. *)
Definition chunk_width (chunk_size : Z) : nat := Z.to_nat (Z.max 1 chunk_size).

(** Whether the character occurs in the string. *)
Fixpoint occurs (c : ascii) (s : string) : bool :=
  match s with
  | EmptyString => false
  | String c' s' => Ascii.eqb c' c || occurs c s'
  end.

(** How often the character occurs in the string. *)
Fixpoint occurrences (c : ascii) (s : string) : nat :=
  match s with
  | EmptyString => 0
  | String c' s' => (if Ascii.eqb c' c then 1 else 0) + occurrences c s'
  end.

(** *** The scan *)

Section ScanTrace.
Import Scanner.

(** A profit evaluation with positive amount and prices and with taker
    rates within [0, 0.02]. *)
Definition sound_evaluation (e : evaluation) : Prop :=
  0 < ev_base_amount e /\ 0 < ev_buy_price e /\ 0 < ev_sell_price e /\
  (0 <= ev_taker_buy e /\ ev_taker_buy e <= 2 # 100) /\
  (0 <= ev_taker_sell e /\ ev_taker_sell e <= 2 # 100).

Definition evaluation_of (sym : string) (dir : direction) (e : evaluation)
    : Prop :=
  ev_symbol e = sym /\ ev_direction e = dir /\ sound_evaluation e.

(** The evaluations a scan of the symbols can leave, in order: per symbol
    none, the forward one, or the forward one followed by the reverse
    one. *)
Inductive scan_trace : list string -> list evaluation -> Prop :=
| trace_done : scan_trace [] []
| trace_skip sym syms evs :
    scan_trace syms evs -> scan_trace (sym :: syms) evs
| trace_forward sym syms f evs :
    evaluation_of sym AtoB f ->
    scan_trace syms evs -> scan_trace (sym :: syms) (f :: evs)
| trace_both sym syms f r evs :
    evaluation_of sym AtoB f -> evaluation_of sym BtoA r ->
    scan_trace syms evs -> scan_trace (sym :: syms) (f :: r :: evs).

(** The first ask of a side of a book, if there is one, starts with a
    number other than zero. *)
Definition priced_top (side : list Fees.level) : bool :=
  match side with
  | [] => true
  | [] :: _ => false
  | (Fees.Num p :: _) :: _ => negb (Qeq_bool p 0)
  | (Fees.NotNum :: _) :: _ => false
  end.

(** What the body of the loop needs of a symbol in order to return: the
    symbol has two parts, both exchanges list it, and the asks of its
    books are priced. *)
Definition scannable (idx_a idx_b : gmap string Client.market)
    (books_a books_b : gmap string (option Client.order_book))
    (sym : string) : Prop :=
  (exists base quote, split "/" sym = [base; quote]) /\
  is_Some (idx_a !! sym) /\ is_Some (idx_b !! sym) /\
  (forall ob, books_a !! sym = Some (Some ob) ->
     priced_top (Client.asks ob) = true) /\
  (forall ob, books_b !! sym = Some (Some ob) ->
     priced_top (Client.asks ob) = true).

(** Every book that was fetched has priced asks. *)
Definition priced_books (books : gmap string (option Client.order_book))
    : Prop :=
  map_Forall (fun _ fetched =>
                match fetched with
                | Some ob => priced_top (Client.asks ob) = true
                | None => True
                end) books.

(** A market as [load_all_markets] builds it from well-formed exchange
    data: its symbol is its base and quote joined by a slash, and neither
    of them contains one. *)
Definition plain_market (m : Client.market) : Prop :=
  Client.symbol m = Client.render (Client.base m, Client.quote m) /\
  Spec.has_slash (Client.base m) = false /\
  Spec.has_slash (Client.quote m) = false.

(** The symbol renders the base and quote of an active market of both
    lists. *)
Definition listed_on_both (markets_a markets_b : list Client.market)
    (sym : string) : Prop :=
  exists m_a m_b,
    m_a ∈ markets_a /\ Client.is_active m_a = true /\
    m_b ∈ markets_b /\ Client.is_active m_b = true /\
    (Client.base m_b, Client.quote m_b) = (Client.base m_a, Client.quote m_a) /\
    sym = Client.render (Client.base m_a, Client.quote m_a).

End ScanTrace.

End Props.

(* ===================================================================== *)
(** ** Further data on which the statements are exercised *)
(* ===================================================================== *)

Module Cases.
Import Py.
Local Open Scope py_scope.

(** A codec for lists of spot markets that carry the default taker rate:
    the symbols, separated by commas. *)
Definition dumps_markets (markets : list Client.market) : string :=
  String.concat "," (Client.symbol <$> markets).

Fixpoint loads_symbols (symbols : list string) : result (list Client.market) :=
  match symbols with
  | [] => Ok []
  | sym :: rest =>
      match split "/" sym with
      | [b; q] => ms <- loads_symbols rest ;; Ok (Example.spot b q :: ms)
      | _ => Raise (Exn "JSONDecodeError" sym)
      end
  end.

Definition loads_markets (s : string) : result (list Client.market) :=
  if String.eqb s "" then Ok [] else loads_symbols (split "," s).

(** What an exchange lists: two spot markets, a swap, and a market that is
    switched off. *)
Definition raws : list Markets.raw_market :=
  [ Markets.RawMarket "BTC/USDT" "BTC" "USDT" Markets.Absent
      (Markets.Val true) (Markets.Val (1 # 1000));
    Markets.RawMarket "BTC/USDT:USDT" "BTC" "USDT" (Markets.Val false)
      (Markets.Val true) (Markets.Val (1 # 1000));
    Markets.RawMarket "ETH/USDT" "ETH" "USDT" (Markets.Val true)
      Markets.Absent Markets.Null;
    Markets.RawMarket "LUNA/USDT" "LUNA" "USDT" (Markets.Val true)
      (Markets.Val false) Markets.Absent ].

Definition loaded : list Client.market * gmap string Cache.row :=
  Eval vm_compute in
    match Markets.load_all_markets dumps_markets loads_markets Example.binance
            (Ok raws) Markets.Absent ∅ 1000 1001 86400 with
    | Ok r => r
    | Raise _ => ([], ∅)
    end.

(** An exchange that cannot be reached for its first four requests, and
    one that could not hand out its currencies. *)
Definition recovering : Client.exchange :=
  Client.Exchange "binance"
    (fun n sym lim =>
       if (n <? 4)%nat then Example.unreachable n sym lim
       else Ok (Client.OrderBook [[Fees.Num 100; Fees.Num 10]]
                                 [[Fees.Num 99; Fees.Num 10]]))
    (Client.currency_fees Example.binance).

Definition offline : Client.exchange :=
  Client.Exchange "binance" Example.unreachable
    (Markets._extract_currency_network_fees
       (Raise (Exn "NetworkError" "unreachable"))).

Definition offline_state : Scanner.scan_state :=
  Eval vm_compute in
    match Scanner.scan_run Example.settings offline Example.kucoin
            Example.markets Example.markets
            Example.books_binance Example.books_kucoin with
    | Ok st => st
    | Raise _ => Scanner.initial_state
    end.

End Cases.

(* ===================================================================== *)
(** * Properties *)
(* ===================================================================== *)

(** ** VWAP and fee-aware profit *)

Section FeesFacts.
Import Fees Spec.

Lemma valid_level_sound lv price amount :
  valid_level lv = Some (price, amount) ->
  0 < price /\ 0 < amount /\
  exists tl, lv = Num price :: Num amount :: tl.
Proof.
  destruct lv as [|[p|] [|[a|] tl]]; simpl; try discriminate.
  destruct (Qlt_le_dec 0 p); try discriminate.
  destruct (Qlt_le_dec 0 a); try discriminate.
  intros [= <- <-]. eauto.
Qed.

Lemma vwap_loop_skip lv rest st :
  valid_level lv = None ->
  vwap_loop (lv :: rest) st = vwap_loop rest st.
Proof.
  destruct lv as [|[p|] [|[a|] tl]]; simpl; try reflexivity.
  destruct (Qlt_le_dec 0 p) as [Hp|Hp].
  - destruct (Qlt_le_dec 0 a) as [Ha|Ha]; try discriminate.
    intros _. apply Qle_bool_iff in Ha. now rewrite Ha.
  - intros _. apply Qle_bool_iff in Hp. rewrite Hp.
    now rewrite orb_true_r.
Qed.

Lemma vwap_loop_take lv price amount rest st :
  valid_level lv = Some (price, amount) ->
  vwap_loop (lv :: rest) st =
    let take := Qmin (remaining st) amount in
    let st' := mkFill (remaining st - take)
                 (total_quote st + take * price) (filled st + take) in
    if Qlt_le_dec fill_tol (remaining st - take)
    then vwap_loop rest st' else st'.
Proof.
  intros Hv. destruct (valid_level_sound _ _ _ Hv) as (Hp & Ha & tl & ->).
  cbn [vwap_loop to_float].
  assert (Qle_bool amount 0 = false) as ->.
  { destruct (Qle_bool amount 0) eqn:E; [|reflexivity].
    apply Qle_bool_iff in E. lra. }
  assert (Qle_bool price 0 = false) as ->.
  { destruct (Qle_bool price 0) eqn:E; [|reflexivity].
    apply Qle_bool_iff in E. lra. }
  cbn [orb remaining total_quote filled].
  destruct (Qlt_le_dec fill_tol _) as [H|H].
  - destruct (Qle_bool _ fill_tol) eqn:E; [|reflexivity].
    apply Qle_bool_iff in E. lra.
  - apply Qle_bool_iff in H. now rewrite H.
Qed.

Lemma sum_filled_cons t p ts : sum_filled ((t, p) :: ts) = t + sum_filled ts.
Proof. reflexivity. Qed.

Lemma sum_quote_cons t p ts : sum_quote ((t, p) :: ts) = t * p + sum_quote ts.
Proof. reflexivity. Qed.

Lemma depth_cons p a vl : depth ((p, a) :: vl) = a + depth vl.
Proof. reflexivity. Qed.

(** The loop computes exactly the sums over the specification's takes. *)
Lemma vwap_loop_takes levels : forall st,
  let ts := takes (remaining st) (valid_levels levels) in
  remaining (vwap_loop levels st) == remaining st - sum_filled ts /\
  total_quote (vwap_loop levels st) == total_quote st + sum_quote ts /\
  filled (vwap_loop levels st) == filled st + sum_filled ts.
Proof.
  induction levels as [|lv rest IH]; intros st.
  - cbn. repeat split; lra.
  - unfold valid_levels. cbn [omap list_omap].
    destruct (valid_level lv) as [[price amount]|] eqn:Hv.
    + rewrite (vwap_loop_take _ _ _ _ _ Hv). cbn zeta.
      cbn [takes option_bind mbind].
      destruct (Qlt_le_dec fill_tol _) as [H|H].
      * specialize (IH (mkFill (remaining st - Qmin (remaining st) amount)
                          (total_quote st + Qmin (remaining st) amount * price)
                          (filled st + Qmin (remaining st) amount))).
        cbn [remaining total_quote filled] in IH.
        destruct IH as (I1 & I2 & I3).
        fold (valid_levels rest).
        rewrite I1, I2, I3, sum_filled_cons, sum_quote_cons.
        repeat split; lra.
      * rewrite sum_filled_cons, sum_quote_cons.
        cbn [remaining total_quote filled sum_filled sum_quote fold_right].
        repeat split; lra.
    + rewrite (vwap_loop_skip _ _ _ Hv). apply IH.
Qed.

Lemma valid_levels_positive levels :
  Forall (fun pa => 0 < fst pa /\ 0 < snd pa) (valid_levels levels).
Proof.
  induction levels as [|lv rest IH]; [constructor|].
  unfold valid_levels. cbn [omap list_omap].
  destruct (valid_level lv) as [[price amount]|] eqn:Hv; [|exact IH].
  destruct (valid_level_sound _ _ _ Hv) as (Hp & Ha & _).
  constructor; [split; assumption | exact IH].
Qed.

Lemma fill_tol_pos : 0 < fill_tol.
Proof. reflexivity. Qed.

Lemma depth_nonneg vl :
  Forall (fun pa => 0 < fst pa /\ 0 < snd pa) vl -> 0 <= depth vl.
Proof.
  induction 1 as [|[p a] r [_ Ha] _ IH]; [cbn; lra|].
  rewrite depth_cons. cbn [snd] in Ha. lra.
Qed.

(** Every take is positive, and the takes exceed neither the request nor
    the depth on offer. *)
Lemma takes_bounds vl : forall rem,
  0 < rem ->
  Forall (fun pa => 0 < fst pa /\ 0 < snd pa) vl ->
  0 <= sum_filled (takes rem vl) /\
  sum_filled (takes rem vl) <= rem /\
  sum_filled (takes rem vl) <= depth vl /\
  0 <= sum_quote (takes rem vl) /\
  (vl <> [] -> 0 < sum_filled (takes rem vl) /\ 0 < sum_quote (takes rem vl)).
Proof.
  induction vl as [|[price amount] rest IH]; intros rem Hrem Hall.
  - change (takes rem []) with (@nil (Q * Q)).
    change (sum_filled []) with 0. change (sum_quote []) with 0.
    change (depth []) with 0.
    repeat split; try lra; congruence.
  - inversion Hall as [|? ? [Hp Ha] Hrest]; subst. cbn [fst snd] in Hp, Ha.
    cbn [takes]. rewrite sum_filled_cons, sum_quote_cons, depth_cons.
    pose proof (Q.le_min_l rem amount) as Hl.
    pose proof (Q.le_min_r rem amount) as Hr.
    assert (0 < Qmin rem amount) as Ht by (apply Q.min_glb_lt; assumption).
    assert (0 < Qmin rem amount * price) as Htp
      by (apply Qmult_lt_0_compat; assumption).
    destruct (Qlt_le_dec fill_tol (rem - Qmin rem amount)) as [H|H].
    + pose proof fill_tol_pos as Htol.
      destruct (IH (rem - Qmin rem amount)) as (B1 & B2 & B3 & B4 & _);
        [lra | assumption |].
      repeat split; try lra.
    + pose proof (depth_nonneg _ Hrest) as Hd.
      change (sum_filled []) with 0. change (sum_quote []) with 0.
      repeat split; try lra.
Qed.

(** Up to the fill tolerance, the walk fills the smaller of the request
    and the depth on offer. *)
Lemma takes_within_tolerance vl : forall rem,
  0 < rem ->
  Forall (fun pa => 0 < fst pa /\ 0 < snd pa) vl ->
  sum_filled (takes rem vl) <= Qmin rem (depth vl) /\
  Qmin rem (depth vl) <= sum_filled (takes rem vl) + fill_tol.
Proof.
  pose proof fill_tol_pos as Htol.
  induction vl as [|[price amount] rest IH]; intros rem Hrem Hall.
  - change (takes rem []) with (@nil (Q * Q)).
    change (sum_filled []) with 0. change (depth []) with 0.
    destruct (Q.min_spec rem 0) as [[? E]|[? E]]; rewrite E; lra.
  - inversion Hall as [|? ? [Hp Ha] Hrest]; subst. cbn [fst snd] in Hp, Ha.
    pose proof (depth_nonneg _ Hrest) as Hd.
    cbn [takes]. rewrite sum_filled_cons, depth_cons.
    pose proof (Q.min_spec rem amount) as Hm.
    pose proof (Q.min_spec rem (amount + depth rest)) as Hm2.
    set (m := Qmin rem amount) in *.
    set (m2 := Qmin rem (amount + depth rest)) in *.
    destruct (Qlt_le_dec fill_tol (rem - m)) as [H|H].
    + destruct (IH (rem - m)) as [I1 I2]; [lra | assumption |].
      pose proof (Q.min_spec (rem - m) (depth rest)) as Hm1.
      set (m1 := Qmin (rem - m) (depth rest)) in *.
      destruct Hm as [[? E]|[? E]], Hm1 as [[? E1]|[? E1]],
               Hm2 as [[? E2]|[? E2]]; lra.
    + change (sum_filled []) with 0.
      destruct Hm as [[? E]|[? E]], Hm2 as [[? E2]|[? E2]]; lra.
Qed.

Lemma takes_nothing_filled levels amount_base :
  0 < amount_base ->
  (sum_filled (takes amount_base (valid_levels levels)) == 0 <->
   valid_levels levels = []).
Proof.
  intros Hpos. split.
  - intros Hz. destruct (valid_levels levels) as [|pa vl] eqn:E; [reflexivity|].
    pose proof (valid_levels_positive levels) as Hall. rewrite E in Hall.
    destruct (takes_bounds _ _ Hpos Hall) as (_ & _ & _ & _ & Hne).
    destruct Hne as [Hf _]; [congruence | lra].
  - intros ->. reflexivity.
Qed.

Lemma compute_vwap_refines (side : string) levels amount_base :
  vwap_equiv (compute_vwap_for_amount side levels amount_base)
             (vwap_spec levels amount_base).
Proof.
  unfold compute_vwap_for_amount, vwap_spec.
  destruct (Qlt_le_dec 0 amount_base) as [Hpos|Hneg].
  - assert (Qle_bool amount_base 0 = false) as ->.
    { destruct (Qle_bool amount_base 0) eqn:E; [|reflexivity].
      apply Qle_bool_iff in E. lra. }
    destruct (vwap_loop_takes levels (mkFill amount_base 0 0)) as (_ & Hq & Hf).
    cbn [remaining total_quote filled] in Hq, Hf. cbn zeta.
    set (st := vwap_loop levels _) in *.
    set (ts := takes amount_base (valid_levels levels)) in *.
    destruct (Qlt_le_dec 0 (sum_filled ts)) as [H|H].
    + destruct (Qle_bool (filled st) 0) eqn:E.
      * apply Qle_bool_iff in E. lra.
      * cbn. split; [|lra]. rewrite Hq, Hf, !Qplus_0_l. reflexivity.
    + assert (Qle_bool (filled st) 0 = true) as ->
        by (apply Qle_bool_iff; lra).
      exact I.
  - apply Qle_bool_iff in Hneg. rewrite Hneg. exact I.
Qed.

(** C1. [compute_vwap_for_amount] walks the levels in order, skips the
    malformed and the non-positive ones, takes [min(remaining, amount)]
    from each level it walks (up to the fill tolerance), and answers with
    no value exactly when the request is not positive or nothing was
    filled, which for a positive request means that no level is valid;
    otherwise it answers [(total_quote / filled, filled)], where [filled]
    is, up to the fill tolerance, the smaller of the request and the depth
    of the valid levels.  On asks
    [[100,1],[101,2]] and a request of 1.5 it fills 1.5 at
    [(1*100 + 0.5*101)/1.5]; on a book of depth 1 and a request of 5 it
    fills only 1. *)
Theorem compute_vwap_for_amount_spec (side : string) levels amount_base :
  vwap_equiv (compute_vwap_for_amount side levels amount_base)
             (vwap_spec levels amount_base) /\
  (compute_vwap_for_amount side levels amount_base = None <->
   amount_base <= 0 \/
   sum_filled (takes amount_base (valid_levels levels)) == 0) /\
  (0 < amount_base ->
   (compute_vwap_for_amount side levels amount_base = None <->
    valid_levels levels = [])) /\
  (forall avg_price fill_amount,
     compute_vwap_for_amount side levels amount_base
       = Some (avg_price, fill_amount) ->
     fill_amount <= Qmin amount_base (depth (valid_levels levels)) /\
     Qmin amount_base (depth (valid_levels levels)) <= fill_amount + fill_tol) /\
  vwap_equiv
    (compute_vwap_for_amount "buy"
       [[Num 100; Num 1]; [Num 101; Num 2]] (3 # 2))
    (Some ((1 * 100 + (1 # 2) * 101) / (3 # 2), 3 # 2)) /\
  vwap_equiv
    (compute_vwap_for_amount "buy" [[Num 100; Num 1]] 5)
    (Some (100, 1)).
Proof.
  pose proof (compute_vwap_refines side levels amount_base) as Href.
  assert (compute_vwap_for_amount side levels amount_base = None <->
          amount_base <= 0 \/
          sum_filled (takes amount_base (valid_levels levels)) == 0) as Hnone.
  { unfold vwap_spec in Href.
    destruct (Qlt_le_dec 0 amount_base) as [Hpos|Hneg].
    - pose proof (valid_levels_positive levels) as Hall.
      destruct (takes_bounds _ _ Hpos Hall) as (B0 & _).
      cbn zeta in Href.
      destruct (Qlt_le_dec 0 (sum_filled _)) as [H|H].
      + destruct (compute_vwap_for_amount side levels amount_base)
          as [[p f]|]; [|contradiction].
        split; [discriminate|]. intros [?|?]; lra.
      + destruct (compute_vwap_for_amount side levels amount_base)
          as [[p f]|]; [contradiction|].
        split; [|reflexivity]. intros _. right. lra.
    - destruct (compute_vwap_for_amount side levels amount_base)
        as [[p f]|]; [contradiction|].
      split; [|reflexivity]. intros _. now left. }
  split; [exact Href|]. split; [exact Hnone|]. split.
  - intros Hpos. rewrite Hnone, <- (takes_nothing_filled levels _ Hpos).
    split; [intros [?|?]; [lra|assumption] | intros ?; now right].
  - split; [|split; vm_compute; split; reflexivity].
    intros avg_price fill_amount Hres. rewrite Hres in Href.
    unfold vwap_spec in Href.
    destruct (Qlt_le_dec 0 amount_base) as [Hpos|?]; [|contradiction].
    cbn zeta in Href.
    destruct (Qlt_le_dec 0 (sum_filled _)) as [_|?]; [|contradiction].
    destruct Href as [_ Hf].
    destruct (takes_within_tolerance _ _ Hpos (valid_levels_positive levels))
      as [T1 T2].
    split; lra.
Qed.

(** C2. [estimate_fee_aware_profit_pct] is exactly [-100] whenever the
    cost [base_amount * buy_price * (1 + taker_fee_buy)] is not positive,
    and otherwise [(revenue - cost) / cost * 100] with
    [revenue = max(0, base_amount - withdraw_fee_base) * sell_price
               * (1 - taker_fee_sell)]. *)
Theorem estimate_fee_aware_profit_pct_spec
    (buy_price sell_price base_amount
     taker_fee_buy taker_fee_sell withdraw_fee_base : Q) :
  let cost := base_amount * buy_price * (1 + taker_fee_buy) in
  let net_base := Qmax 0 (base_amount - withdraw_fee_base) in
  (cost <= 0 ->
   estimate_fee_aware_profit_pct buy_price sell_price base_amount
     taker_fee_buy taker_fee_sell withdraw_fee_base = -100) /\
  (~ cost <= 0 ->
   estimate_fee_aware_profit_pct buy_price sell_price base_amount
     taker_fee_buy taker_fee_sell withdraw_fee_base ==
   (net_base * sell_price * (1 - taker_fee_sell) - cost) / cost * 100).
Proof.
  intros cost net_base. unfold estimate_fee_aware_profit_pct.
  fold cost. split.
  - intros Hc. apply Qle_bool_iff in Hc. now rewrite Hc.
  - intros Hc. destruct (Qle_bool cost 0) eqn:E.
    + apply Qle_bool_iff in E. contradiction.
    + assert (max0 (base_amount - withdraw_fee_base) == net_base) as ->; [|reflexivity].
      unfold max0, net_base.
      destruct (Qlt_le_dec 0 (base_amount - withdraw_fee_base)) as [H|H].
      * symmetry. apply Q.max_r. lra.
      * symmetry. apply Q.max_l. exact H.
Qed.

(** C10. For a positive request, a reported fill is positive, exceeds
    neither the request nor the total amount of the valid levels, and its
    average price is positive. *)
Theorem compute_vwap_for_amount_bounds
    (side : string) levels amount_base avg_price fill_amount :
  0 < amount_base ->
  compute_vwap_for_amount side levels amount_base
    = Some (avg_price, fill_amount) ->
  0 < fill_amount /\ fill_amount <= amount_base /\
  fill_amount <= depth (valid_levels levels) /\
  0 < avg_price.
Proof.
  intros Hpos Hres.
  pose proof (compute_vwap_refines side levels amount_base) as Href.
  rewrite Hres in Href. unfold vwap_spec in Href.
  destruct (Qlt_le_dec 0 amount_base) as [_|?]; [|contradiction].
  cbn zeta in Href.
  set (ts := takes amount_base (valid_levels levels)) in *.
  destruct (Qlt_le_dec 0 (sum_filled ts)) as [Hf|?]; [|contradiction].
  destruct Href as [Hp Hfe].
  pose proof (valid_levels_positive levels) as Hall.
  destruct (takes_bounds _ _ Hpos Hall) as (_ & B1 & B2 & _ & Hne).
  fold ts in B1, B2, Hne.
  assert (valid_levels levels <> []) as Hvl.
  { intros E. unfold ts in Hf. rewrite E in Hf. cbn in Hf. lra. }
  destruct (Hne Hvl) as [_ Hq].
  repeat split; try lra.
  rewrite Hp. apply Qlt_shift_div_l; [assumption | lra].
Qed.

Lemma compute_vwap_for_amount_bounds_witness :
  0 < (3 # 2) /\
  (0 < (3 # 2) /\ (3 # 2) <= (3 # 2) /\
   (3 # 2) <= Spec.depth
                (Spec.valid_levels [[Fees.Num 100; Fees.Num 1];
                                    [Fees.Num 101; Fees.Num 2]]) /\
   0 < (602 # 6)).
Proof.
  split; [reflexivity|].
  apply (compute_vwap_for_amount_bounds "buy"
           [[Num 100; Num 1]; [Num 101; Num 2]] (3 # 2)).
  - reflexivity.
  - vm_compute. reflexivity.
Defined.

End FeesFacts.

(** ** The key/value cache *)

Section CacheFacts.
Import Py Cache.
Context {value : Type}.
Variable dumps : value -> string.
Variable loads : string -> result value.

Lemma get_json_missing (db : gmap string row) now key ttl :
  db !! key = None -> get_json loads db now key ttl = Ok None.
Proof. intros H. unfold get_json. now rewrite H. Qed.

Lemma get_json_after_set (db : gmap string row) t_w t_r key val ttl :
  get_json loads (set_json dumps db t_w key val) t_r key ttl =
    if match ttl with
       | Some t => (t <? t_r - t_w)%Z
       | None => false
       end
    then Ok None
    else bind (loads (dumps val)) (fun x => Ok (Some x)).
Proof.
  unfold get_json, set_json. rewrite lookup_insert_eq. reflexivity.
Qed.

End CacheFacts.

(** ** [json.loads] after [json.dumps] *)

Section JsonFacts.
Import Py Json.
Local Open Scope list_scope.

Local Ltac each_char c := destruct c as [[] [] [] [] [] [] [] []].

Lemma value_induction (P : value -> Prop) :
  P PyNone -> (forall b, P (PyBool b)) -> (forall n, P (PyInt n)) ->
  (forall f, P (PyFloat f)) -> (forall s, P (PyStr s)) ->
  (forall items, Forall P items -> P (PyList items)) ->
  (forall items, Forall P items -> P (PyTuple items)) ->
  (forall entries, Forall (fun kv => P kv.2) entries -> P (PyDict entries)) ->
  forall val, P val.
Proof.
  intros HN HB HI HF HS HL HT HD.
  fix IH 1. intros [ | b | n | f | s | items | items | entries ].
  - exact HN.
  - apply HB.
  - apply HI.
  - apply HF.
  - apply HS.
  - apply HL. induction items as [|v items IHitems]; constructor;
      [apply IH | exact IHitems].
  - apply HT. induction items as [|v items IHitems]; constructor;
      [apply IH | exact IHitems].
  - apply HD. induction entries as [|[k v] entries IHentries]; constructor;
      [apply IH | exact IHentries].
Qed.

Lemma ends_value_cases s :
  ends_value s = true ->
  s = [] \/ exists c t, s = c :: t /\
    (c = ","%char \/ c = "]"%char \/ c = "}"%char).
Proof.
  destruct s as [|c t]; [now left|]. cbn [ends_value]. intros H. right.
  exists c, t. split; [reflexivity|].
  apply orb_true_iff in H as [H|H]; [apply orb_true_iff in H as [H|H]|];
    apply Ascii.eqb_eq in H; auto.
Qed.

Lemma ends_value_skip_ws s : ends_value s = true -> skip_ws s = s.
Proof.
  intros H. apply ends_value_cases in H
    as [->|(c & t & -> & [->|[->| ->]])]; reflexivity.
Qed.

Lemma read_uint_stop s :
  match s with c :: _ => digit_of c = None | [] => True end ->
  read_uint s = (Decimal.Nil, s).
Proof. destruct s as [|c t]; [reflexivity|]. cbn. now intros ->. Qed.

Lemma read_uint_chars u s :
  match s with c :: _ => digit_of c = None | [] => True end ->
  read_uint (uint_chars u ++ s) = (u, s).
Proof.
  intros Hs. induction u as [|u IH|u IH|u IH|u IH|u IH|u IH|u IH|u IH|u IH|u IH];
    [now apply read_uint_stop| ..];
    cbn; now rewrite IH.
Qed.

Lemma ends_value_no_digit s :
  ends_value s = true ->
  match s with c :: _ => digit_of c = None | [] => True end.
Proof.
  intros H. apply ends_value_cases in H
    as [->|(c & t & -> & [->|[->| ->]])]; reflexivity.
Qed.

Lemma ends_value_no_fraction s :
  ends_value s = true -> read_fraction s = (None, s).
Proof.
  intros H. apply ends_value_cases in H
    as [->|(c & t & -> & [->|[->| ->]])]; try reflexivity;
    destruct t; reflexivity.
Qed.

Lemma ends_value_no_exponent s :
  ends_value s = true -> read_exponent s = (None, s).
Proof.
  intros H. apply ends_value_cases in H
    as [->|(c & t & -> & [->|[->| ->]])]; reflexivity.
Qed.

(** The digits of a positive number do not start with a zero. *)
Lemma to_uint_head p :
  exists c t, uint_chars (Pos.to_uint p) = c :: t /\
    is_digit c = true /\ Ascii.eqb c "0" = false.
Proof.
  destruct (Pos.to_uint p) as [|u|u|u|u|u|u|u|u|u|u] eqn:E;
    try (eexists _, _; repeat split; reflexivity).
  - now apply DecimalPos.Unsigned.to_uint_nonnil in E.
  - exfalso.
    pose proof (DecimalPos.Unsigned.to_of (Pos.to_uint p)) as Hn.
    rewrite DecimalPos.Unsigned.of_to in Hn. cbn [N.to_uint] in Hn.
    rewrite E, DecimalFacts.unorm_D0 in Hn.
    unfold Decimal.unorm in Hn.
    destruct (Decimal.nzhead u) eqn:Hz; try discriminate.
    + injection Hn as ->. now apply (DecimalPos.Unsigned.to_uint_nonzero p).
    + now apply DecimalFacts.nzhead_nonzero in Hz.
Qed.

Lemma is_digit_cases c :
  is_digit c = true ->
  starts_with dquote [c] = false /\ starts_with "{" [c] = false /\
  starts_with "[" [c] = false /\ starts_with "-" [c] = false /\
  Ascii.eqb (ascii_of_nat 110) c = false /\
  Ascii.eqb (ascii_of_nat 116) c = false /\
  Ascii.eqb (ascii_of_nat 102) c = false /\
  is_ws c = false /\ starts_with "]" [c] = false /\ starts_with "}" [c] = false.
Proof. each_char c; cbn; intros H; try discriminate H; repeat split. Qed.

Lemma read_whole_chars n s :
  match s with c :: _ => digit_of c = None | [] => True end ->
  read_whole (uint_chars (N.to_uint n) ++ s) = (N.to_uint n, s).
Proof.
  intros Hs. destruct n as [|p]; [reflexivity|]. cbn [N.to_uint].
  destruct (to_uint_head p) as (c & t & E & _ & Hc).
  unfold read_whole.
  assert (starts_with "0" (uint_chars (Pos.to_uint p) ++ s) = false) as ->
    by (rewrite E; exact Hc).
  now apply read_uint_chars.
Qed.

Lemma uint_chars_head u :
  u <> Decimal.Nil ->
  exists c t, uint_chars u = c :: t /\ is_digit c = true.
Proof.
  destruct u; [contradiction| ..]; intros _; eexists _, _; split; reflexivity.
Qed.

Lemma whole_head n :
  exists c t, uint_chars (N.to_uint n) = c :: t /\ is_digit c = true.
Proof.
  destruct n as [|p]; [eexists _, _; split; reflexivity|].
  destruct (to_uint_head p) as (c & t & E & Hd & _). eauto.
Qed.

(** What [parse_number] makes of a sign, the digits of a whole part and
    a rest that does not go on with a digit. *)
Lemma parse_number_whole (negative : bool) (whole : N) r1 :
  match r1 with c :: _ => digit_of c = None | [] => True end ->
  parse_number ((if negative then ["-"%char] else []) ++
                uint_chars (N.to_uint whole) ++ r1)
  = let '(fraction, r2) := read_fraction r1 in
    let '(exponent, r3) := read_exponent r2 in
    match fraction, exponent with
    | None, None =>
        Ok (PyInt (if negative then - Z.of_N whole else Z.of_N whole)%Z, r3)
    | _, _ => Ok (PyFloat (Finite negative whole fraction exponent), r3)
    end.
Proof.
  intros Hr1. unfold parse_number.
  destruct (whole_head whole) as (c & t & E & Hc).
  destruct (is_digit_cases c Hc) as (_ & _ & _ & Hminus & _).
  assert (starts_with "-" ((if negative then ["-"%char] else []) ++
            uint_chars (N.to_uint whole) ++ r1) = negative) as ->.
  { destruct negative; [reflexivity|]. rewrite E. exact Hminus. }
  assert ((if negative
           then tail ((if negative then ["-"%char] else []) ++
                      uint_chars (N.to_uint whole) ++ r1)
           else (if negative then ["-"%char] else []) ++
                uint_chars (N.to_uint whole) ++ r1)
          = uint_chars (N.to_uint whole) ++ r1) as ->
    by (destruct negative; reflexivity).
  rewrite (read_whole_chars _ _ Hr1), E. cbn [app]. rewrite Hc.
  now rewrite DecimalN.Unsigned.of_to.
Qed.

Lemma encode_int_parts n :
  encode_int n
  = (if (n <? 0)%Z then ["-"%char] else []) ++ uint_chars (N.to_uint (Z.abs_N n)).
Proof. destruct n; reflexivity. Qed.

Lemma parse_number_int n s :
  ends_value s = true ->
  parse_number (encode_int n ++ s) = Ok (PyInt n, s).
Proof.
  intros Hs. rewrite encode_int_parts, <- app_assoc.
  rewrite parse_number_whole by now apply ends_value_no_digit.
  rewrite (ends_value_no_fraction _ Hs), (ends_value_no_exponent _ Hs).
  destruct n; reflexivity.
Qed.

Lemma read_exponent_unsigned c t :
  is_digit c = true ->
  read_exponent ("e"%char :: c :: t)
  = let '(u, r) := read_uint (c :: t) in (Some (None, u), r).
Proof.
  intros Hc. unfold read_exponent.
  change (Ascii.eqb "e" "e" || Ascii.eqb "e" "E") with true.
  cbv iota. now rewrite Hc.
Qed.

Lemma read_exponent_signed (minus : bool) c t :
  is_digit c = true ->
  read_exponent ("e"%char :: (if minus then "-"%char else "+"%char) :: c :: t)
  = let '(u, r) := read_uint (c :: t) in (Some (Some minus, u), r).
Proof.
  intros Hc. unfold read_exponent.
  change (Ascii.eqb "e" "e" || Ascii.eqb "e" "E") with true.
  cbv iota. rewrite Hc. now destruct minus.
Qed.

Lemma read_fraction_other c t :
  Ascii.eqb c "." = false -> read_fraction (c :: t) = (None, c :: t).
Proof. intros H. unfold read_fraction. destruct t; now rewrite ?H. Qed.

Lemma parse_number_float negative whole fraction exponent s :
  float_round_trips (Finite negative whole fraction exponent) = true ->
  ends_value s = true ->
  parse_number (encode_float (Finite negative whole fraction exponent) ++ s)
  = Ok (PyFloat (Finite negative whole fraction exponent), s).
Proof.
  intros Hf Hs. cbn [float_round_trips] in Hf.
  apply andb_true_iff in Hf as [Hf Hsome].
  apply andb_true_iff in Hf as [Hfr Hex].
  pose proof (ends_value_no_digit _ Hs) as Hnd.
  set (etext := match exponent with
                | Some (sign, digits) =>
                    "e"%char ::
                    match sign with
                    | Some true => ["-"%char]
                    | Some false => ["+"%char]
                    | None => []
                    end ++ uint_chars digits
                | None => []
                end).
  assert (read_exponent (etext ++ s) = (exponent, s)) as Hexp.
  { unfold etext. destruct exponent as [[sign digits]|];
      [|now apply ends_value_no_exponent].
    destruct (uint_chars_head digits) as (c & t & E & Hc);
      [now destruct digits|].
    destruct sign as [[]|]; cbn [app]; rewrite E; cbn [app].
    - rewrite (read_exponent_signed true c (t ++ s) Hc).
      change (c :: t ++ s) with ((c :: t) ++ s).
      now rewrite <- E, (read_uint_chars _ _ Hnd).
    - rewrite (read_exponent_signed false c (t ++ s) Hc).
      change (c :: t ++ s) with ((c :: t) ++ s).
      now rewrite <- E, (read_uint_chars _ _ Hnd).
    - rewrite (read_exponent_unsigned c (t ++ s) Hc).
      change (c :: t ++ s) with ((c :: t) ++ s).
      now rewrite <- E, (read_uint_chars _ _ Hnd). }
  assert (match etext ++ s with c :: _ => digit_of c = None | [] => True end)
    as Hend.
  { unfold etext. destruct exponent as [[sign digits]|]; [reflexivity|].
    exact Hnd. }
  cbn [encode_float]. fold etext. rewrite <- !app_assoc.
  destruct fraction as [digits|].
  - destruct (uint_chars_head digits) as (c & t & E & Hc);
      [now destruct digits|].
    rewrite parse_number_whole by reflexivity.
    assert (read_fraction (("."%char :: uint_chars digits) ++ etext ++ s)
            = (Some digits, etext ++ s)) as ->.
    { cbn [app]. unfold read_fraction. rewrite E at 1. cbn [app].
      rewrite Ascii.eqb_refl, Hc. cbn [andb tail].
      now rewrite (read_uint_chars _ _ Hend). }
    rewrite Hexp. reflexivity.
  - cbn [app]. rewrite parse_number_whole by exact Hend.
    assert (read_fraction (etext ++ s) = (None, etext ++ s)) as ->.
    { unfold etext. destruct exponent as [[sign digits]|];
        [|now apply ends_value_no_fraction].
      cbn [app]. now apply read_fraction_other. }
    rewrite Hexp. destruct exponent; [reflexivity | discriminate].
Qed.

Lemma read_str_escape c t :
  read_str (escape c ++ t)
  = bind (read_str t) (fun more => Ok (c :: more.1, more.2)).
Proof. each_char c; reflexivity. Qed.

Lemma read_str_chars s rest :
  read_str (concat (escape <$> s) ++ dquote :: rest) = Ok (s, rest).
Proof.
  induction s as [|c s IH]; [reflexivity|].
  cbn [fmap list_fmap concat]. rewrite <- app_assoc, read_str_escape.
  change (list_fmap _ _ escape s) with (escape <$> s). now rewrite IH.
Qed.

Lemma read_str_encode_str k rest :
  read_str (tail (encode_str k ++ rest)) = Ok (chars k, rest).
Proof.
  unfold encode_str, encode_chars. cbn [app tail].
  rewrite <- app_assoc. apply read_str_chars.
Qed.

Lemma chars_string s : String.string_of_list_ascii (chars s) = s.
Proof. apply String.string_of_list_ascii_of_string. Qed.

(** Every encoded value starts with a character that is neither white
    space nor a closing bracket or brace. *)
Lemma encode_head val :
  exists c t, encode val = c :: t /\
    is_ws c = false /\ Ascii.eqb c "]" = false /\ Ascii.eqb c "}" = false.
Proof.
  destruct val as [ |[]|n|f|s|items|items|entries];
    try (eexists _, _; repeat split; reflexivity).
  - cbn [encode]. rewrite encode_int_parts.
    destruct (whole_head (Z.abs_N n)) as (c & t & -> & Hc).
    destruct (is_digit_cases c Hc) as (_ & _ & _ & _ & _ & _ & _ & W & B1 & B2).
    destruct (n <? 0)%Z; eexists _, _; repeat split; try reflexivity;
      assumption.
  - destruct f as [negative whole fraction exponent|[]|];
      try (eexists _, _; repeat split; reflexivity).
    cbn [encode encode_float].
    destruct (whole_head whole) as (c & t & -> & Hc).
    destruct (is_digit_cases c Hc) as (_ & _ & _ & _ & _ & _ & _ & W & B1 & B2).
    destruct negative; eexists _, _; repeat split; try reflexivity;
      assumption.
Qed.

Lemma encode_nonempty val : (1 <= length (encode val))%nat.
Proof.
  destruct (encode_head val) as (c & t & -> & _). cbn [length]. lia.
Qed.

Lemma skip_ws_encode val s : skip_ws (encode val ++ s) = encode val ++ s.
Proof.
  destruct (encode_head val) as (c & t & -> & W & _).
  cbn [app skip_ws]. now rewrite W.
Qed.

Lemma parse_value_digit c t fuel :
  is_digit c = true ->
  parse_value (S fuel) (c :: t) = parse_number (c :: t) /\
  parse_value (S fuel) ("-"%char :: c :: t) = parse_number ("-"%char :: c :: t).
Proof.
  each_char c; intros H; vm_compute in H; try discriminate H;
    split; reflexivity.
Qed.

Lemma parse_value_number fuel (negative : bool) whole r :
  parse_value (S fuel) ((if negative then ["-"%char] else []) ++
                        uint_chars (N.to_uint whole) ++ r)
  = parse_number ((if negative then ["-"%char] else []) ++
                  uint_chars (N.to_uint whole) ++ r).
Proof.
  destruct (whole_head whole) as (c & t & -> & Hc).
  destruct (parse_value_digit c (t ++ r) fuel Hc) as [H1 H2].
  destruct negative; assumption.
Qed.

Lemma parse_value_array fuel s :
  parse_value (S fuel) ("["%char :: s)
  = if starts_with "]" (skip_ws s) then Ok (PyList [], tail (skip_ws s))
    else parse_items fuel (skip_ws s) [].
Proof. reflexivity. Qed.

Lemma parse_value_object fuel s :
  parse_value (S fuel) ("{"%char :: s)
  = if starts_with "}" (skip_ws s) then Ok (PyDict [], tail (skip_ws s))
    else parse_members fuel (skip_ws s) [].
Proof. reflexivity. Qed.

Lemma parse_value_string fuel s :
  parse_value (S fuel) (dquote :: s)
  = bind (read_str s)
      (fun str => Ok (PyStr (String.string_of_list_ascii str.1), str.2)).
Proof. reflexivity. Qed.

Lemma parse_items_step fuel s acc :
  parse_items (S fuel) s acc
  = bind (parse_value fuel s)
      (fun item =>
         if starts_with "]" (skip_ws item.2)
         then Ok (PyList (acc ++ [item.1]), tail (skip_ws item.2))
         else if starts_with "," (skip_ws item.2)
         then parse_items fuel (skip_ws (tail (skip_ws item.2))) (acc ++ [item.1])
         else Raise (JSONDecodeError "Expecting ',' delimiter")).
Proof. reflexivity. Qed.

Lemma parse_members_step fuel s acc :
  parse_members (S fuel) (dquote :: s) acc
  = bind (read_str s)
      (fun name =>
         if starts_with ":" (skip_ws name.2) then
           bind (parse_value fuel (skip_ws (tail (skip_ws name.2))))
             (fun member =>
                if starts_with "}" (skip_ws member.2)
                then Ok (PyDict (prod_map KStr id <$>
                                   dict_set (String.string_of_list_ascii name.1)
                                     member.1 acc),
                         tail (skip_ws member.2))
                else if starts_with "," (skip_ws member.2)
                then parse_members fuel (skip_ws (tail (skip_ws member.2)))
                       (dict_set (String.string_of_list_ascii name.1)
                          member.1 acc)
                else Raise (JSONDecodeError "Expecting ',' delimiter"))
         else Raise (JSONDecodeError "Expecting ':' delimiter")).
Proof. reflexivity. Qed.

Lemma dict_set_fresh k val acc :
  k ∉ acc.*1 -> dict_set k val acc = acc ++ [(k, val)].
Proof.
  induction acc as [|[k' v'] acc IH]; [reflexivity|].
  cbn [fmap list_fmap fst dict_set app]. intros Hk.
  apply not_elem_of_cons in Hk as [Hne Hk].
  destruct (String.eqb_spec k' k) as [->|_]; [contradiction|].
  now rewrite IH.
Qed.

Lemma join_cons_cons (p q : list ascii) parts :
  join (p :: q :: parts) = p ++ ","%char :: join (q :: parts).
Proof. reflexivity. Qed.

Lemma parse_items_encode items :
  Forall reads_back items -> items <> [] ->
  forall fuel acc rest,
    (length (join (encode <$> items)) < fuel)%nat ->
    ends_value rest = true ->
    parse_items fuel (join (encode <$> items) ++ "]"%char :: rest) acc
    = Ok (PyList (acc ++ items), rest).
Proof.
  induction 1 as [|val items Hval Hitems IH]; [contradiction|].
  intros _ fuel acc rest Hlen Hrest.
  destruct fuel as [|fuel]; [lia|]. rewrite parse_items_step.
  destruct items as [|val' items].
  - cbn [fmap list_fmap join] in Hlen |- *.
    rewrite Hval by (reflexivity || lia). reflexivity.
  - change (encode <$> val :: val' :: items)
      with (encode val :: encode val' :: (encode <$> items)) in Hlen |- *.
    rewrite join_cons_cons in Hlen |- *.
    rewrite length_app in Hlen. cbn [length] in Hlen.
    rewrite <- app_assoc. cbn [app].
    rewrite Hval by (reflexivity || lia).
    change (encode val' :: (encode <$> items))
      with (encode <$> val' :: items) in Hlen |- *.
    cbn [bind fst snd].
    rewrite (ends_value_skip_ws (","%char :: _)) by reflexivity.
    cbn [starts_with tail].
    change (Ascii.eqb "," "]") with false.
    change (Ascii.eqb "," ",") with true. cbv iota.
    assert (skip_ws (join (encode <$> val' :: items) ++ "]"%char :: rest)
            = join (encode <$> val' :: items) ++ "]"%char :: rest) as ->.
    { destruct items; cbn [fmap list_fmap join];
        [|rewrite <- app_assoc]; apply skip_ws_encode. }
    pose proof (encode_nonempty val).
    rewrite IH by (discriminate || assumption || lia).
    now rewrite <- app_assoc.
Qed.

Lemma encode_dict entries :
  encode (PyDict entries)
  = "{"%char :: join (encode_member <$> entries) ++ ["}"%char].
Proof. reflexivity. Qed.

Lemma skip_ws_member kv s :
  skip_ws (encode_member kv ++ s) = encode_member kv ++ s.
Proof. reflexivity. Qed.

Lemma parse_members_encode entries :
  Forall (fun kv => reads_back kv.2) entries -> entries <> [] ->
  forall fuel acc rest,
    NoDup (key_text <$> entries.*1) ->
    (forall k, k ∈ acc.*1 -> k ∉ key_text <$> entries.*1) ->
    (length (join (encode_member <$> entries)) < fuel)%nat ->
    ends_value rest = true ->
    parse_members fuel (join (encode_member <$> entries) ++ "}"%char :: rest) acc
    = Ok (PyDict (prod_map KStr id <$>
                    (acc ++ (prod_map key_text id <$> entries))), rest).
Proof.
  induction 1 as [|[k val] entries Hval Hentries IH]; [contradiction|].
  intros _ fuel acc rest Hnodup Hacc Hlen Hrest.
  destruct fuel as [|fuel]; [lia|].
  cbn [fmap list_fmap fst snd] in Hnodup, Hacc, Hval.
  apply NoDup_cons in Hnodup as [Hk Hnodup].
  assert (dict_set (key_text k) val acc = acc ++ [(key_text k, val)]) as Hset.
  { apply dict_set_fresh. intros Hin. apply (Hacc _ Hin). now left. }
  assert (forall s,
            parse_members (S fuel) (encode_member (k, val) ++ s) acc
            = bind (parse_value fuel (encode val ++ s))
                (fun m =>
                   if starts_with "}" (skip_ws m.2)
                   then Ok (PyDict (prod_map KStr id <$>
                                      dict_set (key_text k) m.1 acc),
                            tail (skip_ws m.2))
                   else if starts_with "," (skip_ws m.2)
                   then parse_members fuel (skip_ws (tail (skip_ws m.2)))
                          (dict_set (key_text k) m.1 acc)
                   else Raise (JSONDecodeError "Expecting ',' delimiter")))
    as Hstep.
  { intros s. unfold encode_member. cbn [fst snd].
    rewrite <- app_assoc. cbn [app].
    change (encode_str (key_text k) ++ ":"%char :: encode val ++ s)
      with (dquote :: tail (encode_str (key_text k) ++
                            ":"%char :: encode val ++ s)).
    rewrite parse_members_step, read_str_encode_str. cbn [bind fst snd].
    change (skip_ws (":"%char :: encode val ++ s))
      with (":"%char :: encode val ++ s).
    cbn [starts_with tail]. change (Ascii.eqb ":" ":") with true. cbv iota.
    now rewrite skip_ws_encode, chars_string. }
  destruct entries as [|kv' entries].
  - cbn [fmap list_fmap join] in Hlen |- *. rewrite Hstep.
    unfold encode_member in Hlen at 1.
    rewrite length_app in Hlen. cbn [length fst snd] in Hlen.
    rewrite Hval by (reflexivity || lia). cbn [bind fst snd]. now rewrite Hset.
  - change (encode_member <$> (k, val) :: kv' :: entries)
      with (encode_member (k, val) :: encode_member kv' :: (encode_member <$> entries)) in Hlen |- *.
    rewrite join_cons_cons in Hlen |- *.
    unfold encode_member in Hlen at 1.
    rewrite !length_app in Hlen. cbn [length fst snd] in Hlen.
    change (encode_member kv' :: (encode_member <$> entries))
      with (encode_member <$> kv' :: entries) in Hlen |- *.
    rewrite <- app_assoc. cbn [app]. rewrite Hstep.
    rewrite Hval by (reflexivity || lia).
    cbn [bind fst snd].
    rewrite (ends_value_skip_ws (","%char :: _)) by reflexivity.
    cbn [starts_with tail].
    change (Ascii.eqb "," "}") with false.
    change (Ascii.eqb "," ",") with true. cbv iota.
    assert (skip_ws (join (encode_member <$> kv' :: entries) ++ "}"%char :: rest)
            = join (encode_member <$> kv' :: entries) ++ "}"%char :: rest) as ->.
    { destruct entries; cbn [fmap list_fmap join];
        [|rewrite <- app_assoc]; apply skip_ws_member. }
    rewrite Hset.
    rewrite IH; [|discriminate|exact Hnodup| |lia|exact Hrest].
    + now rewrite <- app_assoc.
    + intros k' Hk'. rewrite fmap_app, elem_of_app in Hk'.
      destruct Hk' as [Hk'|Hk'].
      * intros Hin. apply (Hacc _ Hk'). now right.
      * apply list_elem_of_singleton in Hk' as ->. exact Hk.
Qed.

Lemma str_keys_entries entries :
  forallb (fun kv : key * value => is_str_key kv.1 && native kv.2) entries
  = true ->
  prod_map KStr id <$> (prod_map key_text id <$> entries) = entries.
Proof.
  induction entries as [|[[] val] entries IH]; cbn; try discriminate;
    [reflexivity|].
  intros H. apply andb_true_iff in H as [_ H]. now rewrite IH.
Qed.

Lemma starts_with_encode c val s :
  (c = "]"%char \/ c = "}"%char) -> starts_with c (encode val ++ s) = false.
Proof.
  destruct (encode_head val) as (c' & t & -> & _ & B1 & B2).
  intros [-> | ->]; assumption.
Qed.

(** The scanner reads back every native value. *)
Lemma parse_value_encode val : native val = true -> reads_back val.
Proof.
  induction val as [ |b|n|f|s|items IH|items IH|entries IH]
    using value_induction; intros Hnative fuel rest Hlen Hrest.
  - destruct fuel; [cbn in Hlen; lia | reflexivity].
  - destruct fuel; [destruct b; cbn in Hlen; lia | destruct b; reflexivity].
  - pose proof (encode_nonempty (PyInt n)).
    destruct fuel as [|fuel]; [lia|]. cbn [encode].
    assert (parse_value (S fuel) (encode_int n ++ rest)
            = parse_number (encode_int n ++ rest)) as ->
      by (rewrite encode_int_parts, <- app_assoc; apply parse_value_number).
    now apply parse_number_int.
  - pose proof (encode_nonempty (PyFloat f)).
    destruct fuel as [|fuel]; [lia|]. cbn [encode native] in Hnative |- *.
    destruct f as [negative whole fraction exponent|[]|];
      [|reflexivity|reflexivity|discriminate].
    assert (parse_value (S fuel)
              (encode_float (Finite negative whole fraction exponent) ++ rest)
            = parse_number
                (encode_float (Finite negative whole fraction exponent) ++ rest))
      as ->
      by (cbn [encode_float]; rewrite <- !app_assoc; apply parse_value_number).
    now apply parse_number_float.
  - pose proof (encode_nonempty (PyStr s)).
    destruct fuel as [|fuel]; [lia|]. cbn [encode].
    unfold encode_str, encode_chars. cbn [app].
    rewrite parse_value_string, <- app_assoc. cbn [app].
    rewrite read_str_chars. cbn [bind fst snd]. now rewrite chars_string.
  - pose proof (encode_nonempty (PyList items)).
    destruct fuel as [|fuel]; [lia|]. cbn [encode native] in Hnative, Hlen |- *.
    cbn [app length] in Hlen |- *. rewrite length_app in Hlen.
    cbn [length] in Hlen. rewrite <- app_assoc. cbn [app].
    rewrite parse_value_array.
    destruct items as [|val items]; [reflexivity|].
    assert (skip_ws (join (encode <$> val :: items) ++ "]"%char :: rest)
            = join (encode <$> val :: items) ++ "]"%char :: rest) as ->.
    { destruct items; cbn [fmap list_fmap join];
        [|rewrite <- app_assoc]; apply skip_ws_encode. }
    assert (starts_with "]"
              (join (encode <$> val :: items) ++ "]"%char :: rest) = false)
      as ->.
    { destruct items; cbn [fmap list_fmap join];
        [|rewrite <- app_assoc]; apply starts_with_encode; now left. }
    apply parse_items_encode; [|discriminate|lia|exact Hrest].
    rewrite forallb_forall in Hnative. rewrite Forall_forall in IH.
    apply Forall_forall. intros v Hv. apply IH; [exact Hv|].
    apply Hnative. now apply list_elem_of_In.
  - discriminate.
  - pose proof (encode_nonempty (PyDict entries)).
    destruct fuel as [|fuel]; [lia|]. rewrite encode_dict in Hlen |- *.
    cbn [native] in Hnative. apply andb_true_iff in Hnative as [Hkeys Hnodup].
    apply bool_decide_eq_true in Hnodup.
    cbn [app length] in Hlen |- *. rewrite length_app in Hlen.
    cbn [length] in Hlen. rewrite <- app_assoc. cbn [app].
    rewrite parse_value_object.
    destruct entries as [|kv entries]; [reflexivity|].
    assert (skip_ws (join (encode_member <$> kv :: entries) ++ "}"%char :: rest)
            = join (encode_member <$> kv :: entries) ++ "}"%char :: rest) as ->.
    { destruct entries; cbn [fmap list_fmap join];
        [|rewrite <- app_assoc]; apply skip_ws_member. }
    assert (starts_with "}"
              (join (encode_member <$> kv :: entries) ++ "}"%char :: rest)
            = false) as ->.
    { destruct entries; cbn [fmap list_fmap join];
        [|rewrite <- app_assoc]; reflexivity. }
    rewrite parse_members_encode;
      [|  |discriminate|exact Hnodup| |lia|exact Hrest].
    + cbn [app]. now rewrite str_keys_entries.
    + rewrite forallb_forall in Hkeys. rewrite Forall_forall in IH.
      apply Forall_forall. intros e He. apply IH; [exact He|].
      apply list_elem_of_In, Hkeys in He.
      now apply andb_true_iff in He as [_ He].
    + intros k Hk. now apply elem_of_nil in Hk.
Qed.

(** What [json.loads] makes of what [json.dumps] wrote for a native
    value. *)
Lemma loads_dumps val : native val = true -> loads (dumps val) = Ok val.
Proof.
  intros Hnative. unfold loads, dumps, decode, chars.
  rewrite String.list_ascii_of_string_of_list_ascii.
  rewrite <- (app_nil_r (encode val)) at 2. rewrite skip_ws_encode.
  rewrite (parse_value_encode val Hnative) by (reflexivity || lia).
  reflexivity.
Qed.

End JsonFacts.

(** ** The cache on JSON values *)

Section CacheClaims.
Import Py Cache Json.




End CacheClaims.

(** ** The exchange connector *)

Section FetchFacts.
Import Py Client Spec.

Lemma try_candidates_first_success ex symbol cands : forall n,
  try_candidates ex n symbol cands
  = Ok (first_success (fallback_answers ex n symbol cands)).
Proof.
  induction cands as [|cand rest IH]; intros n; cbn; [reflexivity|].
  destruct (fetch_order_book ex n symbol cand); [reflexivity | apply IH].
Qed.

Lemma first_success_None answers :
  first_success answers = None <->
  Forall (fun r => exists e, r = Raise e) answers.
Proof.
  induction answers as [|[ob|e] rest IH]; cbn.
  - split; [constructor | reflexivity].
  - split; [discriminate|]. intros H. inversion H as [|? ? [e He] _]. discriminate.
  - rewrite IH. split.
    + intros H. constructor; [eauto | exact H].
    + intros H. now inversion H.
Qed.

Lemma candidates_cases ex msg :
  candidates ex msg =
    if bool_decide (id ex = "kucoin" \/ id ex = "kucoinfutures")
    then [Some 20; Some 100]%Z
    else if contains "limit" msg &&
            (contains "20" msg || contains "50" msg || contains "100" msg
             || contains "500" msg || contains "1000" msg)
    then [Some 20; Some 50; Some 100]%Z
    else [None].
Proof.
  unfold candidates.
  assert (bool_decide (id ex ∈ ["kucoin"; "kucoinfutures"])
          = bool_decide (id ex = "kucoin" \/ id ex = "kucoinfutures")) as ->.
  { apply bool_decide_ext. rewrite !elem_of_cons, elem_of_nil. tauto. }
  cbn [existsb known_limits]. now rewrite !orb_false_r, !orb_assoc.
Qed.

(** C6. [fetch_order_book_safe] always returns: the book of the first
    attempt if that succeeds; otherwise the first book among the fallback
    attempts, and no value when each of them fails.  The fallback depths
    are [20, 100] on kucoin and kucoinfutures, else [20, 50, 100] when the
    error text contains "limit" and one of 20, 50, 100, 500, 1000, else a
    single attempt without depth. *)
Theorem fetch_order_book_safe_never_raises
    (ex : exchange) (n : nat) (symbol : string) (limit : Z) :
  (exists r, fetch_order_book_safe ex n symbol limit = Ok r) /\
  (forall ob, fetch_order_book ex n symbol (Some limit) = Ok ob ->
     fetch_order_book_safe ex n symbol limit = Ok (Some ob)) /\
  (forall exc1, fetch_order_book ex n symbol (Some limit) = Raise exc1 ->
     let ladder :=
       if bool_decide (id ex = "kucoin" \/ id ex = "kucoinfutures")
       then [Some 20; Some 100]%Z
       else if contains "limit" (exn_msg exc1) &&
               (contains "20" (exn_msg exc1) || contains "50" (exn_msg exc1)
                || contains "100" (exn_msg exc1)
                || contains "500" (exn_msg exc1)
                || contains "1000" (exn_msg exc1))
       then [Some 20; Some 50; Some 100]%Z
       else [None] in
     let answers := fallback_answers ex (S n) symbol ladder in
     fetch_order_book_safe ex n symbol limit = Ok (first_success answers) /\
     (fetch_order_book_safe ex n symbol limit = Ok None <->
      Forall (fun r => exists e, r = Raise e) answers)).
Proof.
  unfold fetch_order_book_safe. repeat split.
  - destruct (fetch_order_book ex n symbol (Some limit)); [eauto|].
    rewrite try_candidates_first_success. eauto.
  - now intros ob ->.
  - rewrite H, try_candidates_first_success, candidates_cases. reflexivity.
  - rewrite H, try_candidates_first_success, candidates_cases.
    intros [= Hn]. now apply first_success_None.
  - rewrite H, try_candidates_first_success, candidates_cases.
    intros Hall. f_equal. now apply first_success_None.
Qed.

End FetchFacts.

Section NetworkFeeFacts.
Import Py Client.

Lemma ext_ltb_asym x y : ext_ltb x y = true -> ext_ltb y x = false.
Proof.
  destruct x as [a|], y as [b|]; cbn; try congruence.
  destruct (Qle_bool b a) eqn:E1; cbn; [discriminate|]. intros _.
  destruct (Qle_bool a b) eqn:E2; [reflexivity|]. exfalso.
  destruct (Qlt_le_dec a b) as [H|H].
  - apply Qlt_le_weak, Qle_bool_iff in H. congruence.
  - apply Qle_bool_iff in H. congruence.
Qed.

Lemma ext_ltb_false_trans x y z :
  ext_ltb y x = false -> ext_ltb z y = false -> ext_ltb z x = false.
Proof.
  destruct x as [a|], y as [b|], z as [c|]; cbn; try congruence.
  rewrite !negb_false_iff, !Qle_bool_iff. intros H1 H2. lra.
Qed.

(** [min] returns an element of the sequence with no key strictly below
    its own. *)
Lemma min_by_least {A : Type} (key : A -> ext) (l : list A) : forall best,
  min_by key best l ∈ best :: l /\
  forall y, y ∈ best :: l -> ext_ltb (key y) (key (min_by key best l)) = false.
Proof.
  induction l as [|x l IH]; intros best; cbn [min_by].
  - split; [left|]. intros y Hy. apply list_elem_of_singleton in Hy as ->.
    destruct (ext_ltb (key best) (key best)) eqn:E; [|reflexivity].
    now rewrite (ext_ltb_asym _ _ E) in E.
  - destruct (ext_ltb (key x) (key best)) eqn:E.
    + destruct (IH x) as [Hin Hmin]. split; [now right|].
      intros y Hy. apply elem_of_cons in Hy as [->|Hy]; [|now apply Hmin].
      apply ext_ltb_false_trans with (y := key x).
      * apply Hmin. left.
      * now apply ext_ltb_asym.
    + destruct (IH best) as [Hin Hmin]. split.
      * apply elem_of_cons in Hin as [->|Hin]; [left | right; now right].
      * intros y Hy. apply elem_of_cons in Hy as [->|Hy].
        { apply Hmin. left. }
        apply elem_of_cons in Hy as [->|Hy].
        { apply ext_ltb_false_trans with (y := key best);
            [apply Hmin; left | exact E]. }
        apply Hmin. now right.
Qed.

(** C5. [find_cheapest_common_network_fee] returns no value exactly when
    one of the two maps of the currency is empty or they share no network
    name; otherwise it returns a shared network whose summed fee no other
    shared network undercuts, with exchange A's fee for it. *)
Theorem find_cheapest_common_network_fee_spec
    (fees_a fees_b : gmap string (gmap string Q)) (currency_code : string) :
  let a : gmap string Q := default ∅ (fees_a !! currency_code) in
  let b : gmap string Q := default ∅ (fees_b !! currency_code) in
  (find_cheapest_common_network_fee fees_a fees_b currency_code = Ok None <->
   a = ∅ \/ b = ∅ \/ dom a ∩ dom b = ∅) /\
  (~ (a = ∅ \/ b = ∅ \/ dom a ∩ dom b = ∅) ->
   exists n fa fb,
     find_cheapest_common_network_fee fees_a fees_b currency_code
       = Ok (Some (n, fa)) /\
     a !! n = Some fa /\ b !! n = Some fb /\
     forall m fa' fb',
       a !! m = Some fa' -> b !! m = Some fb' -> fa + fb <= fa' + fb').
Proof.
  intros a b. unfold find_cheapest_common_network_fee. fold a b.
  destruct (decide (a = ∅)) as [Ha|Ha].
  { rewrite (bool_decide_eq_true_2 _ Ha). cbn. split; [tauto|]. tauto. }
  destruct (decide (b = ∅)) as [Hb|Hb].
  { rewrite (bool_decide_eq_false_2 _ Ha), (bool_decide_eq_true_2 _ Hb). cbn.
    split; tauto. }
  rewrite (bool_decide_eq_false_2 _ Ha), (bool_decide_eq_false_2 _ Hb).
  cbn [orb].
  destruct (elements (dom a ∩ dom b)) as [|n0 ns] eqn:Hel.
  { apply elements_empty_inv, leibniz_equiv in Hel. split; tauto. }
  assert (forall m, m ∈ n0 :: ns <-> is_Some (a !! m) /\ is_Some (b !! m))
    as Hcommon.
  { intros m. rewrite <- Hel, elem_of_elements, elem_of_intersection,
      !elem_of_dom. tauto. }
  destruct (min_by_least (fee_sum a b) ns n0) as [Hin Hmin].
  set (best := min_by (fee_sum a b) n0 ns) in *.
  apply Hcommon in Hin as [[fa Hfa] [fb Hfb]].
  rewrite Hfa.
  assert (dom a ∩ dom b <> ∅) as Hne.
  { intros E. rewrite E, elements_empty in Hel. discriminate. }
  split; [split; [discriminate | tauto]|].
  intros _. exists best, fa, fb. repeat split; try assumption.
  intros m fa' fb' Hma Hmb.
  assert (m ∈ n0 :: ns) as Hm by (apply Hcommon; eauto).
  specialize (Hmin m Hm). unfold fee_sum in Hmin.
  rewrite Hma, Hmb, Hfa, Hfb in Hmin. cbn in Hmin.
  apply negb_false_iff, Qle_bool_iff in Hmin. exact Hmin.
Qed.

End NetworkFeeFacts.

(** ** Sorting *)

Section SortFacts.
Import Py.
Context {A : Type} (leb : A -> A -> bool).
Hypothesis leb_total : forall x y, leb x y = true \/ leb y x = true.

Let le (x y : A) : Prop := leb x y = true.

Lemma insert_sorted_perm x l : insert_sorted leb x l ≡ₚ x :: l.
Proof.
  induction l as [|y l IH]; cbn; [reflexivity|].
  destruct (leb x y); [reflexivity|].
  rewrite IH. apply Permutation_swap.
Qed.

Lemma sort_perm l : sort leb l ≡ₚ l.
Proof.
  induction l as [|x l IH]; cbn; [reflexivity|].
  unfold sort in IH. now rewrite insert_sorted_perm, IH.
Qed.

Lemma insert_sorted_hd x y l :
  le y x -> HdRel le y l -> HdRel le y (insert_sorted leb x l).
Proof.
  intros Hyx Hhd. destruct l as [|z l]; cbn; [now constructor|].
  destruct (leb x z); constructor; [assumption|].
  now inversion Hhd.
Qed.

Lemma insert_sorted_sorted x l :
  Sorted le l -> Sorted le (insert_sorted leb x l).
Proof.
  induction 1 as [|y l Hs IH Hhd]; cbn; [repeat constructor|].
  destruct (leb x y) eqn:E.
  - constructor; [now constructor | now constructor].
  - constructor; [exact IH|].
    apply insert_sorted_hd; [|exact Hhd].
    destruct (leb_total x y) as [H|H]; [congruence | exact H].
Qed.

Lemma sort_sorted l : Sorted le (sort leb l).
Proof.
  induction l as [|x l IH]; cbn; [constructor|].
  now apply insert_sorted_sorted.
Qed.

End SortFacts.

(** ** Common symbols *)

Section CommonSymbolsFacts.
Import Py Client Spec.

Lemma split_no_slash s : has_slash s = false -> split "/" s = [s].
Proof.
  induction s as [|c s IH]; cbn; [reflexivity|].
  destruct (Ascii.eqb c "/"); cbn; [discriminate|].
  intros H. now rewrite (IH H).
Qed.

Lemma split_render b q :
  has_slash b = false -> split "/" (render (b, q)) = b :: split "/" q.
Proof.
  unfold render. cbn [fst snd].
  induction b as [|c b IH]; [reflexivity|].
  change (String c b +:+ String "/" q) with (String c (b +:+ String "/" q)).
  cbn [split has_slash].
  destruct (Ascii.eqb c "/"); cbn [orb]; [discriminate|].
  intros H. now rewrite (IH H).
Qed.

Lemma quote_in_render quotes b q :
  has_slash b = false -> has_slash q = false ->
  quote_in quotes (render (b, q)) = Ok (bool_decide (upper q ∈ quotes)).
Proof.
  intros Hb Hq. unfold quote_in.
  now rewrite (split_render _ _ Hb), (split_no_slash _ Hq).
Qed.

Lemma filter_result_render quotes (l : list (string * string)) :
  Forall (fun bq => has_slash bq.1 = false /\ has_slash bq.2 = false) l ->
  filter_result (quote_in quotes) (render <$> l)
  = Ok (render <$> filter (fun bq => upper bq.2 ∈ quotes) l).
Proof.
  induction 1 as [|[b q] l [Hb Hq] _ IH]; [reflexivity|].
  cbn [fmap list_fmap filter_result]. cbn [fst snd] in Hb, Hq.
  rewrite (quote_in_render _ _ _ Hb Hq). cbn [bind].
  change (list_fmap _ _ render l) with (render <$> l). rewrite IH. cbn [bind].
  rewrite filter_cons. cbn [snd].
  destruct (decide (upper q ∈ quotes)) as [H|H].
  - now rewrite (bool_decide_eq_true_2 _ H).
  - now rewrite (bool_decide_eq_false_2 _ H).
Qed.

Lemma elem_of_pairs_of markets bq :
  bq ∈ pairs_of markets <->
  exists m, m ∈ markets /\ is_active m = true /\ (base m, quote m) = bq.
Proof.
  unfold pairs_of. rewrite elem_of_list_to_set, list_elem_of_fmap. split.
  - intros (m & -> & Hm). apply list_elem_of_filter in Hm as [Hact Hm]. eauto.
  - intros (m & Hm & Hact & <-). exists m. split; [reflexivity|].
    now apply list_elem_of_filter.
Qed.

End CommonSymbolsFacts.

Section CommonSymbolsClaims.
Import Py Client Spec.

(** C8, as stated, fails on a base code that contains the separator: the
    filter reads the quote back from the rendered symbol.  The pair
    (X/USDT, BTC) is kept under the preferred quote USDT although its quote
    is BTC. *)
Lemma find_common_symbols_slash_counterexample :
  find_common_symbols
    [Market "X/USDT/BTC" "X/USDT" "BTC" None None]
    [Market "X/USDT/BTC" "X/USDT" "BTC" None None]
    (Some ["USDT"]) = Ok ["X/USDT/BTC"] /\
  ~ common_symbols_spec
      [Market "X/USDT/BTC" "X/USDT" "BTC" None None]
      [Market "X/USDT/BTC" "X/USDT" "BTC" None None]
      (Some ["USDT"]) ["X/USDT/BTC"].
Proof.
  split; [vm_compute; reflexivity|].
  intros [(pairs & _ & Hq & Hperm) _].
  symmetry in Hperm. apply Permutation_singleton_r in Hperm.
  destruct pairs as [|bq [|? ?]]; try discriminate.
  destruct (proj1 (Hq bq) (list_elem_of_here _ _)) as ((m & Hm & _ & Hbq) & _ & Hpref).
  apply list_elem_of_singleton in Hm as ->. cbn in Hbq. subst bq.
  destruct (Hpref eq_refl) as (p & Hp & Hup).
  apply list_elem_of_singleton in Hp as ->. vm_compute in Hup. discriminate.
Qed.

(** C8, amended. When no base or quote code contains ["/"],
    [find_common_symbols] returns, in ascending order, exactly the
    renderings ["BASE/QUOTE"] of the pairs on an active market of both
    lists, restricted, when a non-empty preferred-quotes tuple is given,
    to the pairs whose quote equals a preferred quote up to case.  On
    markets_a = {(BTC,USDT),(ETH,USDT)}, markets_b = {(BTC,USDT),(BTC,BUSD)}
    and preferred quotes [USDT] the result is ["BTC/USDT"]. *)
Theorem find_common_symbols_spec
    (markets_a markets_b : list market) (preferred_quotes : option (list string)) :
  ((forall m, m ∈ markets_a ++ markets_b ->
      has_slash (base m) = false /\ has_slash (quote m) = false) ->
   exists symbols,
     find_common_symbols markets_a markets_b preferred_quotes = Ok symbols /\
     common_symbols_spec markets_a markets_b preferred_quotes symbols) /\
  find_common_symbols
    [Market "BTC/USDT" "BTC" "USDT" None None;
     Market "ETH/USDT" "ETH" "USDT" None None]
    [Market "BTC/USDT" "BTC" "USDT" None None;
     Market "BTC/BUSD" "BTC" "BUSD" None None]
    (Some ["USDT"]) = Ok ["BTC/USDT"].
Proof.
  split; [|vm_compute; reflexivity].
  intros Hns. unfold find_common_symbols.
  set (common := pairs_of markets_a ∩ pairs_of markets_b).
  assert (forall bq, bq ∈ elements common <->
            (exists m, m ∈ markets_a /\ is_active m = true /\ (base m, quote m) = bq) /\
            (exists m, m ∈ markets_b /\ is_active m = true /\ (base m, quote m) = bq))
    as Hcommon.
  { intros bq. unfold common.
    now rewrite elem_of_elements, elem_of_intersection, !elem_of_pairs_of. }
  assert (Forall (fun bq => has_slash bq.1 = false /\ has_slash bq.2 = false)
            (elements common)) as Hall.
  { apply Forall_forall. intros bq Hbq.
    apply Hcommon in Hbq as [(m & Hm & _ & <-) _]. cbn.
    apply Hns, elem_of_app. now left. }
  pose proof (NoDup_elements common) as Hnd.
  destruct (truthy preferred_quotes) eqn:Htr.
  - rewrite (filter_result_render _ _ Hall). cbn [bind].
    eexists. split; [reflexivity|]. split.
    + eexists. split; [|split; [|apply sort_perm]].
      * now apply NoDup_filter.
      * intros bq. rewrite list_elem_of_filter, Hcommon. unfold qualifies.
        rewrite elem_of_list_to_set, list_elem_of_fmap, Htr.
        split.
        -- intros [(p & Hp & Hin) [Ha Hb]]. repeat split; try assumption.
           intros _. exists p. split; [exact Hin | now symmetry].
        -- intros (Ha & Hb & Hq). destruct (Hq eq_refl) as (p & Hin & Hp).
           split; [|now split]. exists p. split; [now symmetry | exact Hin].
    + apply sort_sorted, String.leb_total.
  - cbn [bind]. eexists. split; [reflexivity|]. split.
    + exists (elements common). split; [exact Hnd|]. split; [|apply sort_perm].
      intros bq. rewrite Hcommon. unfold qualifies. rewrite Htr.
      split; [intros [Ha Hb]; repeat split; try assumption; discriminate|].
      intros (Ha & Hb & _). now split.
    + apply sort_sorted, String.leb_total.
Qed.

Lemma find_common_symbols_spec_witness :
  common_symbols_spec
    [Market "BTC/USDT" "BTC" "USDT" None None;
     Market "ETH/USDT" "ETH" "USDT" None None]
    [Market "BTC/USDT" "BTC" "USDT" None None;
     Market "BTC/BUSD" "BTC" "BUSD" None None]
    (Some ["USDT"]) ["BTC/USDT"].
Proof.
  destruct (find_common_symbols_spec
              [Market "BTC/USDT" "BTC" "USDT" None None;
               Market "ETH/USDT" "ETH" "USDT" None None]
              [Market "BTC/USDT" "BTC" "USDT" None None;
               Market "BTC/BUSD" "BTC" "BUSD" None None]
              (Some ["USDT"])) as [Hspec Hex].
  destruct Hspec as (symbols & Heq & Hs).
  - intros m Hm. rewrite !elem_of_app, !elem_of_cons, !elem_of_nil in Hm.
    destruct Hm as [[->|[->|[]]]|[->|[->|[]]]]; split; reflexivity.
  - rewrite Hex in Heq. injection Heq as <-. exact Hs.
Defined.

End CommonSymbolsClaims.

(** ** The scan *)

Section ScanFacts.
Import Py Scanner Spec.
Variable settings : Settings.
Variables ex_a ex_b : Client.exchange.
Variables idx_a idx_b : gmap string Client.market.
Variables books_a books_b : gmap string (option Client.order_book).

Local Abbreviation cached_fee := (cached_network_fee ex_a ex_b).
Local Abbreviation eval_step := (evaluate settings).
Local Abbreviation body :=
  (scan_symbol settings ex_a ex_b idx_a idx_b books_a books_b).
Local Abbreviation loop :=
  (scan_loop settings ex_a ex_b idx_a idx_b books_a books_b).
Local Abbreviation lookup_for := (Spec.lookup_for ex_a ex_b).
Local Abbreviation scan_inv := (Spec.scan_inv settings ex_a ex_b).

Lemma cached_fee_cases dir base st entry st1 :
  cached_fee dir base st = Ok (entry, st1) ->
  (network_fee_cache st !! base = Some entry /\ st1 = st) \/
  (network_fee_cache st !! base = None /\
   exists net, lookup_for dir base = Ok net /\ entry = entry_of net /\
     st1 = MkState (<[base := entry]> (network_fee_cache st))
             (opportunities st) (lookups st ++ [(dir, base)])
             (evaluations st)).
Proof.
  unfold cached_network_fee, lookup_for.
  destruct (network_fee_cache st !! base) as [e|] eqn:Hc.
  - intros [= <- <-]. now left.
  - intros H. right. split; [reflexivity|].
    destruct dir; cbn in H.
    + destruct (Client.find_cheapest_common_network_fee _ _ base) as [net|];
        [|discriminate].
      cbn in H. injection H as <- <-. exists net. now destruct net as [[? ?]|].
    + destruct (Client.find_cheapest_common_network_fee _ _ base) as [net|];
        [|discriminate].
      cbn in H. injection H as <- <-. exists net. now destruct net as [[? ?]|].
Qed.

(** The ways in which the body of the loop can end without raising. *)
Lemma scan_symbol_cases sym st st' :
  body sym st = Ok st' ->
  st' = st \/
  exists base quote taker_a taker_b buy_avg sell_avg amount entry st1,
    split "/" sym = [base; quote] /\
    cached_fee AtoB base st = Ok (entry, st1) /\
    (st' = eval_step sym base AtoB (Client.id ex_a) (Client.id ex_b)
             buy_avg sell_avg amount taker_a taker_b entry st1
     \/
     exists buy_avg_b sell_avg_a amount_b entry2 st3,
       cached_fee BtoA base
         (eval_step sym base AtoB (Client.id ex_a) (Client.id ex_b)
            buy_avg sell_avg amount taker_a taker_b entry st1)
       = Ok (entry2, st3) /\
       st' = eval_step sym base BtoA (Client.id ex_b) (Client.id ex_a)
               buy_avg_b sell_avg_a amount_b taker_b taker_a entry2 st3).
Proof.
  unfold scan_symbol, scan_reverse, bind.
  intros H.
  repeat (case_match; simplify_eq; try (left; reflexivity)).
  all: right; do 9 eexists; (split; [reflexivity|]); (split; [eassumption|]).
  all: try (left; reflexivity).
  all: right; do 5 eexists; split; [eassumption | reflexivity].
Qed.

Lemma scan_inv_initial : scan_inv initial_state.
Proof.
  split; cbn; try (constructor; fail).
  - intros b. rewrite lookup_empty, elem_of_nil. split; [tauto|]. now intros [? ?].
  - intros b entry. now rewrite lookup_empty.
Qed.

(** The forward lookup keeps the invariant and leaves the entry cached. *)
Lemma cached_fee_forward_inv base st entry st1 :
  scan_inv st ->
  cached_fee AtoB base st = Ok (entry, st1) ->
  scan_inv st1 /\ network_fee_cache st1 !! base = Some entry.
Proof.
  intros Hinv H.
  apply cached_fee_cases in H as [[Hhit ->]|(Hmiss & net & Hnet & -> & ->)];
    [now split|].
  destruct Hinv. split; [|cbn; apply lookup_insert_eq].
  split; cbn; try assumption.
  - apply Forall_app. split; [assumption | now repeat constructor].
  - rewrite fmap_app. cbn. apply NoDup_app. repeat split; try assumption.
    + intros b Hb Hb'. apply list_elem_of_singleton in Hb' as ->.
      apply inv_lookups_dom0 in Hb. rewrite Hmiss in Hb. now destruct Hb.
    + apply NoDup_singleton.
  - intros b. rewrite fmap_app, elem_of_app. cbn.
    rewrite list_elem_of_singleton, inv_lookups_dom0.
    destruct (decide (base = b)) as [->|Hne].
    + rewrite lookup_insert_eq. split; [eauto | now right].
    + rewrite lookup_insert_ne by assumption. split; [|now left].
      intros [?|?]; [assumption | congruence].
  - intros b entry. destruct (decide (base = b)) as [->|Hne].
    + rewrite lookup_insert_eq. intros [= <-]. eauto.
    + rewrite lookup_insert_ne by assumption. apply inv_cache_fwd0.
  - eapply Forall_impl; [exact inv_eval_cache0|]. cbn. intros e He.
    rewrite lookup_insert_ne; [assumption|]. intros ->. congruence.
Qed.

(** Once the entry is cached, a lookup in either direction reuses it. *)
Lemma cached_fee_hit dir base st entry :
  network_fee_cache st !! base = Some entry ->
  cached_fee dir base st = Ok (entry, st).
Proof. intros H. unfold cached_network_fee. now rewrite H. Qed.

Lemma evaluate_cache sym base dir buy_id sell_id
    buy_avg sell_avg amount taker_buy taker_sell entry st :
  network_fee_cache
    (eval_step sym base dir buy_id sell_id buy_avg sell_avg amount
       taker_buy taker_sell entry st)
  = network_fee_cache st.
Proof. now destruct entry. Qed.

(** Evaluating a direction with the cached entry keeps the invariant. *)
Lemma evaluate_inv sym base quote dir
    buy_avg sell_avg amount taker_buy taker_sell entry st :
  scan_inv st ->
  split "/" sym = [base; quote] ->
  network_fee_cache st !! base = Some entry ->
  scan_inv
    (eval_step sym base dir
       (match dir with AtoB => Client.id ex_a | BtoA => Client.id ex_b end)
       (match dir with AtoB => Client.id ex_b | BtoA => Client.id ex_a end)
       buy_avg sell_avg amount taker_buy taker_sell entry st).
Proof.
  intros [] Hsplit Hentry. destruct entry as [name fee].
  split; cbn; try assumption.
  - rewrite filter_app, fmap_app, filter_cons, filter_nil, <- inv_opps0.
    unfold clears at 1. cbn [ev_profit].
    destruct (decide _) as [Hc|Hc].
    + apply Qle_bool_iff in Hc. rewrite Hc. reflexivity.
    + destruct (Qle_bool _ _) eqn:E.
      * apply Qle_bool_iff in E. contradiction.
      * cbn. now rewrite app_nil_r.
  - apply Forall_app. split; [assumption | now repeat constructor].
  - apply Forall_app. split; [assumption | now repeat constructor].
  - apply Forall_app. split; [assumption|].
    repeat constructor. cbn. eauto.
Qed.

Lemma scan_symbol_inv sym st st' :
  scan_inv st -> body sym st = Ok st' -> scan_inv st'.
Proof.
  intros Hinv H.
  apply scan_symbol_cases in H
    as [->|(base & quote & ta & tb & ba & sa & am & entry & st1
            & Hsplit & Hfwd & Hrest)]; [assumption|].
  destruct (cached_fee_forward_inv _ _ _ _ Hinv Hfwd) as [Hinv1 Hc1].
  pose proof (evaluate_inv sym base quote AtoB ba sa am ta tb entry st1
                Hinv1 Hsplit Hc1) as Hinv2.
  destruct Hrest as [->|(bb & sb & amb & entry2 & st3 & Hrev & ->)];
    [assumption|].
  rewrite (cached_fee_hit BtoA base _ entry) in Hrev
    by (now rewrite evaluate_cache).
  injection Hrev as <- <-.
  apply (evaluate_inv sym base quote BtoA bb sb amb tb ta entry _ Hinv2 Hsplit).
  now rewrite evaluate_cache.
Qed.

Lemma scan_loop_inv symbols : forall st st',
  scan_inv st -> loop symbols st = Ok st' -> scan_inv st'.
Proof.
  induction symbols as [|sym rest IH]; intros st st' Hinv; cbn.
  - now intros [= <-].
  - destruct (body sym st) as [st1|] eqn:Hb; cbn; [|discriminate].
    apply IH. eapply scan_symbol_inv; eassumption.
Qed.

End ScanFacts.

(** *** The evaluations do not depend on the network fees *)

Section ScanIndependence.
Import Py Scanner Spec.
Variable settings : Settings.
Variables ex_a ex_b ex_a' ex_b' : Client.exchange.
Variables idx_a idx_b : gmap string Client.market.
Variables books_a books_b : gmap string (option Client.order_book).
Hypothesis same_id_a : Client.id ex_a' = Client.id ex_a.
Hypothesis same_id_b : Client.id ex_b' = Client.id ex_b.

Lemma find_cheapest_never_raises fees_1 fees_2 code :
  exists net,
    Client.find_cheapest_common_network_fee fees_1 fees_2 code = Ok net.
Proof.
  unfold Client.find_cheapest_common_network_fee.
  set (a := default ∅ (fees_1 !! code)). set (b := default ∅ (fees_2 !! code)).
  destruct (bool_decide (a = ∅) || bool_decide (b = ∅)); [eauto|].
  destruct (elements (dom a ∩ dom b)) as [|n0 ns] eqn:Hel; [eauto|].
  destruct (min_by_least (Client.fee_sum a b) ns n0) as [Hin _].
  rewrite <- Hel, elem_of_elements, elem_of_intersection, !elem_of_dom in Hin.
  destruct Hin as [[fa ->] _]. eauto.
Qed.

Lemma cached_fee_same_shape dir base st st' :
  same_shape st st' ->
  exists entry st1 entry' st1',
    cached_network_fee ex_a ex_b dir base st = Ok (entry, st1) /\
    cached_network_fee ex_a' ex_b' dir base st' = Ok (entry', st1') /\
    same_shape st1 st1'.
Proof.
  intros [Hdom Hev]. unfold cached_network_fee.
  assert (is_Some (network_fee_cache st !! base) <->
          is_Some (network_fee_cache st' !! base)) as Hsome
    by (now rewrite <- !elem_of_dom, Hdom).
  destruct (network_fee_cache st !! base) as [e|] eqn:Hc,
           (network_fee_cache st' !! base) as [e'|] eqn:Hc'.
  - do 4 eexists. repeat split; eauto.
  - destruct (proj1 Hsome (mk_is_Some _ _ eq_refl)) as [? ?]. discriminate.
  - destruct (proj2 Hsome (mk_is_Some _ _ eq_refl)) as [? ?]. discriminate.
  - destruct dir.
    + destruct (find_cheapest_never_raises (Client.currency_fees ex_a)
                  (Client.currency_fees ex_b) base) as [net ->].
      destruct (find_cheapest_never_raises (Client.currency_fees ex_a')
                  (Client.currency_fees ex_b') base) as [net' ->].
      cbn [bind]. do 4 eexists. repeat split; cbn; [|exact Hev].
      now rewrite !dom_insert_L, Hdom.
    + destruct (find_cheapest_never_raises (Client.currency_fees ex_b)
                  (Client.currency_fees ex_a) base) as [net ->].
      destruct (find_cheapest_never_raises (Client.currency_fees ex_b')
                  (Client.currency_fees ex_a') base) as [net' ->].
      cbn [bind]. do 4 eexists. repeat split; cbn; [|exact Hev].
      now rewrite !dom_insert_L, Hdom.
Qed.

Lemma evaluate_same_shape sym base dir buy_id sell_id buy_id' sell_id'
    buy_avg sell_avg amount taker_buy taker_sell entry entry' st st' :
  same_shape st st' ->
  same_shape
    (evaluate settings sym base dir buy_id sell_id buy_avg sell_avg amount
       taker_buy taker_sell entry st)
    (evaluate settings sym base dir buy_id' sell_id' buy_avg sell_avg amount
       taker_buy taker_sell entry' st').
Proof.
  intros [Hdom Hev]. destruct entry, entry'. split; cbn; [exact Hdom|].
  now rewrite !fmap_app, Hev.
Qed.

Lemma scan_reverse_same_shape sym base taker_a taker_b ob_a ob_b st st' :
  same_shape st st' ->
  same_outcome
    (scan_reverse settings ex_a ex_b sym base taker_a taker_b ob_a ob_b st)
    (scan_reverse settings ex_a' ex_b' sym base taker_a taker_b ob_a ob_b st').
Proof.
  intros Hrel. unfold scan_reverse. rewrite same_id_a, same_id_b.
  destruct (is_nil _ || is_nil _); [exact Hrel|].
  destruct (vwap_leg _ _ _) as [[[[bb sb] amb]|]|e]; cbn [bind];
    [|exact Hrel|reflexivity].
  destruct (cached_fee_same_shape BtoA base _ _ Hrel)
    as (entry & st1 & entry' & st1' & -> & -> & Hrel1).
  cbn [bind]. now apply evaluate_same_shape.
Qed.

Lemma scan_symbol_same_shape sym st st' :
  same_shape st st' ->
  same_outcome
    (scan_symbol settings ex_a ex_b idx_a idx_b books_a books_b sym st)
    (scan_symbol settings ex_a' ex_b' idx_a idx_b books_a books_b sym st').
Proof.
  intros Hrel. unfold scan_symbol. rewrite same_id_a, same_id_b.
  destruct (mjoin (books_a !! sym)) as [ob_a|]; [|exact Hrel].
  destruct (mjoin (books_b !! sym)) as [ob_b|]; [|exact Hrel].
  destruct (split "/" sym) as [|base [|quote [|? ?]]]; try reflexivity.
  destruct (negb _); [exact Hrel|].
  destruct (idx_a !! sym) as [m_a|]; cbn [bind]; [|reflexivity].
  destruct (idx_b !! sym) as [m_b|]; cbn [bind]; [|reflexivity].
  destruct (is_nil _ || is_nil _); [exact Hrel|].
  destruct (vwap_leg _ _ _) as [[[[ba sa] am]|]|e]; cbn [bind];
    [|exact Hrel|reflexivity].
  destruct (Qle_bool am 0); [exact Hrel|].
  destruct (cached_fee_same_shape AtoB base _ _ Hrel)
    as (entry & st1 & entry' & st1' & -> & -> & Hrel1).
  cbn [bind]. apply scan_reverse_same_shape. now apply evaluate_same_shape.
Qed.

Lemma scan_loop_same_shape symbols : forall st st',
  same_shape st st' ->
  same_outcome
    (scan_loop settings ex_a ex_b idx_a idx_b books_a books_b symbols st)
    (scan_loop settings ex_a' ex_b' idx_a idx_b books_a books_b symbols st').
Proof.
  induction symbols as [|sym rest IH]; intros st st' Hrel; cbn [scan_loop];
    [exact Hrel|].
  pose proof (scan_symbol_same_shape sym st st' Hrel) as Hstep.
  destruct (scan_symbol settings ex_a ex_b _ _ _ _ sym st) as [s|e],
           (scan_symbol settings ex_a' ex_b' _ _ _ _ sym st') as [s'|e'];
    cbn in Hstep |- *; try contradiction; [now apply IH | exact Hstep].
Qed.

End ScanIndependence.

(** *** The claims about [scan_two_exchanges] *)

Section ScanClaims.
Import Py Scanner Spec.
Variable settings : Settings.
Variables ex_a ex_b : Client.exchange.
Variables markets_a markets_b : list Client.market.
Variables books_a books_b : gmap string (option Client.order_book).

Local Abbreviation run :=
  (scan_run settings ex_a ex_b markets_a markets_b books_a books_b).
Local Abbreviation scan :=
  (scan_two_exchanges settings ex_a ex_b markets_a markets_b books_a books_b).

Lemma scan_run_inv st : run = Ok st -> scan_inv settings ex_a ex_b st.
Proof.
  unfold scan_run.
  destruct (Client.find_common_symbols _ _ _) as [symbols|]; cbn [bind];
    [|discriminate].
  destruct (is_nil symbols).
  - intros [= <-]. apply scan_inv_initial.
  - apply scan_loop_inv, scan_inv_initial.
Qed.

Lemma by_profit_desc_total o1 o2 :
  by_profit_desc o1 o2 = true \/ by_profit_desc o2 o1 = true.
Proof.
  unfold by_profit_desc.
  destruct (Qlt_le_dec (profit_pct o1) (profit_pct o2)) as [H|H].
  - right. apply Qle_bool_iff. lra.
  - left. now apply Qle_bool_iff.
Qed.

Lemma scan_sorted st :
  Sorted (fun o1 o2 => profit_pct o2 <= profit_pct o1)
    (sort by_profit_desc (opportunities st)).
Proof.
  pose proof (sort_sorted by_profit_desc by_profit_desc_total
                (opportunities st)) as Hs.
  induction Hs as [|o l _ IH Hhd]; constructor; [exact IH|].
  destruct Hhd as [|o' l' Hle]; constructor.
  now apply Qle_bool_iff.
Qed.


(** C4. In a scan that returns, [find_cheapest_common_network_fee] was
    called at most once per base asset, every call was the forward one
    (A to B), and every profit evaluation, of either direction, used the
    network and fee of the forward call for its base asset. *)
Theorem network_fee_looked_up_once_per_base (st : scan_state) :
  run = Ok st ->
  NoDup (lookups st).*2 /\
  Forall (fun c => c.1 = AtoB) (lookups st) /\
  (forall e, e ∈ evaluations st ->
     ev_base e ∈ (lookups st).*2 /\
     exists net,
       Client.find_cheapest_common_network_fee
         (Client.currency_fees ex_a) (Client.currency_fees ex_b) (ev_base e)
       = Ok net /\
       (ev_network e, ev_withdraw_fee e)
       = match net with
         | Some (name, fee) => (Some name, fee)
         | None => (None, 0)
         end).
Proof.
  intros Hrun.
  destruct (scan_run_inv st Hrun) as [_ _ Hfwd Hnd Hdom Hcache Hev _].
  repeat split; try assumption.
  - apply Hdom. rewrite Forall_forall in Hev. rewrite (Hev e H). eauto.
  - rewrite Forall_forall in Hev.
    destruct (Hcache _ _ (Hev e H)) as (net & Hnet & Hentry).
    exists net. split; [exact Hnet | exact Hentry].
Qed.

(** C9. When the two exchanges share no withdrawal network for a base
    asset, the scan caches (no network, fee 0) for it, evaluates its
    symbols with a withdrawal fee of 0, and an opportunity of such a symbol
    carries no network; and, whatever fees the exchanges publish, the
    scan evaluates the same symbols and directions at the same prices and
    amounts. *)
Theorem missing_network_is_costless :
  (forall st, run = Ok st ->
     (forall e, e ∈ evaluations st ->
        Client.find_cheapest_common_network_fee
          (Client.currency_fees ex_a) (Client.currency_fees ex_b) (ev_base e)
        = Ok None ->
        network_fee_cache st !! ev_base e = Some (None, 0) /\
        ev_network e = None /\ ev_withdraw_fee e = 0 /\
        ev_profit e =
          Fees.estimate_fee_aware_profit_pct
            (ev_buy_price e) (ev_sell_price e) (ev_base_amount e)
            (ev_taker_buy e) (ev_taker_sell e) 0 /\
        (min_profit_pct settings <= ev_profit e ->
         opportunity_of ex_a ex_b e ∈ opportunities st)) /\
     (forall o base quote, o ∈ opportunities st ->
        split "/" (symbol o) = [base; quote] ->
        Client.find_cheapest_common_network_fee
          (Client.currency_fees ex_a) (Client.currency_fees ex_b) base
        = Ok None ->
        network o = None)) /\
  (forall ex_a' ex_b',
     Client.id ex_a' = Client.id ex_a ->
     Client.id ex_b' = Client.id ex_b ->
     same_outcome run
       (scan_run settings ex_a' ex_b' markets_a markets_b books_a books_b)).
Proof.
  split.
  - intros st Hrun.
    destruct (scan_run_inv st Hrun) as [Hopps Hprofit _ _ _ Hcache Hev Hbase].
    rewrite Forall_forall in Hprofit, Hev, Hbase.
    assert (forall e, e ∈ evaluations st ->
              Client.find_cheapest_common_network_fee
                (Client.currency_fees ex_a) (Client.currency_fees ex_b)
                (ev_base e) = Ok None ->
              ev_network e = None /\ ev_withdraw_fee e = 0) as Hfree.
    { intros e He Hnone.
      destruct (Hcache _ _ (Hev e He)) as (net & Hnet & Hentry).
      unfold lookup_for in Hnet. rewrite Hnone in Hnet.
      injection Hnet as <-. now injection Hentry as -> ->. }
    split.
    + intros e He Hnone. destruct (Hfree e He Hnone) as [Hn Hf].
      repeat split; try assumption.
      * now rewrite (Hev e He), Hn, Hf.
      * now rewrite (Hprofit e He), Hf.
      * intros Hc. rewrite Hopps. apply list_elem_of_fmap_2.
        now apply list_elem_of_filter.
    + intros o base quote Ho Hsplit Hnone. rewrite Hopps in Ho.
      apply list_elem_of_fmap in Ho as (e & -> & He).
      apply list_elem_of_filter in He as [_ He].
      destruct (Hbase e He) as [q Hs]. cbn in Hsplit. rewrite Hs in Hsplit.
      injection Hsplit as <- <-. now apply Hfree.
  - intros ex_a' ex_b' Ha Hb. unfold scan_run.
    destruct (Client.find_common_symbols _ _ _) as [symbols|]; cbn [bind];
      [|reflexivity].
    destruct (is_nil symbols); [split; reflexivity|].
    apply scan_loop_same_shape; [assumption | assumption | split; reflexivity].
Qed.

End ScanClaims.

(** *** The statements on the small scan *)


Lemma network_fee_looked_up_once_per_base_witness :
  Scanner.scan_run Example.settings Example.binance Example.kucoin
    Example.markets Example.markets
    Example.books_binance Example.books_kucoin = Py.Ok Example.final_state /\
  NoDup (Scanner.lookups Example.final_state).*2 /\
  Forall (fun c => c.1 = Scanner.AtoB) (Scanner.lookups Example.final_state).
Proof.
  assert (Scanner.scan_run Example.settings
            Example.binance Example.kucoin Example.markets Example.markets
            Example.books_binance Example.books_kucoin
          = Py.Ok Example.final_state)
    as Hrun by (vm_compute; reflexivity).
  split; [exact Hrun|].
  destruct (network_fee_looked_up_once_per_base _ _ _ _ _ _ _ _ Hrun)
    as (Hnd & Hfwd & _).
  split; [exact Hnd | exact Hfwd].
Defined.

Lemma missing_network_is_costless_witness :
  Scanner.scan_run Example.settings Example.binance Example.kucoin
    Example.markets Example.markets
    Example.books_binance Example.books_kucoin = Py.Ok Example.final_state /\
  Client.find_cheapest_common_network_fee
    (Client.currency_fees Example.binance)
    (Client.currency_fees Example.kucoin) "ETH" = Py.Ok None /\
  Scanner.network_fee_cache Example.final_state !! "ETH" = Some (None, 0) /\
  Scanner.ev_network Example.last_evaluation = None /\
  Scanner.ev_withdraw_fee Example.last_evaluation = 0 /\
  Spec.opportunity_of Example.binance Example.kucoin Example.last_evaluation
    ∈ Scanner.opportunities Example.final_state.
Proof.
  assert (Scanner.scan_run Example.settings
            Example.binance Example.kucoin Example.markets Example.markets
            Example.books_binance Example.books_kucoin
          = Py.Ok Example.final_state)
    as Hrun by (vm_compute; reflexivity).
  assert (Client.find_cheapest_common_network_fee
            (Client.currency_fees Example.binance)
            (Client.currency_fees Example.kucoin) "ETH" = Py.Ok None)
    as Hnone by (vm_compute; reflexivity).
  split; [exact Hrun|]. split; [exact Hnone|].
  destruct (missing_network_is_costless Example.settings
              Example.binance Example.kucoin Example.markets Example.markets
              Example.books_binance Example.books_kucoin) as [Hfree _].
  destruct (Hfree _ Hrun) as [Hev _].
  destruct (Hev Example.last_evaluation) as (Hc & Hn & Hf & _ & Hopp).
  - apply list_elem_of_lookup. exists 3%nat. reflexivity.
  - exact Hnone.
  - repeat split; try assumption. apply Hopp. vm_compute. discriminate.
Defined.

(** ** Worked examples *)

Section WorkedExamples.
Import Py.

(** Zero fees: buying at 100 and selling at 110 earns 10 percent. *)
Example profit_zero_fees :
  Fees.estimate_fee_aware_profit_pct 100 110 1 0 0 0 == 10.
Proof. vm_compute. reflexivity. Qed.

(** Taker fees of 0.1 percent and a withdrawal fee of 0.01:
    cost 100.1, revenue 108.7911. *)
Example profit_with_fees :
  Fees.estimate_fee_aware_profit_pct 100 110 1 (1 # 1000) (1 # 1000) (1 # 100)
  == ((1087911 # 10000) - (1001 # 10)) / (1001 # 10) * 100.
Proof. vm_compute. reflexivity. Qed.

Example profit_free_purchase :
  Fees.estimate_fee_aware_profit_pct 0 110 1 0 0 0 = -100.
Proof. reflexivity. Qed.

Example vwap_nothing_valid :
  Fees.compute_vwap_for_amount "buy"
    [[Fees.Num 100]; []; [Fees.NotNum; Fees.Num 1]; [Fees.Num 100; Fees.Num 0];
     [Fees.Num (-1); Fees.Num 2]] 1 = None.
Proof. reflexivity. Qed.

Example taker_fee_clamped :
  Client.get_taker_fee_for_market "x" (Client.Market "s" "b" "q" (Some (-1 # 100)) None) = 0 /\
  Client.get_taker_fee_for_market "x" (Client.Market "s" "b" "q" (Some (5 # 100)) None) = 2 # 100 /\
  Client.get_taker_fee_for_market "x" (Client.Market "s" "b" "q" None None) = 1 # 1000.
Proof. repeat split. Qed.

Example fallback_ladders :
  Client.candidates Example.kucoin "timeout" = [Some 20; Some 100]%Z /\
  Client.candidates Example.binance "limit must be one of 5, 100"
    = [Some 20; Some 50; Some 100]%Z /\
  Client.candidates Example.binance "limit too large" = [None] /\
  Client.candidates Example.binance "timeout after 20 s" = [None].
Proof. repeat split. Qed.

(** The two directions of the network-fee lookup may differ; the scan
    uses the first for both. *)
Example lookup_depends_on_direction :
  Client.find_cheapest_common_network_fee
    (Client.currency_fees Example.binance)
    (Client.currency_fees Example.kucoin) "BTC" = Ok (Some ("TRC20", 1 # 10000)) /\
  Client.find_cheapest_common_network_fee
    (Client.currency_fees Example.kucoin)
    (Client.currency_fees Example.binance) "BTC" = Ok (Some ("TRC20", 3 # 10000)) /\
  Scanner.ev_withdraw_fee <$> Scanner.evaluations Example.final_state
    = [1 # 10000; 1 # 10000; 0; 0].
Proof. repeat split. Qed.

End WorkedExamples.

(** ** Batching *)

Section ChunkedFacts.
Import Utils Props.
Context {A : Type}.

Lemma chunked_loop_out (items : list A) chunk_size : forall chunk out,
  chunked_loop items chunk_size chunk out
  = out ++ chunked_loop items chunk_size chunk [].
Proof.
  induction items as [|item rest IH]; intros chunk out; cbn [chunked_loop].
  - destruct chunk; [now rewrite app_nil_r | reflexivity].
  - destruct (_ <=? _)%Z; [|apply IH].
    rewrite IH, (IH [] ([] ++ _)), app_assoc. reflexivity.
Qed.

(** X1. Concatenating the chunks gives the items back, in order, for
    every chunk size (also zero or negative). *)
Theorem chunked_concat (items : list A) (chunk_size : Z) :
  concat (chunked items chunk_size) = items.
Proof.
  unfold chunked.
  enough (forall chunk,
            concat (chunked_loop items chunk_size chunk []) = chunk ++ items)
    as H by apply (H []).
  induction items as [|item rest IH]; intros chunk; cbn [chunked_loop].
  - destruct chunk; [reflexivity|]. cbn. now rewrite !app_nil_r.
  - destruct (_ <=? _)%Z.
    + rewrite chunked_loop_out, concat_app, IH. cbn.
      now rewrite app_nil_r, <- app_assoc.
    + now rewrite IH, <- app_assoc.
Qed.

Lemma chunked_loop_sizes (items : list A) chunk_size : forall chunk,
  (length chunk < chunk_width chunk_size)%nat ->
  let chunks := chunked_loop items chunk_size chunk [] in
  Forall (fun c => (0 < length c <= chunk_width chunk_size)%nat) chunks /\
  (forall i c, chunks !! i = Some c -> (S i < length chunks)%nat ->
     length c = chunk_width chunk_size) /\
  length chunks
  = ((length chunk + length items + chunk_width chunk_size - 1)
       / chunk_width chunk_size)%nat.
Proof.
  unfold chunk_width.
  set (k := Z.to_nat (Z.max 1 chunk_size)).
  assert (1 <= k)%nat as Hk by (unfold k; lia).
  induction items as [|item rest IH]; intros chunk Hlen; cbn [chunked_loop].
  - destruct chunk as [|x chunk]; cbn [length app] in *.
    + repeat split; [constructor | intros i c; now rewrite lookup_nil |].
      cbn. symmetry. apply Nat.div_small. lia.
    + repeat split.
      * constructor; [cbn [length]; lia | constructor].
      * intros i c _ Hi. cbn in Hi. lia.
      * cbn [length]. symmetry.
        replace (S (length chunk) + 0 + k - 1)%nat
          with (S (length chunk) - 1 + 1 * k)%nat by lia.
        rewrite Nat.div_add by lia. rewrite Nat.div_small by lia. reflexivity.
  - destruct (Z.leb_spec chunk_size (Z.of_nat (length (chunk ++ [item]))))
      as [Hfull|Hnot].
    + assert (length (chunk ++ [item]) = k) as Hw.
      { rewrite length_app in *. cbn [length] in *. unfold k in *. lia. }
      rewrite chunked_loop_out. cbn [app].
      destruct (IH []) as (F & L & N); [cbn; lia|].
      repeat split.
      * constructor; [lia | exact F].
      * intros [|i] c Hc Hi; cbn in Hc, Hi.
        -- now injection Hc as <-.
        -- apply (L i c Hc). lia.
      * cbn [length]. rewrite N. rewrite length_app in Hw. cbn [length] in *.
        replace (length chunk + S (length rest) + k - 1)%nat
          with (0 + length rest + k - 1 + 1 * k)%nat by lia.
        now rewrite Nat.div_add by lia; lia.
    + destruct (IH (chunk ++ [item])) as (F & L & N).
      { rewrite length_app in *. cbn [length] in *. unfold k in *. lia. }
      repeat split; try assumption.
      rewrite N, length_app. cbn [length]. f_equal. lia.
Qed.

(** X2. Every chunk is non-empty and at most [max(1, chunk_size)] long,
    every chunk but the last is exactly that long, and there are
    [ceil(len(items) / max(1, chunk_size))] chunks. *)
Theorem chunked_sizes (items : list A) (chunk_size : Z) :
  Forall (fun c => (0 < length c <= chunk_width chunk_size)%nat)
    (chunked items chunk_size) /\
  (forall i c, chunked items chunk_size !! i = Some c ->
     (S i < length (chunked items chunk_size))%nat ->
     length c = chunk_width chunk_size) /\
  length (chunked items chunk_size)
  = ((length items + chunk_width chunk_size - 1) / chunk_width chunk_size)%nat.
Proof.
  unfold chunked.
  destruct (chunked_loop_sizes items chunk_size []) as (F & L & N).
  - unfold chunk_width. cbn. lia.
  - repeat split; [exact F | exact L | exact N].
Qed.

End ChunkedFacts.

(** ** More on the VWAP fill and on the profit estimate *)

Section FeesMore.
Import Fees Spec.

Lemma takes_quote_between vl : forall rem lo hi,
  0 < rem ->
  Forall (fun pa => 0 < fst pa /\ 0 < snd pa) vl ->
  Forall (fun pa => lo <= fst pa /\ fst pa <= hi) vl ->
  lo * sum_filled (takes rem vl) <= sum_quote (takes rem vl) /\
  sum_quote (takes rem vl) <= hi * sum_filled (takes rem vl).
Proof.
  pose proof fill_tol_pos as Htol.
  induction vl as [|[price amount] rest IH]; intros rem lo hi Hrem Hpos Hbnd.
  - change (takes rem []) with (@nil (Q * Q)).
    change (sum_filled []) with 0. change (sum_quote []) with 0. lra.
  - inversion Hpos as [|? ? [Hp Ha] Hpos']; subst.
    inversion Hbnd as [|? ? [Hlo Hhi] Hbnd']; subst.
    cbn [fst snd] in *. cbn [takes].
    rewrite sum_filled_cons, sum_quote_cons.
    assert (0 < Qmin rem amount) as Ht by (apply Q.min_glb_lt; assumption).
    set (t := Qmin rem amount) in *.
    assert (lo * t <= t * price /\ t * price <= hi * t) as [L1 L2].
    { split.
      - rewrite (Qmult_comm lo t). apply Qmult_le_l; assumption.
      - rewrite (Qmult_comm hi t). apply Qmult_le_l; assumption. }
    destruct (Qlt_le_dec fill_tol (rem - t)) as [H|H].
    + destruct (IH (rem - t) lo hi) as [I1 I2]; try assumption; [lra|].
      split; [rewrite Qmult_plus_distr_r | rewrite Qmult_plus_distr_r]; lra.
    + change (sum_filled []) with 0. change (sum_quote []) with 0.
      split; [rewrite Qmult_plus_distr_r | rewrite Qmult_plus_distr_r]; lra.
Qed.

Lemma compute_vwap_some (side : string) levels amount_base avg_price fill_amount :
  compute_vwap_for_amount side levels amount_base
    = Some (avg_price, fill_amount) ->
  0 < amount_base /\
  0 < sum_filled (takes amount_base (valid_levels levels)) /\
  fill_amount == sum_filled (takes amount_base (valid_levels levels)) /\
  avg_price == sum_quote (takes amount_base (valid_levels levels))
               / sum_filled (takes amount_base (valid_levels levels)).
Proof.
  intros Hres.
  pose proof (compute_vwap_refines side levels amount_base) as Href.
  rewrite Hres in Href. unfold vwap_spec in Href.
  destruct (Qlt_le_dec 0 amount_base) as [Hpos|?]; [|contradiction].
  cbn zeta in Href.
  destruct (Qlt_le_dec 0 (sum_filled _)) as [Hf|?]; [|contradiction].
  destruct Href as [Hp Hfe]. now repeat split.
Qed.

(** X3. The average price of a fill lies between the lowest and the
    highest price of the valid levels of the book. *)
Theorem vwap_price_between_level_prices
    (side : string) levels amount_base avg_price fill_amount lo hi :
  compute_vwap_for_amount side levels amount_base
    = Some (avg_price, fill_amount) ->
  Forall (fun pa => lo <= fst pa /\ fst pa <= hi) (valid_levels levels) ->
  lo <= avg_price /\ avg_price <= hi.
Proof.
  intros Hres Hbnd.
  destruct (compute_vwap_some _ _ _ _ _ Hres) as (Hpos & Hf & _ & ->).
  destruct (takes_quote_between _ _ lo hi Hpos
              (valid_levels_positive levels) Hbnd) as [L H].
  split.
  - apply Qle_shift_div_l; assumption.
  - apply Qle_shift_div_r; assumption.
Qed.

Lemma vwap_price_between_level_prices_witness :
  100 <= (602 # 6) /\ (602 # 6) <= 101.
Proof.
  apply (vwap_price_between_level_prices "buy"
           [[Num 100; Num 1]; [Num 101; Num 2]] (3 # 2) (602 # 6) (3 # 2)).
  - vm_compute. reflexivity.
  - repeat constructor; cbn; lra.
Defined.

(** X4. Over exact arithmetic (floats as exact rationals), a request
    that the first valid level can serve alone is filled in full at that
    level's price. *)
Theorem vwap_within_top_of_book
    (side : string) levels amount_base price amount rest :
  valid_levels levels = (price, amount) :: rest ->
  0 < amount_base -> amount_base <= amount ->
  vwap_equiv (compute_vwap_for_amount side levels amount_base)
             (Some (price, amount_base)).
Proof.
  intros Hvl Hpos Hle.
  pose proof (compute_vwap_refines side levels amount_base) as Href.
  unfold vwap_spec in Href. rewrite Hvl in Href.
  destruct (Qlt_le_dec 0 amount_base) as [_|?]; [|lra].
  cbn [takes] in Href.
  assert (Qmin amount_base amount = amount_base) as Hmin.
  { unfold Qmin, GenericMinMax.gmin.
    destruct (amount_base ?= amount) eqn:C; try reflexivity.
    apply Qgt_alt in C. lra. }
  rewrite Hmin in Href.
  destruct (Qlt_le_dec fill_tol (amount_base - amount_base)) as [H|_].
  { pose proof fill_tol_pos. lra. }
  rewrite sum_filled_cons, sum_quote_cons in Href.
  change (sum_filled []) with 0 in Href. change (sum_quote []) with 0 in Href.
  cbn zeta in Href.
  destruct (Qlt_le_dec 0 (amount_base + 0)) as [_|?]; [|lra].
  destruct (compute_vwap_for_amount side levels amount_base) as [[p f]|];
    [|contradiction].
  destruct Href as [Hp Hf]. split; [|lra].
  rewrite Hp. field. lra.
Qed.

Lemma vwap_within_top_of_book_witness :
  vwap_equiv
    (compute_vwap_for_amount "buy" [[NotNum]; [Num 100; Num 2]; [Num 101; Num 2]]
       (3 # 2))
    (Some (100, 3 # 2)).
Proof.
  apply (vwap_within_top_of_book "buy"
           [[NotNum]; [Num 100; Num 2]; [Num 101; Num 2]] (3 # 2) 100 2
           [(101, 2)]).
  - vm_compute. reflexivity.
  - reflexivity.
  - vm_compute. discriminate.
Defined.

End FeesMore.

Section ProfitMore.
Import Fees.

Lemma max0_nonneg x : 0 <= max0 x.
Proof. unfold max0. destruct (Qlt_le_dec 0 x); lra. Qed.

Lemma max0_mono x y : x <= y -> max0 x <= max0 y.
Proof. unfold max0. intros H. destruct (Qlt_le_dec 0 x), (Qlt_le_dec 0 y); lra. Qed.

(** The estimate in terms of cost and revenue, when the cost is positive. *)
Lemma estimate_positive_cost
    (buy_price sell_price base_amount
     taker_fee_buy taker_fee_sell withdraw_fee_base : Q) :
  0 < base_amount * buy_price * (1 + taker_fee_buy) ->
  estimate_fee_aware_profit_pct buy_price sell_price base_amount
    taker_fee_buy taker_fee_sell withdraw_fee_base
  = (max0 (base_amount - withdraw_fee_base) * sell_price * (1 - taker_fee_sell)
     - base_amount * buy_price * (1 + taker_fee_buy))
    / (base_amount * buy_price * (1 + taker_fee_buy)) * 100.
Proof.
  intros Hc. unfold estimate_fee_aware_profit_pct.
  destruct (Qle_bool _ 0) eqn:E; [|reflexivity].
  apply Qle_bool_iff in E. lra.
Qed.

Lemma estimate_nonpositive_cost
    (buy_price sell_price base_amount
     taker_fee_buy taker_fee_sell withdraw_fee_base : Q) :
  base_amount * buy_price * (1 + taker_fee_buy) <= 0 ->
  estimate_fee_aware_profit_pct buy_price sell_price base_amount
    taker_fee_buy taker_fee_sell withdraw_fee_base = -100.
Proof.
  intros Hc. unfold estimate_fee_aware_profit_pct.
  apply Qle_bool_iff in Hc. now rewrite Hc.
Qed.

(** [(r - c) / c * 100] against a bound, for a positive [c]. *)
Lemma pct_ge_iff r c m :
  0 < c -> (m <= (r - c) / c * 100 <-> c * (1 + m / 100) <= r).
Proof.
  intros Hc.
  assert ((r - c) / c * 100 == (r / c - 1) * 100) as -> by (field; lra).
  assert (m / 100 == m * (1 # 100)) as -> by (field; lra).
  assert (c * (r / c) == r) as E by (field; lra).
  set (q := r / c) in *.
  split; intros H.
  - assert (1 + m * (1 # 100) <= q) as H' by lra.
    apply (proj2 (Qmult_le_l _ _ c Hc)) in H'. lra.
  - assert (c * (1 + m * (1 # 100)) <= c * q) as H' by lra.
    apply (proj1 (Qmult_le_l _ _ c Hc)) in H'. lra.
Qed.

(** X5. With a non-negative sell price and a sell fee of at most 100
    percent the estimate is never below -100; a withdrawal fee that eats
    the whole amount gives exactly -100. *)
Theorem profit_bounded_below
    (buy_price sell_price base_amount
     taker_fee_buy taker_fee_sell withdraw_fee_base : Q) :
  (0 <= sell_price -> taker_fee_sell <= 1 ->
   -100 <= estimate_fee_aware_profit_pct buy_price sell_price base_amount
             taker_fee_buy taker_fee_sell withdraw_fee_base) /\
  (base_amount <= withdraw_fee_base ->
   estimate_fee_aware_profit_pct buy_price sell_price base_amount
     taker_fee_buy taker_fee_sell withdraw_fee_base == -100).
Proof.
  destruct (Qlt_le_dec 0 (base_amount * buy_price * (1 + taker_fee_buy)))
    as [Hc|Hc].
  - rewrite (estimate_positive_cost _ _ _ _ _ _ Hc). split.
    + intros Hs Hf. apply pct_ge_iff; [exact Hc|].
      pose proof (max0_nonneg (base_amount - withdraw_fee_base)) as Hn.
      assert (0 <= max0 (base_amount - withdraw_fee_base) * sell_price)
        by (apply Qmult_le_0_compat; assumption).
      assert (0 <= max0 (base_amount - withdraw_fee_base) * sell_price
                   * (1 - taker_fee_sell))
        by (apply Qmult_le_0_compat; [assumption | lra]).
      set (c := base_amount * buy_price * (1 + taker_fee_buy)) in *.
      assert (c * (1 + -100 / 100) == 0) as -> by (field; lra).
      assumption.
    + intros Hw. unfold max0.
      destruct (Qlt_le_dec 0 (base_amount - withdraw_fee_base)); [lra|].
      set (c := base_amount * buy_price * (1 + taker_fee_buy)) in *.
      field. lra.
  - rewrite (estimate_nonpositive_cost _ _ _ _ _ _ Hc). split; intros; lra.
Qed.

(** X6. A higher withdrawal fee never raises the estimate (non-negative
    sell price, sell fee of at most 100 percent). *)
Theorem profit_antitone_in_withdraw_fee
    (buy_price sell_price base_amount
     taker_fee_buy taker_fee_sell fee fee' : Q) :
  0 <= sell_price -> taker_fee_sell <= 1 -> fee <= fee' ->
  estimate_fee_aware_profit_pct buy_price sell_price base_amount
    taker_fee_buy taker_fee_sell fee'
  <= estimate_fee_aware_profit_pct buy_price sell_price base_amount
       taker_fee_buy taker_fee_sell fee.
Proof.
  intros Hs Hf Hle.
  destruct (Qlt_le_dec 0 (base_amount * buy_price * (1 + taker_fee_buy)))
    as [Hc|Hc].
  - rewrite !(estimate_positive_cost _ _ _ _ _ _ Hc).
    apply pct_ge_iff; [exact Hc|].
    set (c := base_amount * buy_price * (1 + taker_fee_buy)) in *.
    set (r' := max0 (base_amount - fee') * sell_price * (1 - taker_fee_sell)).
    assert (c * (1 + (r' - c) / c * 100 / 100) == r') as -> by (field; lra).
    unfold r'. apply Qmult_le_compat_r; [|lra].
    apply Qmult_le_compat_r; [|exact Hs].
    apply max0_mono. lra.
  - rewrite !(estimate_nonpositive_cost _ _ _ _ _ _ Hc). lra.
Qed.

Lemma profit_antitone_in_withdraw_fee_witness :
  estimate_fee_aware_profit_pct 100 110 1 (1 # 1000) (1 # 1000) (1 # 100)
  <= estimate_fee_aware_profit_pct 100 110 1 (1 # 1000) (1 # 1000) 0.
Proof.
  apply profit_antitone_in_withdraw_fee; vm_compute; discriminate.
Defined.

(** X7. Over exact arithmetic (floats as exact rationals) and for a
    positive cost, the estimate reaches a threshold [m] exactly when the
    revenue after fees covers the cost increased by [m] percent. *)
Theorem profit_reaches_threshold_iff
    (buy_price sell_price base_amount
     taker_fee_buy taker_fee_sell withdraw_fee_base m : Q) :
  0 < base_amount * buy_price * (1 + taker_fee_buy) ->
  (m <= estimate_fee_aware_profit_pct buy_price sell_price base_amount
          taker_fee_buy taker_fee_sell withdraw_fee_base
   <->
   base_amount * buy_price * (1 + taker_fee_buy) * (1 + m / 100)
   <= max0 (base_amount - withdraw_fee_base) * sell_price
      * (1 - taker_fee_sell)).
Proof.
  intros Hc. rewrite (estimate_positive_cost _ _ _ _ _ _ Hc).
  now apply pct_ge_iff.
Qed.

Lemma profit_reaches_threshold_iff_witness :
  (1 # 2) <= estimate_fee_aware_profit_pct 100 110 1 0 0 0 <->
  1 * 100 * (1 + 0) * (1 + (1 # 2) / 100) <= max0 (1 - 0) * 110 * (1 - 0).
Proof.
  apply (profit_reaches_threshold_iff 100 110 1 0 0 0 (1 # 2)).
  reflexivity.
Defined.

(** X8. Over exact arithmetic (floats as exact rationals) and without a
    withdrawal fee, the estimate does not depend on the amount traded. *)
Theorem profit_independent_of_amount
    (buy_price sell_price amount amount' taker_fee_buy taker_fee_sell : Q) :
  0 < amount -> 0 < amount' -> 0 < buy_price * (1 + taker_fee_buy) ->
  estimate_fee_aware_profit_pct buy_price sell_price amount
    taker_fee_buy taker_fee_sell 0
  == estimate_fee_aware_profit_pct buy_price sell_price amount'
       taker_fee_buy taker_fee_sell 0.
Proof.
  intros Ha Ha' Hb.
  assert (forall a, 0 < a ->
            estimate_fee_aware_profit_pct buy_price sell_price a
              taker_fee_buy taker_fee_sell 0
            == (sell_price * (1 - taker_fee_sell)
                / (buy_price * (1 + taker_fee_buy)) - 1) * 100) as Heq.
  { intros a Hpos.
    assert (0 < a * buy_price * (1 + taker_fee_buy)) as Hc.
    { rewrite <- Qmult_assoc. apply Qmult_lt_0_compat; assumption. }
    rewrite (estimate_positive_cost _ _ _ _ _ _ Hc). unfold max0.
    destruct (Qlt_le_dec 0 (a - 0)); [|lra].
    assert (~ buy_price == 0) as Hb1
      by (intros E; rewrite E, Qmult_0_l in Hb; lra).
    assert (~ 1 + taker_fee_buy == 0) as Hb2
      by (intros E; rewrite E, Qmult_0_r in Hb; lra).
    field. repeat split; try assumption; lra. }
  now rewrite (Heq _ Ha), (Heq _ Ha').
Qed.

Lemma profit_independent_of_amount_witness :
  estimate_fee_aware_profit_pct 100 110 1 (1 # 1000) (1 # 1000) 0
  == estimate_fee_aware_profit_pct 100 110 7 (1 # 1000) (1 # 1000) 0.
Proof.
  apply profit_independent_of_amount; reflexivity.
Defined.

End ProfitMore.

(** ** More on the exchange connector *)

Section ClientMore.
Import Py Client Spec.

(** X9. The taker fee used is always within [0, 0.02]; a published rate
    within that range is used as it is, and a market without a rate gets
    0.001.  The exchange identifier plays no part. *)
Theorem taker_fee_within_bounds (exchange_id : string) (m : market) :
  0 <= get_taker_fee_for_market exchange_id m /\
  get_taker_fee_for_market exchange_id m <= 2 # 100 /\
  (forall rate, taker m = Some rate -> 0 <= rate -> rate <= 2 # 100 ->
     get_taker_fee_for_market exchange_id m = rate) /\
  (forall rate, taker m = Some rate -> rate < 0 ->
     get_taker_fee_for_market exchange_id m = 0) /\
  (forall rate, taker m = Some rate -> 2 # 100 < rate ->
     get_taker_fee_for_market exchange_id m = 2 # 100) /\
  (taker m = None -> get_taker_fee_for_market exchange_id m = 1 # 1000).
Proof.
  unfold get_taker_fee_for_market.
  destruct (taker m) as [rate|].
  - change (default (1 # 1000) (Some rate)) with rate.
    destruct (Qlt_le_dec rate 0) as [H0|H0].
    + destruct (Qlt_le_dec (2 # 100) 0) as [H|H]; [lra|].
      repeat split; try lra; try discriminate.
      * intros r [= <-] ? ?. lra.
      * intros r [= <-] ?. lra.
    + destruct (Qlt_le_dec (2 # 100) rate) as [H|H].
      * repeat split; try lra; try discriminate.
        -- intros r [= <-] ? ?. lra.
        -- intros r [= <-] ?. lra.
      * repeat split; try lra; try discriminate.
        -- now intros r [= <-] ? ?.
        -- intros r [= <-] ?. lra.
        -- intros r [= <-] ?. lra.
  - change (default (1 # 1000) None) with (1 # 1000).
    destruct (Qlt_le_dec (1 # 1000) 0) as [H|H]; [lra|].
    destruct (Qlt_le_dec (2 # 100) (1 # 1000)) as [H'|H']; [lra|].
    repeat split; try lra; discriminate.
Qed.

Lemma split_nonempty sep s : split sep s <> [].
Proof.
  destruct s as [|c s]; cbn; [discriminate|].
  destruct (Ascii.eqb c sep); [discriminate|].
  destruct (split sep s); discriminate.
Qed.

(** A rendered symbol always splits into at least two parts. *)
Lemma split_render_two b q :
  exists h1 h2 t, split "/" (render (b, q)) = h1 :: h2 :: t.
Proof.
  unfold render. cbn [fst snd].
  induction b as [|c b IH].
  - change ("" +:+ String "/" q) with (String "/" q). cbn [split].
    rewrite Ascii.eqb_refl.
    destruct (split "/" q) as [|h t] eqn:E; [now apply split_nonempty in E|].
    eauto.
  - change (String c b +:+ String "/" q) with (String c (b +:+ String "/" q)).
    cbn [split]. destruct IH as (h1 & h2 & t & ->).
    destruct (Ascii.eqb c "/"); eauto.
Qed.

Lemma filter_result_total quotes (l : list (string * string)) :
  exists kept,
    filter_result (quote_in quotes) (render <$> l) = Ok kept /\
    forall s, s ∈ kept -> s ∈ render <$> l.
Proof.
  induction l as [|[b q] l (kept & IH & Hsub)].
  - exists []. split; [reflexivity|]. intros s Hs. now apply elem_of_nil in Hs.
  - cbn [fmap list_fmap filter_result]. unfold quote_in at 1.
    destruct (split_render_two b q) as (h1 & h2 & t & ->). cbn [lookup list_lookup bind].
    change (list_fmap _ _ render l) with (render <$> l). rewrite IH. cbn [bind].
    eexists. split; [reflexivity|]. intros s Hs.
    destruct (bool_decide _).
    + apply elem_of_cons in Hs as [->|Hs]; [left | right; now apply Hsub].
    + right. now apply Hsub.
Qed.

(** X10. [find_common_symbols] never raises; its result is in ascending
    order, every symbol in it renders a pair that is on an active market
    of both lists, and exchanging the two lists does not change it. *)
Theorem find_common_symbols_total
    (markets_a markets_b : list market) (preferred_quotes : option (list string)) :
  (exists symbols,
     find_common_symbols markets_a markets_b preferred_quotes = Ok symbols /\
     Sorted (fun s1 s2 => String.leb s1 s2 = true) symbols /\
     forall s, s ∈ symbols ->
       exists bq, s = render bq /\
         (exists m, m ∈ markets_a /\ is_active m = true /\ (base m, quote m) = bq) /\
         (exists m, m ∈ markets_b /\ is_active m = true /\ (base m, quote m) = bq)) /\
  find_common_symbols markets_a markets_b preferred_quotes
  = find_common_symbols markets_b markets_a preferred_quotes.
Proof.
  split.
  - unfold find_common_symbols.
    set (common := pairs_of markets_a ∩ pairs_of markets_b).
    assert (forall s, s ∈ render <$> elements common ->
              exists bq, s = render bq /\
                (exists m, m ∈ markets_a /\ is_active m = true /\ (base m, quote m) = bq) /\
                (exists m, m ∈ markets_b /\ is_active m = true /\ (base m, quote m) = bq))
      as Hsound.
    { intros s Hs. apply list_elem_of_fmap in Hs as (bq & -> & Hbq).
      exists bq. split; [reflexivity|]. unfold common in Hbq.
      now rewrite elem_of_elements, elem_of_intersection, !elem_of_pairs_of in Hbq. }
    destruct (truthy preferred_quotes).
    + destruct (filter_result_total
                  (list_to_set (upper <$> default [] preferred_quotes))
                  (elements common)) as (kept & -> & Hsub).
      cbn [bind]. eexists. split; [reflexivity|]. split.
      * apply sort_sorted, String.leb_total.
      * intros s Hs. rewrite sort_perm in Hs. now apply Hsound, Hsub.
    + cbn [bind]. eexists. split; [reflexivity|]. split.
      * apply sort_sorted, String.leb_total.
      * intros s Hs. rewrite sort_perm in Hs. now apply Hsound.
  - unfold find_common_symbols.
    now rewrite (comm_L (∩) (pairs_of markets_a) (pairs_of markets_b)).
Qed.

Lemma try_candidates_agree ex ex' symbol cands : forall n,
  (forall k lim, (k < length cands)%nat ->
     fetch_order_book ex (n + k) symbol lim
     = fetch_order_book ex' (n + k) symbol lim) ->
  try_candidates ex n symbol cands = try_candidates ex' n symbol cands.
Proof.
  induction cands as [|cand rest IH]; intros n Hagree; [reflexivity|].
  cbn [try_candidates].
  assert (fetch_order_book ex n symbol cand
          = fetch_order_book ex' n symbol cand) as <-.
  { rewrite <- (Nat.add_0_r n). apply Hagree. cbn. lia. }
  destruct (fetch_order_book ex n symbol cand); [reflexivity|].
  apply IH. intros k lim Hk.
  replace (S n + k)%nat with (n + S k)%nat by lia.
  apply Hagree. cbn. lia.
Qed.

Lemma candidates_length ex msg : (length (candidates ex msg) <= 3)%nat.
Proof.
  unfold candidates.
  destruct (bool_decide _); [cbn; lia|].
  destruct (_ && _); cbn; lia.
Qed.

(** X11. [fetch_order_book_safe] sends at most four requests: its result
    is settled by the exchange identifier and the answers to the requests
    numbered [n] to [n + 3]. *)
Theorem fetch_order_book_safe_four_requests
    (ex ex' : exchange) (n : nat) (symbol : string) (limit : Z) :
  id ex = id ex' ->
  (forall k lim, (k < 4)%nat ->
     fetch_order_book ex (n + k) symbol lim
     = fetch_order_book ex' (n + k) symbol lim) ->
  fetch_order_book_safe ex n symbol limit
  = fetch_order_book_safe ex' n symbol limit.
Proof.
  intros Hid Hagree. unfold fetch_order_book_safe.
  assert (fetch_order_book ex n symbol (Some limit)
          = fetch_order_book ex' n symbol (Some limit)) as <-.
  { rewrite <- (Nat.add_0_r n). apply Hagree. lia. }
  destruct (fetch_order_book ex n symbol (Some limit)) as [ob|exc1];
    [reflexivity|].
  assert (candidates ex' (exn_msg exc1) = candidates ex (exn_msg exc1)) as ->
    by (unfold candidates; now rewrite Hid).
  apply try_candidates_agree. intros k lim Hk.
  pose proof (candidates_length ex (exn_msg exc1)).
  replace (S n + k)%nat with (n + S k)%nat by lia.
  apply Hagree. lia.
Qed.

End ClientMore.

(** ** More on the cache *)

Section CacheMore.
Import Py Cache.
Context {value : Type}.
Variable dumps : value -> string.
Variable loads : string -> result value.

(** X12. Writing one key leaves the reading of every other key as it
    was. *)
Theorem set_json_other_key
    (db : gmap string row) (t_w t_r : Z) (key key' : string) (val : value)
    (ttl : option Z) :
  key <> key' ->
  get_json loads (set_json dumps db t_w key val) t_r key' ttl
  = get_json loads db t_r key' ttl.
Proof.
  intros Hne. unfold get_json, set_json.
  now rewrite lookup_insert_ne.
Qed.

(** X13. What a read returns under a ttl it also returns under every
    larger ttl and without ttl. *)
Theorem get_json_longer_ttl
    (db : gmap string row) (now : Z) (key : string) (ttl ttl' : Z)
    (val : value) :
  get_json loads db now key (Some ttl) = Ok (Some val) ->
  (ttl <= ttl')%Z ->
  get_json loads db now key (Some ttl') = Ok (Some val) /\
  get_json loads db now key None = Ok (Some val).
Proof.
  unfold get_json. destruct (db !! key) as [r|]; [|discriminate].
  destruct (Z.ltb_spec ttl (now - updated_at r)); [discriminate|].
  intros Hval Hle.
  destruct (Z.ltb_spec ttl' (now - updated_at r)); [lia|].
  now split.
Qed.

(** X14. A stored payload that does not decode makes the read raise while
    the row is fresh, and reads as no value once the row has expired: the
    age is checked before the payload is decoded. *)
Theorem get_json_undecodable
    (db : gmap string row) (now : Z) (key : string) (r : row) (e : exn) :
  db !! key = Some r ->
  loads (v r) = Raise e ->
  get_json loads db now key None = Raise e /\
  (forall ttl, (now - updated_at r <= ttl)%Z ->
     get_json loads db now key (Some ttl) = Raise e) /\
  (forall ttl, (ttl < now - updated_at r)%Z ->
     get_json loads db now key (Some ttl) = Ok None).
Proof.
  intros Hrow Hbad. unfold get_json. rewrite Hrow, Hbad. repeat split.
  - intros ttl Hle. destruct (Z.ltb_spec ttl (now - updated_at r)); [lia|].
    reflexivity.
  - intros ttl Hlt. destruct (Z.ltb_spec ttl (now - updated_at r)); [|lia].
    reflexivity.
Qed.

End CacheMore.

Lemma set_json_other_key_witness :
  Cache.get_json Example.loads_bool
    (Cache.set_json Example.dumps_bool ∅ 1000 "markets:binance" true)
    1060 "markets:kucoin" None = Py.Ok None.
Proof.
  rewrite (set_json_other_key Example.dumps_bool Example.loads_bool
             ∅ 1000 1060 "markets:binance" "markets:kucoin" true None).
  - reflexivity.
  - discriminate.
Defined.

Lemma get_json_longer_ttl_witness :
  Cache.get_json Example.loads_bool
    (Cache.set_json Example.dumps_bool ∅ 1000 "k" true)
    1060 "k" (Some 86400%Z) = Py.Ok (Some true) /\
  Cache.get_json Example.loads_bool
    (Cache.set_json Example.dumps_bool ∅ 1000 "k" true)
    1060 "k" None = Py.Ok (Some true).
Proof.
  apply (get_json_longer_ttl Example.loads_bool
           (Cache.set_json Example.dumps_bool ∅ 1000 "k" true)
           1060 "k" 60 86400 true).
  - reflexivity.
  - lia.
Defined.

Lemma get_json_undecodable_witness :
  Cache.get_json Example.loads_bool {[ "k" := Cache.Row "tru" 1000 ]}
    1060 "k" None
  = Py.Raise (Py.Exn "JSONDecodeError" "tru") /\
  (forall ttl, (1060 - 1000 <= ttl)%Z ->
     Cache.get_json Example.loads_bool {[ "k" := Cache.Row "tru" 1000 ]}
       1060 "k" (Some ttl)
     = Py.Raise (Py.Exn "JSONDecodeError" "tru")) /\
  (forall ttl, (ttl < 1060 - 1000)%Z ->
     Cache.get_json Example.loads_bool {[ "k" := Cache.Row "tru" 1000 ]}
       1060 "k" (Some ttl) = Py.Ok None).
Proof.
  apply (get_json_undecodable Example.loads_bool
           {[ "k" := Cache.Row "tru" 1000 ]} 1060 "k"
           (Cache.Row "tru" 1000) (Py.Exn "JSONDecodeError" "tru")).
  - reflexivity.
  - reflexivity.
Defined.

(** ** Market loading *)

Section MarketsFacts.
Import Py Markets.
Variable dumps : list Client.market -> string.
Variable loads : string -> result (list Client.market).

Lemma market_key_inj id1 id2 : market_key id1 = market_key id2 -> id1 = id2.
Proof. unfold market_key. intros H. cbv in H. now injection H. Qed.

(** X15. Saving the markets of one exchange leaves the cached markets of
    every other exchange as they were. *)
Theorem save_markets_other_exchange
    (db : gmap string Cache.row) (t_w t_r : Z) (id1 id2 : string)
    (markets : list Client.market) (ttl : Z) :
  id1 <> id2 ->
  load_cached_markets loads (save_markets dumps db t_w id1 markets) t_r id2 ttl
  = load_cached_markets loads db t_r id2 ttl.
Proof.
  intros Hne. unfold load_cached_markets, save_markets, Cache.get_json,
    Cache.set_json.
  rewrite lookup_insert_ne; [reflexivity|].
  intros E. now apply market_key_inj in E.
Qed.

Lemma normalize_markets_kept fallback raws : forall markets,
  normalize_markets fallback raws = Ok markets ->
  Client.symbol <$> markets
  = raw_symbol <$> filter (fun r => spot_or_unspecified r = true /\
                                    explicitly_inactive r = false) raws /\
  (forall bq, bq ∈ Client.pairs_of markets <->
     exists r, r ∈ raws /\ spot_or_unspecified r = true /\
       (raw_active r = Absent \/ raw_active r = Val true) /\
       (raw_base r, raw_quote r) = bq) /\
  Forall (fun m => is_Some (Client.taker m) /\ is_Some (Client.active m))
    markets.
Proof.
  induction raws as [|r rest IH]; intros markets; cbn [normalize_markets].
  - intros [= <-]. repeat split; [|intros (r & Hr & _); now apply elem_of_nil in Hr|constructor].
    intros Hbq. apply elem_of_pairs_of in Hbq as (m & Hm & _).
    now apply elem_of_nil in Hm.
  - rewrite filter_cons.
    destruct (spot_or_unspecified r) eqn:Hspot; cbn [negb].
    2:{ intros H. destruct (IH _ H) as (I1 & I2 & I3).
        destruct (decide _) as [[? _]|_]; [discriminate|].
        repeat split; [exact I1 | | | exact I3].
        - intros Hbq. apply I2 in Hbq as (r' & Hr' & Hrest).
          exists r'. split; [now right | exact Hrest].
        - intros (r' & Hr' & Hs & Hrest).
          apply elem_of_cons in Hr' as [->|Hr']; [congruence|].
          apply I2. eauto. }
    destruct (explicitly_inactive r) eqn:Hin.
    { intros H. destruct (IH _ H) as (I1 & I2 & I3).
      destruct (decide _) as [[_ ?]|_]; [discriminate|].
      repeat split; [exact I1 | | | exact I3].
      - intros Hbq. apply I2 in Hbq as (r' & Hr' & Hrest).
        exists r'. split; [now right | exact Hrest].
      - intros (r' & Hr' & Hs & Ha & Hbq).
        apply elem_of_cons in Hr' as [->|Hr'].
        + unfold explicitly_inactive in Hin.
          destruct Ha as [Ha|Ha]; rewrite Ha in Hin; discriminate.
        + apply I2. eauto. }
    destruct (market_taker fallback r) as [t|]; cbn [bind]; [|discriminate].
    destruct (normalize_markets fallback rest) as [ms|]; cbn [bind];
      [|discriminate].
    intros [= <-]. destruct (IH _ eq_refl) as (I1 & I2 & I3).
    destruct (decide _) as [_|Hn]; [|exfalso; apply Hn; now split].
    repeat split.
    + cbn. now rewrite <- I1.
    + intros Hbq. apply elem_of_pairs_of in Hbq as (m & Hm & Hact & Hpair).
      apply elem_of_cons in Hm as [->|Hm].
      * exists r. split; [left|]. split; [exact Hspot|]. split; [|exact Hpair].
        unfold Client.is_active in Hact. cbn in Hact. unfold active_flag in Hact.
        unfold explicitly_inactive in Hin.
        destruct (raw_active r) as [| |[|]]; auto; discriminate.
      * assert (bq ∈ Client.pairs_of ms) as Hin'
          by (apply elem_of_pairs_of; eauto).
        apply I2 in Hin' as (r' & Hr' & Hrest).
        exists r'. split; [now right | exact Hrest].
    + intros (r' & Hr' & Hs & Ha & Hbq). apply elem_of_pairs_of.
      apply elem_of_cons in Hr' as [->|Hr'].
      * eexists. split; [left|]. split; [|exact Hbq].
        unfold Client.is_active. cbn. unfold active_flag.
        destruct Ha as [-> | ->]; reflexivity.
      * assert (bq ∈ Client.pairs_of ms) as Hin' by (apply I2; eauto).
        apply elem_of_pairs_of in Hin' as (m & Hm & Hrest).
        exists m. split; [now right | exact Hrest].
    + constructor; [cbn; eauto | exact I3].
Qed.

(** X16. On a cache miss, [load_all_markets] returns, in the exchange's
    order, the markets that are spot (or say nothing about it) and not
    explicitly inactive, each with a taker rate and an active flag, and
    stores them under the exchange's key with the time of writing.  A
    market whose active entry is null is returned and stored, but flagged
    inactive: [find_common_symbols] sees only the markets whose active
    entry is missing or true. *)
Theorem load_all_markets_on_miss
    (ex : Client.exchange) (raws : list raw_market) (fallback : field Q)
    (db db' : gmap string Cache.row) (t_read t_write ttl : Z)
    (markets : list Client.market) :
  load_cached_markets loads db t_read (Client.id ex) ttl = Ok None ->
  load_all_markets dumps loads ex (Ok raws) fallback db t_read t_write ttl
    = Ok (markets, db') ->
  Client.symbol <$> markets
  = raw_symbol <$> filter (fun r => spot_or_unspecified r = true /\
                                    explicitly_inactive r = false) raws /\
  (forall bq, bq ∈ Client.pairs_of markets <->
     exists r, r ∈ raws /\ spot_or_unspecified r = true /\
       (raw_active r = Absent \/ raw_active r = Val true) /\
       (raw_base r, raw_quote r) = bq) /\
  Forall (fun m => is_Some (Client.taker m) /\ is_Some (Client.active m))
    markets /\
  db' = <[market_key (Client.id ex) := Cache.Row (dumps markets) t_write]> db.
Proof.
  intros Hmiss. unfold load_all_markets. rewrite Hmiss. cbn [bind].
  destruct (normalize_markets fallback raws) as [ms|] eqn:Hn; cbn [bind];
    [|discriminate].
  intros [= <- <-].
  destruct (normalize_markets_kept _ _ _ Hn) as (K1 & K2 & K3).
  repeat split; try assumption; apply K2.
Qed.

(** X17. After a load that missed the cache, a second load within the
    ttl returns the same markets from the cache, whatever the exchange
    would answer now, and leaves the store as it is. *)
Theorem load_all_markets_twice
    (ex : Client.exchange) (answer answer' : result (list raw_market))
    (fallback fallback' : field Q)
    (db db' : gmap string Cache.row) (t_read t_write t_read' t_write' : Z)
    (ttl ttl' : Z) (markets : list Client.market) :
  load_cached_markets loads db t_read (Client.id ex) ttl = Ok None ->
  load_all_markets dumps loads ex answer fallback db t_read t_write ttl
    = Ok (markets, db') ->
  loads (dumps markets) = Ok markets ->
  (t_read' - t_write <= ttl')%Z ->
  load_all_markets dumps loads ex answer' fallback' db' t_read' t_write' ttl'
    = Ok (markets, db').
Proof.
  intros Hmiss Hfirst Hrt Hfresh. unfold load_all_markets in Hfirst.
  rewrite Hmiss in Hfirst. cbn [bind] in Hfirst.
  destruct answer as [raws|]; cbn [bind] in Hfirst; [|discriminate].
  destruct (normalize_markets fallback raws) as [ms|]; cbn [bind] in Hfirst;
    [|discriminate].
  injection Hfirst as -> <-.
  unfold load_all_markets, load_cached_markets, save_markets.
  rewrite get_json_after_set, Hrt.
  destruct (Z.ltb_spec ttl' (t_read' - t_write)); [lia|]. reflexivity.
Qed.

(** X18. The normalization raises exactly when the exchange's own taker
    entry is null and some kept market has no usable rate of its own
    (missing, null or zero). *)
Theorem normalize_markets_raises (fallback : field Q) (raws : list raw_market) :
  (exists e, normalize_markets fallback raws = Raise e) <->
  fallback = Null /\
  exists r, r ∈ raws /\ spot_or_unspecified r = true /\
    explicitly_inactive r = false /\
    (raw_taker r = Absent \/ raw_taker r = Null \/
     exists q, raw_taker r = Val q /\ q == 0).
Proof.
  induction raws as [|r rest IH]; cbn [normalize_markets].
  - split; [intros [e [=]] | intros (_ & r & Hr & _); now apply elem_of_nil in Hr].
  - destruct (spot_or_unspecified r) eqn:Hspot; cbn [negb].
    2:{ rewrite IH. split; intros (Hf & r' & Hr' & Hrest).
        - split; [exact Hf|]. exists r'. split; [now right | exact Hrest].
        - split; [exact Hf|]. exists r'.
          apply elem_of_cons in Hr' as [->|Hr']; [|now split].
          destruct Hrest as [? _]. congruence. }
    destruct (explicitly_inactive r) eqn:Hin.
    { rewrite IH. split; intros (Hf & r' & Hr' & Hrest).
      - split; [exact Hf|]. exists r'. split; [now right | exact Hrest].
      - split; [exact Hf|]. exists r'.
        apply elem_of_cons in Hr' as [->|Hr']; [|now split].
        destruct Hrest as (_ & ? & _). congruence. }
    assert ((exists e, market_taker fallback r = Raise e) <->
            fallback = Null /\
            (raw_taker r = Absent \/ raw_taker r = Null \/
             exists q, raw_taker r = Val q /\ q == 0)) as Htaker.
    { unfold market_taker, exchange_taker.
      destruct (raw_taker r) as [| |q] eqn:Ht.
      - destruct fallback; split; try (intros [e [=]]); try (intros [[=] _]);
          eauto.
      - destruct fallback; split; try (intros [e [=]]); try (intros [[=] _]);
          eauto.
      - destruct (Qeq_bool q 0) eqn:E.
        + apply Qeq_bool_iff in E.
          destruct fallback; split; try (intros [e [=]]);
            try (intros [[=] _]); eauto 10.
        + split; [intros [e [=]]|].
          intros (_ & [[=]|[[=]|(q' & [= <-] & Hq)]]).
          apply Qeq_bool_iff in Hq. congruence. }
    destruct (market_taker fallback r) as [t|e] eqn:Hmt; cbn [bind].
    + destruct (normalize_markets fallback rest) as [ms|e] eqn:Hrest; cbn [bind].
      * split; [intros [e [=]]|].
        intros (Hf & r' & Hr' & Hs & Hi & Ht).
        apply elem_of_cons in Hr' as [->|Hr'].
        -- destruct (proj2 Htaker (conj Hf Ht)) as [e [=]].
        -- destruct (proj2 IH) as [e [=]]. split; [exact Hf|]. eauto.
      * split; [|eauto]. intros _.
        destruct (proj1 IH) as (Hf & r' & Hr' & Hrest'); [eauto|].
        split; [exact Hf|]. exists r'. split; [now right | exact Hrest'].
    + split; [|eauto]. intros _.
      destruct (proj1 Htaker) as (Hf & Ht); [eauto|].
      split; [exact Hf|]. exists r. split; [left|]. now repeat split.
Qed.

End MarketsFacts.

(** ** Currency network fees *)

Section CurrencyFeesFacts.
Import Py Markets.

Lemma network_fees_fold_other (nets : list (string * net_data)) n :
  forall acc : gmap string Q,
  n ∉ nets.*1 ->
  foldl (fun acc net =>
           match network_fee net.2 with
           | Some fee => <[net.1 := fee]> acc
           | None => acc
           end) acc nets !! n = acc !! n.
Proof.
  induction nets as [|[n' nd'] nets IH]; intros acc Hn; [reflexivity|].
  cbn [foldl fst snd]. cbn in Hn. apply not_elem_of_cons in Hn as [Hne Hn].
  rewrite IH by assumption.
  destruct (network_fee nd'); [|reflexivity].
  now rewrite lookup_insert_ne.
Qed.

Lemma network_fees_fold_lookup (nets : list (string * net_data)) n nd :
  forall acc : gmap string Q,
  NoDup nets.*1 -> (n, nd) ∈ nets ->
  foldl (fun acc net =>
           match network_fee net.2 with
           | Some fee => <[net.1 := fee]> acc
           | None => acc
           end) acc nets !! n
  = match network_fee nd with
    | Some fee => Some fee
    | None => acc !! n
    end.
Proof.
  induction nets as [|[n' nd'] nets IH]; intros acc Hnd Hin.
  - now apply elem_of_nil in Hin.
  - cbn in Hnd. apply NoDup_cons in Hnd as [Hfresh Hnd].
    cbn [foldl fst snd].
    apply elem_of_cons in Hin as [[= <- <-]|Hin].
    + rewrite network_fees_fold_other by assumption.
      destruct (network_fee nd); [apply lookup_insert_eq | reflexivity].
    + rewrite (IH _ Hnd Hin).
      destruct (network_fee nd); [reflexivity|].
      destruct (network_fee nd'); [|reflexivity].
      rewrite lookup_insert_ne; [reflexivity|].
      intros ->. apply Hfresh. apply list_elem_of_fmap. now exists (n, nd).
Qed.

Lemma network_fees_lookup (nets : list (string * net_data)) n nd :
  NoDup nets.*1 -> (n, nd) ∈ nets ->
  network_fees nets !! n = network_fee nd.
Proof.
  intros Hnd Hin. unfold network_fees.
  rewrite (network_fees_fold_lookup _ _ _ _ Hnd Hin), lookup_empty.
  now destruct (network_fee nd).
Qed.

Lemma extract_fold_nonempty (curs : list (string * currency)) :
  forall acc : gmap string (gmap string Q),
  (forall code m, acc !! code = Some m -> m <> ∅) ->
  forall code m,
    foldl (fun result cur =>
             let fees := network_fees (default [] (networks cur.2)) in
             if bool_decide (fees = ∅) then result
             else <[cur.1 := fees]> result) acc curs !! code = Some m ->
    m <> ∅.
Proof.
  induction curs as [|[c cur] curs IH]; intros acc Hacc code m; cbn [foldl].
  - apply Hacc.
  - apply IH. intros code' m'. cbn [fst snd].
    destruct (bool_decide _) eqn:E; [apply Hacc|].
    apply bool_decide_eq_false in E.
    destruct (decide (c = code')) as [->|Hne].
    + rewrite lookup_insert_eq. now intros [= <-].
    + rewrite lookup_insert_ne by assumption. apply Hacc.
Qed.

Lemma extract_fold_other (curs : list (string * currency)) code :
  forall acc : gmap string (gmap string Q),
  code ∉ curs.*1 ->
  foldl (fun result cur =>
           let fees := network_fees (default [] (networks cur.2)) in
           if bool_decide (fees = ∅) then result
           else <[cur.1 := fees]> result) acc curs !! code = acc !! code.
Proof.
  induction curs as [|[c cur] curs IH]; intros acc Hn; [reflexivity|].
  cbn [foldl fst snd]. cbn in Hn. apply not_elem_of_cons in Hn as [Hne Hn].
  rewrite IH by assumption.
  destruct (bool_decide _); [reflexivity|].
  now rewrite lookup_insert_ne.
Qed.

Lemma extract_fold_lookup (curs : list (string * currency)) code cur :
  forall acc : gmap string (gmap string Q),
  NoDup curs.*1 -> (code, cur) ∈ curs ->
  foldl (fun result cur =>
           let fees := network_fees (default [] (networks cur.2)) in
           if bool_decide (fees = ∅) then result
           else <[cur.1 := fees]> result) acc curs !! code
  = if bool_decide (network_fees (default [] (networks cur)) = ∅)
    then acc !! code
    else Some (network_fees (default [] (networks cur))).
Proof.
  induction curs as [|[c' cur'] curs IH]; intros acc Hnd Hin.
  - now apply elem_of_nil in Hin.
  - cbn in Hnd. apply NoDup_cons in Hnd as [Hfresh Hnd].
    cbn [foldl fst snd].
    apply elem_of_cons in Hin as [[= <- <-]|Hin].
    + rewrite extract_fold_other by assumption.
      destruct (bool_decide _); [reflexivity | apply lookup_insert_eq].
    + rewrite (IH _ Hnd Hin).
      destruct (bool_decide (network_fees (default [] (networks cur)) = ∅));
        [|reflexivity].
      destruct (bool_decide _); [reflexivity|].
      rewrite lookup_insert_ne; [reflexivity|].
      intros ->. apply Hfresh. apply list_elem_of_fmap. now exists (code, cur).
Qed.

(** X19. [_extract_currency_network_fees] never maps a currency to an
    empty fee table, and a failed fetch gives the empty result.  For
    currency and network names that occur once, the fee of a network is
    its numeric [withdrawFee]; its numeric [fee] when it has no
    [withdrawFee]; and the network is left out otherwise, also when a
    non-numeric [withdrawFee] stands beside a numeric [fee]. *)
Theorem extract_currency_network_fees_spec
    (fetch_currencies : result (option (list (string * currency)))) :
  (forall code fees,
     _extract_currency_network_fees fetch_currencies !! code = Some fees ->
     fees <> ∅) /\
  (forall e, fetch_currencies = Raise e ->
     _extract_currency_network_fees fetch_currencies = ∅) /\
  (forall curs code cur nets n nd,
     fetch_currencies = Ok (Some curs) ->
     NoDup curs.*1 -> (code, cur) ∈ curs ->
     networks cur = Some nets -> NoDup nets.*1 -> (n, nd) ∈ nets ->
     _extract_currency_network_fees fetch_currencies !! code ≫= (.!! n)
     = match nd with
       | NetDict (Some (Fees.Num w)) _ => Some w
       | NetDict (Some Fees.NotNum) _ => None
       | NetDict None (Some (Fees.Num f)) => Some f
       | NetDict None _ => None
       | NetOther => None
       end).
Proof.
  repeat split.
  - intros code fees. unfold _extract_currency_network_fees.
    destruct fetch_currencies as [curs|e]; [|now rewrite lookup_empty].
    apply extract_fold_nonempty. intros c m. now rewrite lookup_empty.
  - now intros e ->.
  - intros curs code cur nets n nd -> Hnd Hin Hnets Hnd' Hin'.
    unfold _extract_currency_network_fees. cbn [default from_option].
    change (from_option Datatypes.id [] (Some curs)) with curs.
    rewrite (extract_fold_lookup _ _ _ _ Hnd Hin), lookup_empty, Hnets.
    change (default [] (Some nets)) with nets.
    pose proof (network_fees_lookup _ _ _ Hnd' Hin') as Hl.
    assert (network_fee nd
            = match nd with
              | NetDict (Some (Fees.Num w)) _ => Some w
              | NetDict (Some Fees.NotNum) _ => None
              | NetDict None (Some (Fees.Num f)) => Some f
              | NetDict None _ => None
              | NetOther => None
              end) as <-.
    { destruct nd as [[[w|]|] [[f|]|]|]; reflexivity. }
    destruct (bool_decide _) eqn:E.
    + apply bool_decide_eq_true in E. rewrite E, lookup_empty in Hl.
      now rewrite <- Hl.
    + cbn. exact Hl.
Qed.

End CurrencyFeesFacts.

(** ** More on the scan *)

Section ScanMore.
Import Py Scanner Spec Props.
Variable settings : Settings.
Variables ex_a ex_b : Client.exchange.
Variables idx_a idx_b : gmap string Client.market.
Variables books_a books_b : gmap string (option Client.order_book).

Local Abbreviation cached_fee := (cached_network_fee ex_a ex_b).
Local Abbreviation eval_step := (evaluate settings).
Local Abbreviation body :=
  (scan_symbol settings ex_a ex_b idx_a idx_b books_a books_b).
Local Abbreviation loop :=
  (scan_loop settings ex_a ex_b idx_a idx_b books_a books_b).

Lemma compute_vwap_positive (side : string) levels amount_base avg_price fill_amount :
  Fees.compute_vwap_for_amount side levels amount_base
    = Some (avg_price, fill_amount) ->
  0 < avg_price /\ 0 < fill_amount.
Proof.
  intros Hres.
  destruct (compute_vwap_some _ _ _ _ _ Hres) as (Hpos & Hf & -> & ->).
  split; [|exact Hf].
  destruct (takes_bounds _ _ Hpos (valid_levels_positive levels))
    as (_ & _ & _ & _ & Hne).
  destruct Hne as [_ Hq].
  - intros E. rewrite E in Hf. cbn in Hf. lra.
  - apply Qlt_shift_div_l; [exact Hf | lra].
Qed.

Lemma vwap_leg_positive target_quote ask_side bid_side buy_avg sell_avg amount :
  vwap_leg target_quote ask_side bid_side = Ok (Some (buy_avg, sell_avg, amount)) ->
  0 < buy_avg /\ 0 < sell_avg /\ 0 < amount.
Proof.
  unfold vwap_leg.
  destruct (estimate_base_amount target_quote ask_side) as [est|]; cbn [bind];
    [|discriminate].
  destruct (Fees.compute_vwap_for_amount "buy" ask_side est)
    as [[ba bf]|] eqn:Hb; [|discriminate].
  destruct (Fees.compute_vwap_for_amount "sell" bid_side est)
    as [[sa sf]|] eqn:Hs; [|discriminate].
  intros [= <- <- <-].
  destruct (compute_vwap_positive _ _ _ _ _ Hb) as [? ?].
  destruct (compute_vwap_positive _ _ _ _ _ Hs) as [? ?].
  repeat split; try assumption. now apply Q.min_glb_lt.
Qed.

Lemma taker_fee_range exchange_id m :
  0 <= Client.get_taker_fee_for_market exchange_id m /\
  Client.get_taker_fee_for_market exchange_id m <= 2 # 100.
Proof.
  unfold Client.get_taker_fee_for_market.
  set (rate := default (1 # 1000) (Client.taker m)).
  destruct (Qlt_le_dec rate 0).
  - destruct (Qlt_le_dec (2 # 100) 0); lra.
  - destruct (Qlt_le_dec (2 # 100) rate); lra.
Qed.

Lemma cached_fee_evaluations dir base st entry st1 :
  cached_fee dir base st = Ok (entry, st1) ->
  evaluations st1 = evaluations st.
Proof.
  intros H.
  apply cached_fee_cases in H as [[_ ->]|(_ & net & _ & _ & ->)]; reflexivity.
Qed.

Lemma evaluate_evaluations sym base dir buy_id sell_id
    buy_avg sell_avg amount taker_buy taker_sell entry st :
  evaluations
    (eval_step sym base dir buy_id sell_id buy_avg sell_avg amount
       taker_buy taker_sell entry st)
  = evaluations st ++
      [MkEvaluation sym base dir buy_avg sell_avg amount taker_buy taker_sell
         entry.2 entry.1
         (Fees.estimate_fee_aware_profit_pct buy_avg sell_avg amount
            taker_buy taker_sell entry.2)].
Proof. now destruct entry. Qed.

(** The ways in which the body of the loop can end without raising, with
    where the evaluated values come from. *)
Lemma scan_symbol_step sym st st' :
  body sym st = Ok st' ->
  st' = st \/
  exists base quote m_a m_b ob_a ob_b buy_avg sell_avg amount entry st1,
    split "/" sym = [base; quote] /\
    idx_a !! sym = Some m_a /\ idx_b !! sym = Some m_b /\
    vwap_leg (min_notional_usd settings) (Client.asks ob_a) (Client.bids ob_b)
      = Ok (Some (buy_avg, sell_avg, amount)) /\
    cached_fee AtoB base st = Ok (entry, st1) /\
    (st' = eval_step sym base AtoB (Client.id ex_a) (Client.id ex_b)
             buy_avg sell_avg amount
             (Client.get_taker_fee_for_market (Client.id ex_a) m_a)
             (Client.get_taker_fee_for_market (Client.id ex_b) m_b) entry st1
     \/
     exists buy_avg_b sell_avg_a amount_b entry2 st3,
       vwap_leg (min_notional_usd settings)
         (Client.asks ob_b) (Client.bids ob_a)
         = Ok (Some (buy_avg_b, sell_avg_a, amount_b)) /\
       cached_fee BtoA base
         (eval_step sym base AtoB (Client.id ex_a) (Client.id ex_b)
            buy_avg sell_avg amount
            (Client.get_taker_fee_for_market (Client.id ex_a) m_a)
            (Client.get_taker_fee_for_market (Client.id ex_b) m_b) entry st1)
       = Ok (entry2, st3) /\
       st' = eval_step sym base BtoA (Client.id ex_b) (Client.id ex_a)
               buy_avg_b sell_avg_a amount_b
               (Client.get_taker_fee_for_market (Client.id ex_b) m_b)
               (Client.get_taker_fee_for_market (Client.id ex_a) m_a)
               entry2 st3).
Proof.
  unfold scan_symbol. intros H.
  destruct (mjoin (books_a !! sym)) as [ob_a|]; [|left; congruence].
  destruct (mjoin (books_b !! sym)) as [ob_b|]; [|left; congruence].
  destruct (split "/" sym) as [|base [|quote [|? ?]]] eqn:Hsplit;
    try discriminate.
  destruct (negb _); [left; congruence|].
  destruct (idx_a !! sym) as [m_a|]; cbn [bind] in H; [|discriminate].
  destruct (idx_b !! sym) as [m_b|]; cbn [bind] in H; [|discriminate].
  destruct (is_nil (Client.asks ob_a) || is_nil (Client.bids ob_b));
    [left; congruence|].
  destruct (vwap_leg _ (Client.asks ob_a) _) as [[[[buy_avg sell_avg] amount]|]|]
    eqn:Hleg; cbn [bind] in H; [|left; congruence|discriminate].
  destruct (Qle_bool amount 0); [left; congruence|].
  destruct (cached_network_fee _ _ AtoB base st) as [[entry st1]|] eqn:Hfee;
    cbn [bind] in H; [|discriminate].
  right. exists base, quote, m_a, m_b, ob_a, ob_b, buy_avg, sell_avg, amount,
    entry, st1.
  do 5 (split; [reflexivity || assumption|]).
  unfold scan_reverse in H.
  destruct (is_nil (Client.asks ob_b) || is_nil (Client.bids ob_a));
    [left; congruence|].
  destruct (vwap_leg _ (Client.asks ob_b) _) as [[[[buy_b sell_a] amount_b]|]|]
    eqn:Hleg2; cbn [bind] in H; [|left; congruence|discriminate].
  destruct (cached_network_fee _ _ BtoA base _) as [[entry2 st3]|] eqn:Hfee2;
    cbn [bind] in H; [|discriminate].
  right. exists buy_b, sell_a, amount_b, entry2, st3.
  split; [reflexivity|]. split; [reflexivity | congruence].
Qed.

Lemma scan_trace_app sym syms new1 new2 :
  scan_trace [sym] new1 -> scan_trace syms new2 ->
  scan_trace (sym :: syms) (new1 ++ new2).
Proof.
  intros H1 H2. inversion H1 as [|? ? ? Hr|? ? ? ? ? Hr|? ? ? ? ? ? ? Hr];
    subst; inversion Hr; subst; cbn [app].
  - now apply trace_skip.
  - now apply trace_forward.
  - now apply trace_both.
Qed.

(** One turn of the loop appends nothing, the forward evaluation, or the
    forward and then the reverse evaluation of its symbol. *)
Lemma scan_symbol_trace sym st st' :
  body sym st = Ok st' ->
  exists new,
    evaluations st' = evaluations st ++ new /\ scan_trace [sym] new.
Proof.
  intros H.
  apply scan_symbol_step in H
    as [->|(base & quote & m_a & m_b & ob_a & ob_b & buy_avg & sell_avg
            & amount & entry & st1 & _ & _ & _ & Hleg & Hfee & Hrest)].
  { exists []. rewrite app_nil_r. split; [reflexivity|].
    apply trace_skip, trace_done. }
  apply vwap_leg_positive in Hleg as (Hb & Hs & Ha).
  apply cached_fee_evaluations in Hfee.
  pose proof (taker_fee_range (Client.id ex_a) m_a) as Hta.
  pose proof (taker_fee_range (Client.id ex_b) m_b) as Htb.
  destruct Hrest as [->|(buy_b & sell_a & amount_b & entry2 & st3 & Hleg2
                         & Hfee2 & ->)].
  - eexists. rewrite evaluate_evaluations, Hfee. split; [reflexivity|].
    apply trace_forward; [|apply trace_done].
    repeat split; cbn; assumption || apply Hta || apply Htb.
  - apply vwap_leg_positive in Hleg2 as (Hb2 & Hs2 & Ha2).
    apply cached_fee_evaluations in Hfee2.
    eexists. rewrite evaluate_evaluations, Hfee2, evaluate_evaluations, Hfee,
      <- app_assoc.
    split; [reflexivity|]. cbn [app].
    apply trace_both; [| |apply trace_done].
    + repeat split; cbn; assumption || apply Hta || apply Htb.
    + repeat split; cbn; assumption || apply Hta || apply Htb.
Qed.

Lemma scan_loop_trace symbols : forall st st',
  loop symbols st = Ok st' ->
  exists new,
    evaluations st' = evaluations st ++ new /\ scan_trace symbols new.
Proof.
  induction symbols as [|sym rest IH]; intros st st' H; cbn in H.
  - injection H as <-. exists []. rewrite app_nil_r. split; [reflexivity|].
    apply trace_done.
  - destruct (body sym st) as [st1|] eqn:Hbody; cbn [bind] in H;
      [|discriminate].
    apply scan_symbol_trace in Hbody as (new1 & E1 & T1).
    apply IH in H as (new2 & E2 & T2).
    exists (new1 ++ new2). rewrite E2, E1, app_assoc. split; [reflexivity|].
    now apply scan_trace_app.
Qed.

End ScanMore.

Section TraceFacts.
Import Py Scanner Spec Props.

Lemma scan_trace_sound symbols evs :
  scan_trace symbols evs -> Forall sound_evaluation evs.
Proof.
  induction 1 as [| |? ? ? ? Hf|? ? ? ? ? Hf Hr]; repeat constructor;
    try assumption; try apply Hf; apply Hr.
Qed.

Lemma scan_trace_length symbols evs :
  scan_trace symbols evs -> (length evs <= 2 * length symbols)%nat.
Proof. induction 1; cbn [length]; lia. Qed.

Lemma scan_trace_symbols symbols evs :
  scan_trace symbols evs ->
  Forall (fun e => ev_symbol e ∈ symbols) evs.
Proof.
  induction 1 as [|? ? ? ? IH|? ? ? ? Hf ? IH|? ? ? ? ? Hf Hr ? IH].
  - constructor.
  - eapply Forall_impl; [exact IH|]. intros e He. now right.
  - constructor; [destruct Hf as [-> _]; left|].
    eapply Forall_impl; [exact IH|]. intros e He. now right.
  - constructor; [destruct Hf as [-> _]; left|].
    constructor; [destruct Hr as [-> _]; left|].
    eapply Forall_impl; [exact IH|]. intros e He. now right.
Qed.

(** In a trace a reverse evaluation comes right after the forward
    evaluation of the same symbol. *)
Lemma scan_trace_reverse symbols evs :
  scan_trace symbols evs ->
  forall i r, evs !! i = Some r -> ev_direction r = BtoA ->
  exists j f, i = S j /\ evs !! j = Some f /\
    ev_symbol f = ev_symbol r /\ ev_direction f = AtoB.
Proof.
  induction 1 as [|? ? ? ? IH|sym ? f ? Hf ? IH|sym ? f r' ? Hf Hr ? IH];
    intros i r Hi Hdir.
  - discriminate.
  - now apply IH.
  - destruct i as [|i]; cbn in Hi.
    + injection Hi as <-. destruct Hf as (_ & Hd & _). congruence.
    + destruct (IH i r Hi Hdir) as (j & g & -> & Hj & Hg).
      exists (S j), g. now repeat split.
  - destruct i as [|[|i]]; cbn in Hi.
    + injection Hi as <-. destruct Hf as (_ & Hd & _). congruence.
    + injection Hi as <-. exists 0%nat, f. cbn.
      destruct Hf as (-> & ? & _), Hr as (-> & _). now repeat split.
    + destruct (IH i r Hi Hdir) as (j & g & -> & Hj & Hg).
      exists (S (S j)), g. now repeat split.
Qed.

End TraceFacts.

Section ScanReturns.
Import Py Scanner Spec Props.
Variable settings : Settings.
Variables ex_a ex_b : Client.exchange.
Variables idx_a idx_b : gmap string Client.market.
Variables books_a books_b : gmap string (option Client.order_book).

Local Abbreviation cached_fee := (cached_network_fee ex_a ex_b).
Local Abbreviation body :=
  (scan_symbol settings ex_a ex_b idx_a idx_b books_a books_b).
Local Abbreviation loop :=
  (scan_loop settings ex_a ex_b idx_a idx_b books_a books_b).
Local Abbreviation scannable := (Props.scannable idx_a idx_b books_a books_b).

Lemma index_markets_fold s (markets : list Client.market) :
  forall acc : gmap string Client.market,
  is_Some (acc !! s) \/ (exists m, m ∈ markets /\ Client.symbol m = s) ->
  is_Some (foldl (fun idx m => <[Client.symbol m := m]> idx) acc markets !! s).
Proof.
  induction markets as [|m rest IH]; intros acc H; cbn [foldl].
  - destruct H as [H|(m & Hm & _)]; [exact H | now apply elem_of_nil in Hm].
  - apply IH.
    destruct (decide (Client.symbol m = s)) as [<-|Hne].
    + left. rewrite lookup_insert_eq. eauto.
    + destruct H as [H|(m' & Hm' & Hs)].
      * left. now rewrite lookup_insert_ne.
      * apply elem_of_cons in Hm' as [->|Hm']; [contradiction|]. eauto.
Qed.

Lemma index_markets_lookup (markets : list Client.market) m :
  m ∈ markets -> is_Some (index_markets markets !! Client.symbol m).
Proof. intros Hm. apply index_markets_fold. eauto. Qed.

Lemma vwap_leg_returns target_quote ask_side bid_side :
  priced_top ask_side = true -> is_nil ask_side = false ->
  exists leg, vwap_leg target_quote ask_side bid_side = Ok leg.
Proof.
  unfold vwap_leg, estimate_base_amount.
  destruct ask_side as [|[|[p|] lv] rest]; cbn [priced_top is_nil Fees.to_float];
    try discriminate.
  intros Hp _. apply negb_true_iff in Hp. rewrite Hp. cbn [bind].
  repeat case_match; eauto.
Qed.

Lemma cached_fee_returns dir base st :
  exists entry st1, cached_fee dir base st = Ok (entry, st1).
Proof.
  unfold cached_network_fee.
  destruct (network_fee_cache st !! base); [eauto|].
  destruct dir.
  - destruct (find_cheapest_never_raises
                (Client.currency_fees ex_a) (Client.currency_fees ex_b) base)
      as [net ->]. cbn [bind]. eauto.
  - destruct (find_cheapest_never_raises
                (Client.currency_fees ex_b) (Client.currency_fees ex_a) base)
      as [net ->]. cbn [bind]. eauto.
Qed.

Lemma mjoin_lookup (books : gmap string (option Client.order_book)) sym ob :
  mjoin (books !! sym) = Some ob -> books !! sym = Some (Some ob).
Proof. destruct (books !! sym) as [[?|]|]; cbn; congruence. Qed.

Lemma scan_symbol_returns sym st :
  scannable sym -> exists st', body sym st = Ok st'.
Proof.
  intros ((base & quote & Hsplit) & [m_a Ha] & [m_b Hb] & Hpa & Hpb).
  unfold scan_symbol.
  destruct (mjoin (books_a !! sym)) as [ob_a|] eqn:Hba; [|eauto].
  destruct (mjoin (books_b !! sym)) as [ob_b|] eqn:Hbb; [|eauto].
  apply mjoin_lookup in Hba, Hbb.
  rewrite Hsplit, Ha, Hb. cbn [bind].
  destruct (negb _); [eauto|].
  destruct (is_nil (Client.asks ob_a) || is_nil (Client.bids ob_b)) eqn:Hnil;
    [eauto|].
  apply orb_false_iff in Hnil as [Hnil _].
  destruct (vwap_leg_returns (min_notional_usd settings) _ (Client.bids ob_b)
              (Hpa _ Hba) Hnil) as [leg ->].
  cbn [bind]. destruct leg as [[[buy_avg sell_avg] amount]|]; [|eauto].
  destruct (Qle_bool amount 0); [eauto|].
  destruct (cached_fee_returns AtoB base st) as (entry & st1 & ->).
  cbn [bind]. unfold scan_reverse.
  destruct (is_nil (Client.asks ob_b) || is_nil (Client.bids ob_a)) eqn:Hnil2;
    [eauto|].
  apply orb_false_iff in Hnil2 as [Hnil2 _].
  destruct (vwap_leg_returns (min_notional_usd settings) _ (Client.bids ob_a)
              (Hpb _ Hbb) Hnil2) as [leg2 ->].
  cbn [bind]. destruct leg2 as [[[buy_b sell_a] amount_b]|]; [|eauto].
  match goal with
  | |- context [cached_network_fee _ _ BtoA base ?s] =>
      destruct (cached_fee_returns BtoA base s) as (entry2 & st3 & ->)
  end.
  cbn [bind]. eauto.
Qed.

Lemma scan_loop_returns symbols : forall st,
  Forall scannable symbols -> exists st', loop symbols st = Ok st'.
Proof.
  induction symbols as [|sym rest IH]; intros st Hall; cbn [scan_loop];
    [eauto|].
  apply Forall_cons in Hall as [Hsym Hrest].
  destruct (scan_symbol_returns sym st Hsym) as [st1 ->]. cbn [bind].
  now apply IH.
Qed.

End ScanReturns.

Section ScanProperties.
Import Py Scanner Spec Props.
Variable settings : Settings.
Variables ex_a ex_b : Client.exchange.
Variables markets_a markets_b : list Client.market.
Variables books_a books_b : gmap string (option Client.order_book).

Local Abbreviation run :=
  (scan_run settings ex_a ex_b markets_a markets_b books_a books_b).
Local Abbreviation scan :=
  (scan_two_exchanges settings ex_a ex_b markets_a markets_b books_a books_b).
Local Abbreviation common :=
  (Client.find_common_symbols markets_a markets_b
     (Some (preferred_quotes settings))).
Local Abbreviation listed_on_both := (Props.listed_on_both markets_a markets_b).

Lemma find_common_symbols_sound symbols :
  common = Ok symbols -> Forall listed_on_both symbols.
Proof.
  unfold Client.find_common_symbols.
  set (pairs := Client.pairs_of markets_a ∩ Client.pairs_of markets_b).
  assert (forall s, s ∈ Client.render <$> elements pairs -> listed_on_both s)
    as Hsound.
  { intros s Hs. apply list_elem_of_fmap in Hs as (bq & -> & Hbq).
    unfold pairs in Hbq.
    rewrite elem_of_elements, elem_of_intersection, !elem_of_pairs_of in Hbq.
    destruct Hbq as [(m_a & Ha & Hact_a & Hbq_a) (m_b & Hb & Hact_b & Hbq_b)].
    exists m_a, m_b. repeat split; try assumption; congruence. }
  intros H. apply Forall_forall. intros s Hs.
  destruct (Client.truthy _).
  - destruct (filter_result_total
                (list_to_set (upper <$> default [] (Some (preferred_quotes settings))))
                (elements pairs)) as (kept & Hkept & Hsub).
    rewrite Hkept in H. cbn [bind] in H. injection H as <-.
    rewrite sort_perm in Hs. now apply Hsound, Hsub.
  - cbn [bind] in H. injection H as <-.
    rewrite sort_perm in Hs. now apply Hsound.
Qed.

Lemma find_common_symbols_returns : exists symbols, common = Ok symbols.
Proof.
  unfold Client.find_common_symbols.
  destruct (Client.truthy _); [|cbn [bind]; eauto].
  match goal with
  | |- context [Client.filter_result (Client.quote_in ?q) (Client.render <$> ?l)] =>
      destruct (filter_result_total q l) as (kept & -> & _)
  end.
  cbn [bind]. eauto.
Qed.

Lemma scan_run_trace st :
  run = Ok st ->
  exists symbols, common = Ok symbols /\ scan_trace symbols (evaluations st).
Proof.
  unfold scan_run.
  destruct common as [symbols|]; cbn [bind]; [|discriminate].
  intros H. exists symbols. split; [reflexivity|].
  destruct symbols as [|sym rest]; cbn [is_nil] in H.
  - injection H as <-. apply trace_done.
  - apply scan_loop_trace in H as (new & E & T).
    cbn [initial_state evaluations app] in E. now rewrite E.
Qed.

Lemma scan_opportunities st opps :
  run = Ok st -> scan = Ok opps ->
  forall o, o ∈ opps ->
  exists e, e ∈ evaluations st /\ clears settings e /\
    o = opportunity_of ex_a ex_b e.
Proof.
  intros Hrun. unfold scan_two_exchanges. rewrite Hrun. cbn [bind].
  intros [= <-] o Ho. rewrite sort_perm in Ho.
  rewrite (inv_opps _ _ _ _ (scan_run_inv _ _ _ _ _ _ _ _ Hrun)) in Ho.
  apply list_elem_of_fmap in Ho as (e & -> & He).
  apply list_elem_of_filter in He as [Hc He]. eauto.
Qed.

Lemma scan_ran opps :
  scan = Ok opps -> exists st, run = Ok st.
Proof.
  unfold scan_two_exchanges. destruct run as [st|]; [eauto | discriminate].
Qed.

Lemma no_fees_no_network fees_1 fees_2 code :
  fees_1 = ∅ \/ fees_2 = ∅ ->
  Client.find_cheapest_common_network_fee fees_1 fees_2 code = Ok None.
Proof.
  unfold Client.find_cheapest_common_network_fee.
  intros [->| ->]; rewrite lookup_empty; cbn [default].
  - now rewrite bool_decide_eq_true_2.
  - rewrite (bool_decide_eq_true_2 (∅ = ∅)) by reflexivity.
    now rewrite orb_true_r.
Qed.

(** X20. Every opportunity a scan returns has a positive amount and
    positive prices, names the two exchanges as buyer and seller in one of
    the two orders, and is for a symbol that renders the base and quote of
    an active market of both exchanges. *)
Theorem scan_opportunities_well_formed (opps : list Opportunity) :
  scan = Ok opps ->
  Forall (fun o =>
            0 < base_amount o /\ 0 < buy_price o /\ 0 < sell_price o /\
            ((buy_exchange o = Client.id ex_a /\
              sell_exchange o = Client.id ex_b) \/
             (buy_exchange o = Client.id ex_b /\
              sell_exchange o = Client.id ex_a)) /\
            listed_on_both (symbol o))
    opps.
Proof.
  intros Hscan. destruct (scan_ran _ Hscan) as [st Hrun].
  destruct (scan_run_trace _ Hrun) as (symbols & Hcommon & Htrace).
  pose proof (find_common_symbols_sound _ Hcommon) as Hlisted.
  pose proof (scan_trace_sound _ _ Htrace) as Hsound.
  pose proof (scan_trace_symbols _ _ Htrace) as Hsyms.
  rewrite Forall_forall in Hlisted. rewrite Forall_forall in Hsound.
  rewrite Forall_forall in Hsyms.
  apply Forall_forall. intros o Ho.
  destruct (scan_opportunities _ _ Hrun Hscan o Ho) as (e & He & _ & ->).
  destruct (Hsound e He) as (Ha & Hb & Hs & _).
  cbn [opportunity_of base_amount buy_price sell_price buy_exchange
       sell_exchange symbol].
  repeat split; try assumption.
  - destruct (ev_direction e); [left | right]; now split.
  - now apply Hlisted, Hsyms.
Qed.

(** X21. The reverse direction of a symbol (buy on the second exchange,
    sell on the first) is evaluated only right after the forward direction
    of the same symbol was evaluated: a symbol whose forward direction is
    skipped is not priced in reverse either. *)
Theorem scan_reverse_follows_forward
    (st : scan_state) (i : nat) (r : evaluation) :
  run = Ok st ->
  evaluations st !! i = Some r ->
  ev_direction r = BtoA ->
  exists j f, i = S j /\ evaluations st !! j = Some f /\
    ev_symbol f = ev_symbol r /\ ev_direction f = AtoB.
Proof.
  intros Hrun Hi Hdir.
  destruct (scan_run_trace _ Hrun) as (symbols & _ & Htrace).
  exact (scan_trace_reverse _ _ Htrace i r Hi Hdir).
Qed.


(** X23. When the currencies of either exchange could not be fetched,
    every profit of the scan is computed with a withdrawal fee of 0 and
    no opportunity carries a network. *)
Theorem currency_fetch_failure_is_costless (st : scan_state) (e : exn) :
  run = Ok st ->
  Client.currency_fees ex_a = Markets._extract_currency_network_fees (Raise e) \/
  Client.currency_fees ex_b = Markets._extract_currency_network_fees (Raise e) ->
  Forall (fun ev =>
            ev_withdraw_fee ev = 0 /\ ev_network ev = None /\
            ev_profit ev =
              Fees.estimate_fee_aware_profit_pct
                (ev_buy_price ev) (ev_sell_price ev) (ev_base_amount ev)
                (ev_taker_buy ev) (ev_taker_sell ev) 0)
    (evaluations st) /\
  Forall (fun o => network o = None) (opportunities st).
Proof.
  intros Hrun Hfail. cbn [Markets._extract_currency_network_fees] in Hfail.
  destruct (scan_run_inv _ _ _ _ _ _ _ _ Hrun)
    as [Hopps Hprofit _ _ _ Hcache Hev _].
  rewrite Forall_forall in Hprofit. rewrite Forall_forall in Hev.
  assert (forall ev, ev ∈ evaluations st ->
            ev_withdraw_fee ev = 0 /\ ev_network ev = None) as Hfree.
  { intros ev Hin. destruct (Hcache _ _ (Hev ev Hin)) as (net & Hnet & Hentry).
    unfold lookup_for in Hnet.
    rewrite (no_fees_no_network _ _ _ Hfail) in Hnet. injection Hnet as <-.
    cbn [entry_of] in Hentry. now injection Hentry as -> ->. }
  split.
  - apply Forall_forall. intros ev Hin. destruct (Hfree ev Hin) as [Hfee Hnet].
    repeat split; try assumption. rewrite (Hprofit ev Hin). now rewrite Hfee.
  - rewrite Hopps. apply Forall_forall. intros o Ho.
    apply list_elem_of_fmap in Ho as (ev & -> & Hin).
    apply list_elem_of_filter in Hin as [_ Hin].
    cbn [opportunity_of network]. apply (Hfree ev Hin).
Qed.

(** X24. On well-formed data the scan returns: when the active markets of
    both exchanges carry their base and quote joined by a slash as symbol,
    with no slash inside either, and every fetched book has priced asks,
    [scan_two_exchanges] raises nothing. *)
Theorem scan_returns_on_well_formed_data :
  Forall (fun m => Client.is_active m = true -> plain_market m) markets_a ->
  Forall (fun m => Client.is_active m = true -> plain_market m) markets_b ->
  priced_books books_a -> priced_books books_b ->
  exists opps, scan = Ok opps.
Proof.
  intros Hma Hmb Hba Hbb.
  rewrite Forall_forall in Hma. rewrite Forall_forall in Hmb.
  unfold scan_two_exchanges, scan_run.
  destruct find_common_symbols_returns as [symbols Hcommon]. rewrite Hcommon.
  cbn [bind].
  destruct (is_nil symbols); [cbn [bind]; eauto|].
  destruct (scan_loop_returns settings ex_a ex_b
              (index_markets markets_a) (index_markets markets_b)
              books_a books_b symbols initial_state) as [st ->];
    [|cbn [bind]; eauto].
  eapply Forall_impl; [exact (find_common_symbols_sound _ Hcommon)|].
  intros sym (m_a & m_b & Ha & Hact_a & Hb & Hact_b & Hpair & ->).
  destruct (Hma _ Ha Hact_a) as (Hsym_a & Hbase & Hquote).
  destruct (Hmb _ Hb Hact_b) as (Hsym_b & _ & _).
  rewrite Hpair in Hsym_b.
  repeat split.
  - exists (Client.base m_a), (Client.quote m_a).
    now rewrite (split_render _ _ Hbase), (split_no_slash _ Hquote).
  - rewrite <- Hsym_a. now apply index_markets_lookup.
  - rewrite <- Hsym_b. now apply index_markets_lookup.
  - intros ob Hob. exact (Hba _ _ Hob).
  - intros ob Hob. exact (Hbb _ _ Hob).
Qed.

End ScanProperties.

Section ScanExamples.
Import Py Scanner.

Lemma scan_opportunities_well_formed_witness :
  Forall (fun o =>
            0 < base_amount o /\ 0 < buy_price o /\ 0 < sell_price o /\
            ((buy_exchange o = "binance" /\ sell_exchange o = "kucoin") \/
             (buy_exchange o = "kucoin" /\ sell_exchange o = "binance")) /\
            Props.listed_on_both Example.markets Example.markets (symbol o))
    Example.found.
Proof.
  apply (scan_opportunities_well_formed Example.settings Example.binance
           Example.kucoin Example.markets Example.markets
           Example.books_binance Example.books_kucoin Example.found).
  vm_compute. reflexivity.
Defined.

Lemma scan_reverse_follows_forward_witness :
  exists j f, 3%nat = S j /\
    evaluations Example.final_state !! j = Some f /\
    ev_symbol f = ev_symbol Example.last_evaluation /\
    ev_direction f = AtoB.
Proof.
  apply (scan_reverse_follows_forward Example.settings Example.binance
           Example.kucoin Example.markets Example.markets
           Example.books_binance Example.books_kucoin
           Example.final_state 3 Example.last_evaluation);
    vm_compute; reflexivity.
Defined.


Lemma currency_fetch_failure_is_costless_witness :
  Forall (fun ev =>
            ev_withdraw_fee ev = 0 /\ ev_network ev = None /\
            ev_profit ev =
              Fees.estimate_fee_aware_profit_pct
                (ev_buy_price ev) (ev_sell_price ev) (ev_base_amount ev)
                (ev_taker_buy ev) (ev_taker_sell ev) 0)
    (evaluations Cases.offline_state) /\
  Forall (fun o => network o = None) (opportunities Cases.offline_state).
Proof.
  apply (currency_fetch_failure_is_costless Example.settings Cases.offline
           Example.kucoin Example.markets Example.markets
           Example.books_binance Example.books_kucoin Cases.offline_state
           (Exn "NetworkError" "unreachable")).
  - vm_compute. reflexivity.
  - left. reflexivity.
Defined.

Lemma scan_returns_on_well_formed_data_witness :
  exists opps,
    scan_two_exchanges Example.settings Example.binance Example.kucoin
      Example.markets Example.markets
      Example.books_binance Example.books_kucoin = Ok opps.
Proof.
  apply scan_returns_on_well_formed_data.
  - repeat (constructor; [intros _; repeat split; reflexivity|]). constructor.
  - repeat (constructor; [intros _; repeat split; reflexivity|]). constructor.
  - apply map_Forall_insert_2; [reflexivity|].
    apply map_Forall_singleton. reflexivity.
  - apply map_Forall_insert_2; [reflexivity|].
    apply map_Forall_singleton. reflexivity.
Defined.

End ScanExamples.

(** ** Examples for the client and the market cache *)

Section ClientExamples.
Import Py Markets.

Lemma fetch_order_book_safe_four_requests_witness :
  Client.fetch_order_book_safe Example.binance 0 "BTC/USDT" 50
  = Client.fetch_order_book_safe Cases.recovering 0 "BTC/USDT" 50.
Proof.
  apply fetch_order_book_safe_four_requests; [reflexivity|].
  intros k lim Hk. destruct k as [|[|[|[|k]]]]; try reflexivity. lia.
Defined.

Lemma save_markets_other_exchange_witness :
  load_cached_markets Cases.loads_markets
    (save_markets Cases.dumps_markets ∅ 1001 "binance" Example.markets)
    2000 "kucoin" 86400
  = load_cached_markets Cases.loads_markets ∅ 2000 "kucoin" 86400.
Proof.
  apply (save_markets_other_exchange Cases.dumps_markets Cases.loads_markets
           ∅ 1001 2000 "binance" "kucoin" Example.markets 86400).
  discriminate.
Defined.

Lemma load_all_markets_on_miss_witness :
  Client.symbol <$> Cases.loaded.1
  = raw_symbol <$> filter (fun r => spot_or_unspecified r = true /\
                                    explicitly_inactive r = false) Cases.raws /\
  (forall bq, bq ∈ Client.pairs_of Cases.loaded.1 <->
     exists r, r ∈ Cases.raws /\ spot_or_unspecified r = true /\
       (raw_active r = Absent \/ raw_active r = Val true) /\
       (raw_base r, raw_quote r) = bq) /\
  Forall (fun m => is_Some (Client.taker m) /\ is_Some (Client.active m))
    Cases.loaded.1 /\
  Cases.loaded.2
  = <[market_key "binance" :=
        Cache.Row (Cases.dumps_markets Cases.loaded.1) 1001]> ∅.
Proof.
  apply (load_all_markets_on_miss Cases.dumps_markets Cases.loads_markets
           Example.binance Cases.raws Absent ∅ Cases.loaded.2 1000 1001 86400
           Cases.loaded.1).
  - reflexivity.
  - vm_compute. reflexivity.
Defined.

Lemma load_all_markets_twice_witness :
  load_all_markets Cases.dumps_markets Cases.loads_markets Example.binance
    (Raise (Exn "NetworkError" "unreachable")) Null
    Cases.loaded.2 2000 2001 86400
  = Ok (Cases.loaded.1, Cases.loaded.2).
Proof.
  apply (load_all_markets_twice Cases.dumps_markets Cases.loads_markets
           Example.binance (Ok Cases.raws)
           (Raise (Exn "NetworkError" "unreachable")) Absent Null
           ∅ Cases.loaded.2 1000 1001 2000 2001 86400 86400 Cases.loaded.1).
  - reflexivity.
  - vm_compute. reflexivity.
  - vm_compute. reflexivity.
  - lia.
Defined.

End ClientExamples.

(** ** Configuration and command line *)

Section ConfigFacts.
Import Py Config Cli Props.

Lemma split_without sep c s :
  occurs c s = false -> Forall (fun p => occurs c p = false) (split sep s).
Proof.
  induction s as [|c' s IH]; cbn [split occurs].
  - intros _. now repeat constructor.
  - intros H. apply orb_false_iff in H as [Hc Hs]. specialize (IH Hs).
    destruct (Ascii.eqb c' sep).
    + constructor; [reflexivity | exact IH].
    + destruct (split sep s) as [|h t].
      * repeat constructor. cbn [occurs]. now rewrite Hc.
      * apply Forall_cons in IH as [Hh Ht].
        constructor; [|exact Ht]. cbn [occurs]. now rewrite Hc, Hh.
Qed.

Lemma split_parts sep s : Forall (fun p => occurs sep p = false) (split sep s).
Proof.
  induction s as [|c s IH]; cbn [split].
  - now repeat constructor.
  - destruct (Ascii.eqb c sep) eqn:Hc.
    + constructor; [reflexivity | exact IH].
    + destruct (split sep s) as [|h t].
      * repeat constructor. cbn [occurs]. now rewrite Hc.
      * apply Forall_cons in IH as [Hh Ht].
        constructor; [|exact Ht]. cbn [occurs]. now rewrite Hc, Hh.
Qed.

Lemma concat_split sep s : String.concat (String sep "") (split sep s) = s.
Proof.
  induction s as [|c s IH]; cbn [split]; [reflexivity|].
  destruct (Ascii.eqb c sep) eqn:Hc.
  - apply Ascii.eqb_eq in Hc as ->.
    destruct (split sep s) as [|h t] eqn:E; [now apply split_nonempty in E|].
    cbn [String.concat]. cbn [String.concat] in IH. now rewrite IH.
  - destruct (split sep s) as [|h t] eqn:E; [now apply split_nonempty in E|].
    destruct t as [|h' t].
    + cbn [String.concat] in IH |- *. now rewrite IH.
    + change (String.concat (String sep "") (String c h :: h' :: t))
        with (String c (String.concat (String sep "") (h :: h' :: t))).
      now rewrite IH.
Qed.

Lemma length_split sep s : length (split sep s) = S (occurrences sep s).
Proof.
  induction s as [|c s IH]; cbn [split occurrences]; [reflexivity|].
  destruct (Ascii.eqb c sep).
  - cbn [length]. now rewrite IH.
  - destruct (split sep s) as [|h t]; [discriminate|]. exact IH.
Qed.

Lemma remove_spaces_clean s : occurs " " (remove_spaces s) = false.
Proof.
  induction s as [|c s IH]; cbn [remove_spaces]; [reflexivity|].
  destruct (Ascii.eqb c " ") eqn:Hc; [exact IH|].
  cbn [occurs]. now rewrite Hc, IH.
Qed.

Lemma remove_spaces_occurrences c s :
  c <> " "%char -> occurrences c (remove_spaces s) = occurrences c s.
Proof.
  intros Hne. induction s as [|c' s IH]; cbn [remove_spaces occurrences];
    [reflexivity|].
  destruct (Ascii.eqb c' " ") eqn:Hsp.
  - apply Ascii.eqb_eq in Hsp as ->.
    destruct (Ascii.eqb " " c) eqn:Hc; [|exact IH].
    apply Ascii.eqb_eq in Hc. now subst c.
  - cbn [occurrences]. now rewrite IH.
Qed.

(** X25. A list of names read from the environment is never empty: it has
    one name more than the value has commas.  No name contains a space or
    a comma, and joined by commas the names give the value without its
    spaces; names may be empty. *)
Theorem name_list_spec (env : option string) (fallback : string) :
  length (name_list env fallback)
  = S (occurrences "," (default fallback env)) /\
  Forall (fun name => occurs " " name = false /\ occurs "," name = false)
    (name_list env fallback) /\
  String.concat "," (name_list env fallback)
  = remove_spaces (default fallback env).
Proof.
  unfold name_list. set (value := default fallback env).
  split; [|split].
  - rewrite length_split. f_equal. now apply remove_spaces_occurrences.
  - pose proof (split_without "," " " _ (remove_spaces_clean value)) as H1.
    pose proof (split_parts "," (remove_spaces value)) as H2.
    rewrite Forall_forall in H1. rewrite Forall_forall in H2.
    apply Forall_forall. intros name Hin. split; [now apply H1 | now apply H2].
  - apply concat_split.
Qed.

(** X26. With the exchanges read from the environment, [cmd_scan_simple]
    never fails on the list: it exits with code 1 exactly when no second
    exchange is given on the command line and the environment has no
    non-empty second name; otherwise it scans, and with both exchanges
    given on the command line it scans those. *)
Theorem cmd_scan_simple_on_configured
    (arg_a arg_b env : option string) (fallback : string) :
  exists o,
    cmd_scan_simple arg_a arg_b (name_list env fallback) = Ok o /\
    (o = Exit 1 <->
     truthy arg_b = false /\
     forall name, name_list env fallback !! 1%nat = Some name -> name = "") /\
    (forall a b, arg_a = Some a -> arg_b = Some b ->
       truthy arg_a = true -> truthy arg_b = true -> o = Scan a b).
Proof.
  pose proof (split_nonempty "," (remove_spaces (default fallback env)))
    as Hne.
  fold (name_list env fallback) in Hne.
  destruct (name_list env fallback) as [|n0 names]; [contradiction|].
  unfold cmd_scan_simple.
  assert (exists a, (if truthy arg_a then Ok arg_a
                     else match (n0 :: names) !! 0%nat with
                          | Some e => Ok (Some e)
                          | None => Raise IndexError
                          end) = Ok a /\
                    (truthy arg_a = true -> a = arg_a)) as (a & -> & Ha).
  { destruct (truthy arg_a); cbn; eexists; (split; [reflexivity|]);
      [reflexivity | discriminate]. }
  cbn [bind].
  destruct (truthy arg_b) eqn:Hb.
  - rewrite Hb. cbn [negb]. eexists. split; [reflexivity|]. split.
    + split; [discriminate | intros [? _]; discriminate].
    + intros a' b' -> -> Hta _. now rewrite (Ha Hta).
  - destruct names as [|n1 names]; cbn.
    + eexists. split; [reflexivity|]. split.
      * split; [intros _; split; [reflexivity | discriminate] | reflexivity].
      * intros ? ? _ _ _ [=].
    + destruct n1 as [|c n1]; cbn; eexists; (split; [reflexivity|]); split.
      * split; [intros _; split; [reflexivity|now intros ? [= <-]] | reflexivity].
      * intros ? ? _ _ _ [=].
      * split; [discriminate|]. intros [_ H]. now specialize (H _ eq_refl).
      * intros ? ? _ _ _ [=].
Qed.

End ConfigFacts.
